(** * opensourcegames: the entry parser, the statistics and the repository lists

    A shallow embedding of [tools/utils/osg.py] and [tools/maintenance.py].
    Python [str] values are [string]s whose characters stand for code points
    below 256; a [dict] keyed by field names is a [gmap string _]; an
    exception is an explicit error result. *)

From Stdlib Require Import String Ascii List Bool Arith Lia QArith Permutation Sorted.
From stdpp Require Import gmap strings.

Local Open Scope list_scope.

(** * Python string primitives *)

Module Py.

(** [s[n:]] *)
Fixpoint drop (n : nat) (s : string) : string :=
  match n, s with
  | S k, String _ r => drop k r
  | _, _ => s
  end.

(** [s.startswith(p)] *)
Definition startswith (s p : string) : bool := String.prefix p s.

(** [s.endswith(p)] *)
Definition endswith (s p : string) : bool :=
  let n := String.length s in
  let m := String.length p in
  (m <=? n) && String.eqb (substring (n - m) m s) p.

(** [p in s] for two strings *)
Fixpoint contains (s p : string) : bool :=
  if String.prefix p s then true
  else match s with
       | EmptyString => false
       | String _ r => contains r p
       end.

(** [x in l] for a string and a list (or tuple) of strings *)
Definition mem (x : string) (l : list string) : bool := bool_decide (x ∈ l).

(** [s.partition(p)], [None] when [p] does not occur in [s]: the text
    before and the text after the first occurrence of [p]. *)
Fixpoint partition (p s : string) : option (string * string) :=
  if String.prefix p s then Some (EmptyString, drop (String.length p) s)
  else match s with
       | EmptyString => None
       | String c r =>
           match partition p r with
           | Some (a, b) => Some (String c a, b)
           | None => None
           end
       end.

(** [c.isspace()] on the code points below 256. *)
Definition isspace (c : ascii) : bool :=
  let n := nat_of_ascii c in
  ((9 <=? n) && (n <=? 13)) || ((28 <=? n) && (n <=? 32))
  || (n =? 133) || (n =? 160).

Fixpoint lstrip (s : string) : string :=
  match s with
  | EmptyString => EmptyString
  | String c r => if isspace c then lstrip r else s
  end.

Fixpoint rstrip (s : string) : string :=
  match s with
  | EmptyString => EmptyString
  | String c r =>
      match rstrip r with
      | EmptyString => if isspace c then EmptyString else String c EmptyString
      | r' => String c r'
      end
  end.

(** [s.strip()] *)
Definition strip (s : string) : string := rstrip (lstrip s).

(** [s.split(sep)] for a non-empty [sep]: the occurrences of [sep] are taken
    from the left and do not overlap; [skip] counts the characters of an
    occurrence that are still to be passed over. *)
Fixpoint split_from (sep s : string) (skip : nat) : list string :=
  match s with
  | EmptyString => [EmptyString]
  | String c r =>
      match skip with
      | S k => split_from sep r k
      | O =>
          if String.prefix sep s
          then EmptyString :: split_from sep r (String.length sep - 1)
          else match split_from sep r 0 with
               | p :: ps => String c p :: ps
               | [] => [String c EmptyString]
               end
      end
  end.

Definition split (s sep : string) : list string := split_from sep s 0.

Fixpoint has_close (s : string) : bool :=
  match s with
  | EmptyString => false
  | String c r => Ascii.eqb c ")" || has_close r
  end.

(** [re.sub(r'\([^)]*\)', '', s)]: a match starts at an opening parenthesis
    that has a closing one somewhere after it and ends at the first closing
    one; [inside] says that the scan is within a match. *)
Fixpoint sub_parens_from (inside : bool) (s : string) : string :=
  match s with
  | EmptyString => EmptyString
  | String c r =>
      if inside then sub_parens_from (negb (Ascii.eqb c ")")) r
      else if Ascii.eqb c "(" && has_close r then sub_parens_from true r
      else String c (sub_parens_from false r)
  end.

Definition sub_parens (s : string) : string := sub_parens_from false s.

(** [c.lower()] on the code points below 256: the ASCII capitals and the
    Latin-1 capitals (192 to 222 without the multiplication sign). *)
Definition lower_char (c : ascii) : ascii :=
  let n := nat_of_ascii c in
  if ((65 <=? n) && (n <=? 90)) || ((192 <=? n) && (n <=? 222) && negb (n =? 215))
  then ascii_of_nat (n + 32) else c.

Fixpoint lower (s : string) : string :=
  match s with
  | EmptyString => EmptyString
  | String c r => String (lower_char c) (lower r)
  end.

(** [s[-1]] *)
Fixpoint last_char (s : string) : option ascii :=
  match s with
  | EmptyString => None
  | String c EmptyString => Some c
  | String _ r => last_char r
  end.

(** [s[:-1]] *)
Fixpoint drop_last (s : string) : string :=
  match s with
  | EmptyString => EmptyString
  | String _ EmptyString => EmptyString
  | String c r => String c (drop_last r)
  end.

(** [sep.join(l)] *)
Fixpoint join (sep : string) (l : list string) : string :=
  match l with
  | [] => EmptyString
  | [x] => x
  | x :: r => x +:+ sep +:+ join sep r
  end.

(** [l.sort(key=...)]: the sort is stable. [le x y] says that the key of [x]
    is at most the key of [y]; an element is put before the first element
    of the sorted rest whose key is not smaller. With [reverse=True] the
    order on the keys is reversed and equal keys still keep their order. *)
Section Sort.
Context {A : Type} (le : A -> A -> bool).

Fixpoint insert_sorted (x : A) (l : list A) : list A :=
  match l with
  | [] => [x]
  | y :: r => if le x y then x :: l else y :: insert_sorted x r
  end.

Definition sort : list A -> list A := fold_right insert_sorted [].
End Sort.

(** [s.replace(old, new)] for a non-empty [old]: the occurrences of [old],
    taken from the left without overlap, are what [split] splits at. *)
Definition replace (s old new : string) : string := join new (split s old).

End Py.

(** * tools/utils/osg.py *)

Module Osg.
Import Py.

Definition essential_fields : list string :=
  ["Home"; "State"; "Keywords"; "Code repository"; "Code language"; "Code license"].

Definition valid_fields : list string :=
  ["Home"; "Media"; "State"; "Play"; "Download"; "Platform"; "Keywords";
   "Code repository"; "Code language"; "Code license"; "Code dependencies";
   "Assets license"; "Developer"; "Build system"; "Build instructions"].

Definition valid_platforms : list string :=
  ["Windows"; "Linux"; "macOS"; "Android"; "iOS"; "Web"].

Definition recommended_keywords : list string :=
  ["action"; "arcade"; "adventure"; "visual novel"; "sports"; "platform";
   "puzzle"; "role playing"; "simulation"; "strategy"; "card game";
   "board game"; "music"; "educational"; "tool"; "game engine"; "framework";
   "library"; "remake"].

(** What [parse_entry] raises. The [RuntimeError]s carry the entry's name
    in their message; here they carry the field, tag or URL they name. *)
Inductive error : Type :=
| NameNotFound
| DescriptionNotFound
| EssentialFieldMissing (field : string)
| FieldOrder (field : string)
| FieldMultiple (field : string)
| EssentialFieldEmpty (field : string)
| UnknownStateTag (tag : string)
| StateBetaMature
| AssertionError
| KeyError (key : string)
| UrlScheme (url : string)
| UrlSpace (url : string)
| PlatformOrder (platform : string)
| NoKeyword
| NoRecommendedKeyword.

Inductive result (A : Type) : Type :=
| Ok (a : A)
| Raise (e : error).
Arguments Ok {A} a.
Arguments Raise {A} e.

Definition bind {A B : Type} (m : result A) (k : A -> result B) : result B :=
  match m with
  | Ok a => k a
  | Raise e => Raise e
  end.

(** [check o]: go on when [o] is [None], raise the error otherwise. *)
Definition check (o : option error) : result unit :=
  match o with
  | None => Ok tt
  | Some e => Raise e
  end.

#[global] Instance result_ret : MRet result := @Ok.
#[global] Instance result_bind : MBind result := fun _ _ k m => bind m k.

(** The dictionary [info]. Its keys come in disjoint families, one field
    of the record each: ['name'], ['description'], ['inactive'], the raw
    texts [field.lower()+'-raw'] and the decoded lists [field.lower()]
    (both maps are keyed by the lowered field name). The fields that reach
    the dictionary are valid field names, so the families do not meet. *)
Record info : Type := Info {
  name : string;
  description : string;
  raw : gmap string string;
  values : gmap string (list string);
  inactive : option string
}.

Definition set_raw (k v : string) (i : info) : info :=
  Info (name i) (description i) (<[k := v]> (raw i)) (values i) (inactive i).
Definition set_values (k : string) (v : list string) (i : info) : info :=
  Info (name i) (description i) (raw i) (<[k := v]> (values i)) (inactive i).
Definition set_inactive (y : string) (i : info) : info :=
  Info (name i) (description i) (raw i) (values i) (Some y).

Definition newline : string := String (ascii_of_nat 10) EmptyString.

(** The lines of the text. No pattern of [parse_entry] matches across a
    line end: [.] does not match it, and [^] (with [re.MULTILINE]) matches
    after it. *)
Definition lines (content : string) : list string := split content newline.

(** The matches of the name pattern (line 85): a hash sign and a space at
    the start of the text, then the rest of the first line. At most one. *)
Definition find_name (content : string) : list string :=
  match lines content with
  | l0 :: _ => if startswith l0 "# " then [drop 2 l0] else []
  | [] => []
  end.

(** The matches of the description pattern (line 92): the second line is
    empty, the third starts and ends with an underscore (two of them) and
    is followed by a line end; the match is what is between them. *)
Definition find_description (content : string) : list string :=
  match lines content with
  | _ :: EmptyString :: String "_" r :: _ :: _ =>
      if match last_char r with Some c => Ascii.eqb c "_" | None => false end
      then [drop_last r] else []
  | _ => []
  end.

(** The field pattern (line 99) on one line: a dash and a space at the
    start of the line, then the shortest text that a colon and a space
    follow. *)
Definition field_of_line (line : string) : option string :=
  if startswith line "- "
  then match partition ": " (drop 2 line) with
       | Some (f, _) => Some f
       | None => None
       end
  else None.

Definition find_fields (content : string) : list string :=
  omap field_of_line (lines content).

(** The matches of the value pattern of a field (line 117), for a field
    name made of letters and spaces, which a valid field name is: one match
    for every line in which the field with its dash and colon occurs, the
    rest of the line after the first occurrence. *)
Definition find_field_values (field content : string) : list string :=
  omap (fun line => snd <$> partition ("- " +:+ field +:+ ": ") line)
       (lines content).

(** The cursor of the order check: [while index < len(valid) and
    field != valid[index]: index += 1], run over what is left of [valid]
    from [index] on. *)
Fixpoint seek (field : string) (rest : list string) (index : nat) : nat :=
  match rest with
  | [] => index
  | v :: rest' => if String.eqb field v then index else seek field rest' (S index)
  end.

Definition advance (valid : list string) (field : string) (index : nat) : nat :=
  seek field (skipn index valid) index.

(** [for field in fields: ...; if index == len(valid): raise]: the first
    item that the cursor cannot reach, [None] when the loop ends. *)
Fixpoint order_scan_from (valid fields : list string) (index : nat)
  : option string :=
  match fields with
  | [] => None
  | field :: rest =>
      let index' := advance valid field index in
      if index' =? length valid then Some field
      else order_scan_from valid rest index'
  end.

Definition order_scan (valid fields : list string) : option string :=
  order_scan_from valid fields 0.

(** [x[1:-1] if x[0] is '<' and x[-1] is '>' else x] on a non-empty [x].
    The one-character strings of the interpreter are shared objects, so
    [is] on them is equality. *)
Definition unwrap (x : string) : string :=
  match x with
  | String c r =>
      if Ascii.eqb c "<"
         && match last_char x with Some d => Ascii.eqb d ">" | None => false end
      then drop_last r else x
  | EmptyString => x
  end.

Definition nonempty (x : string) : bool := negb (String.eqb x EmptyString).

(** The decoding of one raw value (lines 126 to 139), split on [sep]. *)
Definition decode (sep v : string) : list string :=
  map unwrap (List.filter nonempty (map strip (split (sub_parens v) sep))).

(** [for field in fields:] of lines 116 to 146. *)
Fixpoint store_fields (content : string) (fields : list string) (i : info)
  : result info :=
  match fields with
  | [] => Ok i
  | field :: rest =>
      match find_field_values field content with
      | [v] =>
          let i := set_raw (lower field) v i in
          match decode ", " v with
          | [] => store_fields content rest i
          | d => store_fields content rest (set_values (lower field) d i)
          end
      | _ => Raise (FieldMultiple field)
      end
  end.

(** ['beta' in v != 'mature' in v]: Python chains the three comparisons
    into [('beta' in v) and (v != 'mature') and ('mature' in v)]. *)
Definition list_ne_str (v : list string) (s : string) : bool := true.

Definition beta_mature_test (v : list string) : bool :=
  mem "beta" v && list_ne_str v "mature" && mem "mature" v.

Definition known_state_tag (t : string) : bool :=
  String.eqb t "beta" || String.eqb t "mature" || startswith t "inactive since ".

(** Lines 161 to 166. *)
Definition check_state (v : list string) : option error :=
  match List.find (fun t => negb (known_state_tag t)) v with
  | Some t => Some (UnknownStateTag t)
  | None => if beta_mature_test v then Some StateBetaMature else None
  end.

Definition phrase : string := "inactive since ".

Definition inactive_year (v : list string) : list string :=
  map (drop (String.length phrase))
      (List.filter (fun x => startswith x phrase) v).

Definition url_schemes : list string :=
  ["http://"; "https://"; "git://"; "svn://"; "ftp://"; "bzr://"].

Fixpoint check_urls (urls : list string) : option error :=
  match urls with
  | [] => None
  | url :: rest =>
      if negb (existsb (startswith url) url_schemes) then Some (UrlScheme url)
      else if contains url " " then Some (UrlSpace url)
      else check_urls rest
  end.

Fixpoint check_url_fields (fields : list string) (i : info) : option error :=
  match fields with
  | [] => None
  | field :: rest =>
      match values i !! field with
      | Some urls =>
          match check_urls urls with
          | Some e => Some e
          | None => check_url_fields rest i
          end
      | None => check_url_fields rest i
      end
  end.

(** [field in info] for a lowered field name. *)
Definition has_key (field : string) (i : info) : bool :=
  bool_decide (is_Some (values i !! field)).

(** The tuple of the loop at line 149. *)
Definition after_decoding : list string :=
  ["home"; "state"; "keywords"; "code language"; "code license"].

(** [parse_entry]. The warnings it prints are left out: they change
    neither the dictionary nor what is raised. *)
Definition parse_entry (content : string) : result info :=
  name ←
    match find_name content with
    | [n] => if nonempty n then Ok n else Raise NameNotFound
    | _ => Raise NameNotFound
    end;
  description ←
    match find_description content with
    | [d] => if nonempty d then Ok d else Raise DescriptionNotFound
    | _ => Raise DescriptionNotFound
    end;
  let fields := find_fields content in
  check (EssentialFieldMissing <$>
           List.find (fun f => negb (mem f fields)) essential_fields);;
  check (FieldOrder <$> order_scan valid_fields fields);;
  i ← store_fields content fields (Info name description ∅ ∅ None);
  check (EssentialFieldEmpty <$>
           List.find (fun f => negb (has_key f i)) after_decoding);;
  match values i !! "state" with
  | None => Raise (KeyError "state")
  | Some v =>
      check (check_state v);;
      i ←
        match inactive_year v with
        | [] => Ok i
        | [y] => Ok (set_inactive y i)
        | _ => Raise AssertionError
        end;
      check (check_url_fields ["home"; "download"; "play"; "code repository"] i);;
      check (match values i !! "platform" with
             | Some p => PlatformOrder <$> order_scan valid_platforms p
             | None => None
             end);;
      match values i !! "keywords" with
      | None => Raise NoKeyword
      | Some k =>
          if existsb (fun r => mem r k) recommended_keywords then Ok i
          else Raise NoRecommendedKeyword
      end
  end.

(** ** [canonical_entry_name] *)

(** [c.casefold()] on the code points below 256: the capitals become small
    letters and the sharp s becomes two letters. The micro sign is left as it
    is: Python folds it to the Greek letter, which is not below 256, and
    [sanitize_name] takes out the one like the other. *)
Definition casefold_char (c : ascii) : string :=
  if Nat.eqb (nat_of_ascii c) 223 then "ss"
  else String (lower_char c) EmptyString.

Fixpoint casefold (s : string) : string :=
  match s with
  | EmptyString => EmptyString
  | String c r => casefold_char c +:+ casefold r
  end.

(** A character that [regex_sanitize_name] leaves in the name: a letter of
    the English alphabet, a blank, a digit, the minus or the plus sign. *)
Definition name_char (c : ascii) : bool :=
  let n := nat_of_ascii c in
  ((65 <=? n) && (n <=? 90)) || ((97 <=? n) && (n <=? 122)) || (n =? 32)
  || ((48 <=? n) && (n <=? 57)) || (n =? 45) || (n =? 43).

(** [regex_sanitize_name.sub('', name)]: every run of other characters is
    taken out. *)
Fixpoint sanitize_name (s : string) : string :=
  match s with
  | EmptyString => EmptyString
  | String c r => if name_char c then String c (sanitize_name r) else sanitize_name r
  end.

(** [regex_sanitize_name_space_eater.sub('_', name)]: every run of blanks
    becomes one underscore; [in_run] says that the blank before was one of
    the run. *)
Fixpoint eat_spaces (in_run : bool) (s : string) : string :=
  match s with
  | EmptyString => EmptyString
  | String c r =>
      if Ascii.eqb c " "
      then if in_run then eat_spaces true r else String "_" (eat_spaces true r)
      else String c (eat_spaces false r)
  end.

Definition o_umlaut : string := String (ascii_of_nat 246) EmptyString.
Definition a_umlaut : string := String (ascii_of_nat 228) EmptyString.
Definition u_umlaut : string := String (ascii_of_nat 252) EmptyString.

Definition canonical_entry_name (name : string) : string :=
  let name := casefold name in
  let name := replace (replace (replace name o_umlaut "o") a_umlaut "a") u_umlaut "u" in
  let name := sanitize_name name in
  let name := eat_spaces false name in
  let name := replace name "_-_" "-" in
  replace (replace name "--" "-") "--" "-".

(** ** [split_infos] *)

(** [x['keywords']] *)
Definition keywords (x : info) : result (list string) :=
  match values x !! "keywords" with
  | Some k => Ok k
  | None => Raise (KeyError "keywords")
  end.

(** A list comprehension with a condition that can raise. *)
Fixpoint filter_raising (test : info -> result bool) (infos : list info)
  : result (list info) :=
  match infos with
  | [] => Ok []
  | x :: rest =>
      b ← test x;
      kept ← filter_raising test rest;
      Ok (if (b : bool) then x :: kept else kept)
  end.

Definition has_keyword (y : string) (x : info) : result bool :=
  k ← keywords x; Ok (mem y k).

(** [split_infos]: the games, the tools, the frameworks and the libraries. *)
Definition split_infos (infos : list info)
  : result (list info * list info * list info * list info) :=
  games ← filter_raising
             (fun x => k ← keywords x;
                       Ok (negb (existsb (fun y => mem y k)
                                         ["tool"; "framework"; "library"])))
             infos;
  tools ← filter_raising (has_keyword "tool") infos;
  frameworks ← filter_raising (has_keyword "framework") infos;
  libraries ← filter_raising (has_keyword "library") infos;
  Ok (games, tools, frameworks, libraries).

End Osg.

(** * tools/maintenance.py *)

Module Maintenance.
Import Py.

Inductive exception : Type :=
| AssertionError
| KeyError (key : string)
| IndexError.

(** The errors that [parse_entry] prints before it returns early. *)
Inductive complaint : Type :=
| EssentialFieldMissing (field : string)
| FieldOrder (field : string)
| UnknownStateTag (tag : string)
| StateBetaMature
| InvalidPlatform (platform : string).

(** The dictionary [info], as in [Osg.info], with ['title'] for the name and
    the three keys that [assemble_infos] adds. *)
Record info : Type := Info {
  title : string;
  description : string;
  raw : gmap string string;
  values : gmap string (list string);
  inactive : option string;
  category : string;
  file : string;
  path : string
}.

Definition set_raw (k v : string) (i : info) : info :=
  Info (title i) (description i) (<[k := v]> (raw i)) (values i) (inactive i)
       (category i) (file i) (path i).
Definition set_values (k : string) (v : list string) (i : info) : info :=
  Info (title i) (description i) (raw i) (<[k := v]> (values i)) (inactive i)
       (category i) (file i) (path i).
Definition set_inactive (y : string) (i : info) : info :=
  Info (title i) (description i) (raw i) (values i) (Some y)
       (category i) (file i) (path i).
Definition set_provenance (c f p : string) (i : info) : info :=
  Info (title i) (description i) (raw i) (values i) (inactive i) c f p.

(** How a run of [parse_entry] ends before its last line: an exception, or
    a printed error and [return info]. *)
Inductive stop : Type :=
| Exception (x : exception)
| Returned (c : complaint) (i : info).

Inductive result (A : Type) : Type :=
| Ok (a : A)
| Stop (s : stop).
Arguments Ok {A} a.
Arguments Stop {A} s.

#[global] Instance result_ret : MRet result := @Ok.
#[global] Instance result_bind : MBind result :=
  fun _ _ k m => match m with Ok a => k a | Stop s => Stop s end.

Definition essential_fields : list string :=
  ["Home"; "State"; "Code repository"; "Code language"].

Definition valid_fields : list string :=
  ["Home"; "Media"; "State"; "Play"; "Download"; "Platform"; "Keywords";
   "Code repository"; "Code language"; "Code license"; "Code dependencies";
   "Assets license"; "Build system"; "Build instructions"].

Definition valid_platforms : list string :=
  ["Android"; "Windows"; "Linux"; "macOS"; "Browser"].

(** [for field in fields:] of lines 286 to 315; the value is split on a
    comma alone. *)
Fixpoint store_fields (content : string) (fields : list string) (i : info)
  : result info :=
  match fields with
  | [] => Ok i
  | field :: rest =>
      match Osg.find_field_values field content with
      | [v] =>
          let i := set_raw (lower field) v i in
          match Osg.decode "," v with
          | [] => store_fields content rest i
          | d => store_fields content rest (set_values (lower field) d i)
          end
      | _ => Stop (Exception AssertionError)
      end
  end.

(** Lines 318 to 325, the same test as in [osg.py]. *)
Definition check_state (v : list string) : option complaint :=
  match List.find (fun t => negb (Osg.known_state_tag t)) v with
  | Some t => Some (UnknownStateTag t)
  | None => if Osg.beta_mature_test v then Some StateBetaMature else None
  end.

(** [parse_entry]; the patterns for the title, the description, the field
    names and the values are those of [osg.py]. The warnings about URLs are
    left out. *)
Definition parse_entry (content : string) : result info :=
  title ←
    match Osg.find_name content with
    | [t] => if Osg.nonempty t then Ok t else Stop (Exception AssertionError)
    | _ => Stop (Exception AssertionError)
    end;
  description ←
    match Osg.find_description content with
    | [d] => if Osg.nonempty d then Ok d else Stop (Exception AssertionError)
    | _ => Stop (Exception AssertionError)
    end;
  let i := Info title description ∅ ∅ None EmptyString EmptyString EmptyString in
  let fields := Osg.find_fields content in
  match List.find (fun f => negb (mem f fields)) essential_fields with
  | Some f => Stop (Returned (EssentialFieldMissing f) i)
  | None =>
  match Osg.order_scan valid_fields fields with
  | Some f => Stop (Returned (FieldOrder f) i)
  | None =>
  i ← store_fields content fields i;
  match values i !! "state" with
  | None => Stop (Exception (KeyError "state"))
  | Some v =>
  match check_state v with
  | Some c => Stop (Returned c i)
  | None =>
  i ←
    match Osg.inactive_year v with
    | [] => Ok i
    | [y] => Ok (set_inactive y i)
    | _ => Stop (Exception AssertionError)
    end;
  match values i !! "platform" with
  | Some p =>
      match List.find (fun x => negb (mem x valid_platforms)) p with
      | Some x => Stop (Returned (InvalidPlatform x) i)
      | None => Ok i
      end
  | None => Ok i
  end end end end end.

(** The body of the inner loop of [assemble_infos] (lines 379 to 393) on
    the text of one entry: the dictionary that [parse_entry] returns, at its
    end or early, with the category's title, the file name without its
    extension and the path. *)
Definition assemble_info (category category_dir entry_file content : string)
  : exception + info :=
  let provenance :=
    set_provenance category (drop_last (drop_last (drop_last entry_file)))
                   (category_dir +:+ "/" +:+ entry_file) in
  match parse_entry content with
  | Ok i => inr (provenance i)
  | Stop (Returned _ i) => inr (provenance i)
  | Stop (Exception x) => inl x
  end.

(** ** [generate_statistics]: the inactive listing and the frequency tables *)

(** Lines 420 and 421: [sum(1 for x in infois if tag in x['state'])]. *)
Fixpoint number_state (tag : string) (infois : list info) : exception + nat :=
  match infois with
  | [] => inr 0
  | x :: rest =>
      match values x !! "state" with
      | None => inl (KeyError "state")
      | Some v =>
          match number_state tag rest with
          | inl e => inl e
          | inr n => inr (if mem tag v then S n else n)
          end
      end
  end.

(** Lines 426 to 428. *)
Definition entries_inactive (infois : list info) : list (string * string) :=
  let entries :=
    omap (fun x => match inactive x with
                   | Some y => Some (title x, y)
                   | None => None
                   end) infois in
  let entries := sort (fun x y => String.leb (fst x) (fst y)) entries in
  sort (fun x y => String.leb (snd y) (snd x)) entries.

(** [for info in infois: if field in info: all.extend(info[field])] *)
Definition facet (field : string) (infois : list info) : list string :=
  flat_map (fun i => default [] (values i !! field)) infois.

Definition count (l : string) (all : list string) : nat :=
  count_occ String.string_dec all l.

(** [all.count(l) / len(all)]: Python divides the two integers into a
    float; the model keeps the exact quotient. *)
Definition frequency (l : string) (all : list string) : Q :=
  Z.of_nat (count l all) # Pos.of_nat (length all).

(** Lines 451 to 454 (and 476 to 479, 493 to 496, 543 to 546, 576 to 579):
    the distinct values with their frequencies, sorted by name and then, the
    sort being stable, by falling frequency. The order in which [set(all)]
    is walked does not matter: the names are distinct. *)
Definition frequencies (all : list string) : list (string * Q) :=
  let unique := remove_dups all in
  let unique := map (fun l => (l, frequency l all)) unique in
  let unique := sort (fun x y => String.leb (fst x) (fst y)) unique in
  sort (fun x y => Qle_bool (snd y) (snd x)) unique.

Definition facets : list string :=
  ["code language"; "code license"; "keywords"; "build system"; "platform"].

(** ['C' in info['code language'] or 'C++' in info['code language']] *)
Definition c_or_cpp (x : info) : exception + bool :=
  match values x !! "code language" with
  | Some l => inr (mem "C" l || mem "C++" l)
  | None => inl (KeyError "code language")
  end.

(** A loop that appends the title of every entry that passes a test; the
    test can raise. *)
Fixpoint titles_where (test : info -> exception + bool) (infois : list info)
  : exception + list string :=
  match infois with
  | [] => inr []
  | x :: rest =>
      match test x with
      | inl e => inl e
      | inr b =>
          match titles_where test rest with
          | inl e => inl e
          | inr l => inr (if b then title x :: l else l)
          end
      end
  end.

(** Lines 550 to 555: the language is looked up for the entries without a
    build system only. *)
Definition c_cpp_project_without_build_system (infois : list info)
  : exception + list string :=
  match titles_where (fun x => match values x !! "build system" with
                               | Some _ => inr false
                               | None => c_or_cpp x
                               end) infois with
  | inl e => inl e
  | inr l => inr (sort String.leb l)
  end.

(** Lines 558 to 563: the language is looked up for the entries with CMake
    among their build systems only. *)
Definition c_cpp_project_not_cmake (infois : list info)
  : exception + list string :=
  match titles_where (fun x => match values x !! "build system" with
                               | Some b => if mem "CMake" b then c_or_cpp x
                                           else inr false
                               | None => inr false
                               end) infois with
  | inl e => inl e
  | inr l => inr (sort String.leb l)
  end.

(** ** [export_json] *)

Section ExportJson.
(** [textwrap.shorten(text, width=60, placeholder='..')] of the Python
    library. *)
Variable shorten : string -> string.

(** [info[field][0]] *)
Definition first_value (field : string) (i : info) : exception + string :=
  match values i !! field with
  | Some (x :: _) => inr x
  | Some [] => inl IndexError
  | None => inl (KeyError field)
  end.

Definition quote : string := String (ascii_of_nat 34) EmptyString.

(** An HTML link to [url] with the text [text]. *)
Definition link (url text : string) : string :=
  "<a href=" +:+ quote +:+ url +:+ quote +:+ ">" +:+ text +:+ "</a>".

(** Line 619: the state column. *)
Definition state_column (i : info) : exception + string :=
  match first_value "state" i with
  | inl x => inl x
  | inr s =>
      inr (s +:+ " / " +:+
           match inactive i with
           | Some y => "inactive since " +:+ y
           | None => "active"
           end)
  end.

(** Lines 629 to 639. *)
Definition source_column (i : info) : string :=
  let text1 := match values i !! "code repository" with
               | Some (r :: _) => [link r "Source"]
               | _ => []
               end in
  let text2 := match values i !! "code language" with
               | Some (x :: l) => [join ", " (x :: l)]
               | _ => []
               end in
  let text3 := match values i !! "code license" with
               | Some (x :: _) => [x]
               | _ => []
               end in
  join " - " (text1 ++ text2 ++ text3).

(** The body of the loop (lines 600 to 642): one row of seven columns. *)
Definition export_entry (i : info) : exception + list string :=
  match first_value "home" i with
  | inl x => inl x
  | inr home =>
  match state_column i with
  | inl x => inl x
  | inr state =>
      inr [ title i +:+ " (" +:+ link home "home" +:+ ", " +:+
              link ("https://github.com/Trilarion/opensourcegames/blob/master/games/"
                      +:+ path i) "entry" +:+ ")";
            shorten (description i);
            match values i !! "download" with
            | Some (d :: _) => link d "Link"
            | _ => EmptyString
            end;
            category i;
            state;
            match values i !! "keywords" with
            | Some (x :: l) => join ", " (x :: l)
            | _ => EmptyString
            end;
            source_column i ]
  end end.

Fixpoint export_entries (infois : list info) : exception + list (list string) :=
  match infois with
  | [] => inr []
  | i :: rest =>
      match export_entry i with
      | inl x => inl x
      | inr e =>
          match export_entries rest with
          | inl x => inl x
          | inr es => inr (e :: es)
          end
      end
  end.

(** [db['headings']] *)
Definition headings : list string :=
  ["Game"; "Description"; "Download"; "Category"; "State"; "Keywords"; "Source"].

(** [db['data']]: the rows, sorted by their first column. *)
Definition export_json (infois : list info) : exception + list (list string) :=
  match export_entries infois with
  | inl x => inl x
  | inr es => inr (sort (fun x y => String.leb (hd EmptyString x) (hd EmptyString y)) es)
  end.
End ExportJson.

(** ** The primary code repositories *)

Section Repositories.
(** Line 683 asks whether [repo] and the literal are one object, which
    equal strings need not be: [shared] says whether a string equal to
    the literal is the literal's own object. *)
Variable shared : bool.

Definition git_services : list string :=
  ["https://git.tuxfamily.org/"; "http://git.pond.sub.org/";
   "https://gitorious.org/"; "https://git.code.sf.net/p/"].

Definition git_repo (repo : string) : option string :=
  if (startswith repo "https://" || startswith repo "http://")
     && endswith repo ".git"
  then Some repo
  else if existsb (startswith repo) git_services then Some repo
  else None.

Definition svn_repo (repo : string) : option string :=
  if startswith repo "https://svn.code.sf.net/p/" && endswith repo "/code/"
  then Some repo
  else if startswith repo "http://svn.uktrainsim.com/svn/" then Some repo
  else if shared && String.eqb repo "https://rpg.hamsterrepublic.com/source/wip"
  then Some repo
  else None.

Definition hg_repo (repo : string) : option string :=
  if startswith repo "https://bitbucket.org/" && negb (endswith repo ".git")
  then Some repo
  else if startswith repo "http://hg." then Some repo
  else None.

Definition bzr_repo (repo : string) : option string :=
  if startswith repo "https://code.launchpad.net/" then Some repo else None.

(** The four tests in the order in which the loop tries them, each with
    the key of [primary_repos] that it fills. *)
Definition systems : list (string * (string -> option string)) :=
  [("git", git_repo); ("svn", svn_repo); ("hg", hg_repo); ("bzr", bzr_repo)].

(** The state of the loops: the dictionary [primary_repos], the list
    [unconsumed_entries] and the flag [consumed] of the entry at hand. *)
Record repositories : Type := Repositories {
  primary_repos : gmap string (list string);
  unconsumed_entries : list (string * string);
  consumed : bool
}.

(** [primary_repos[system].append(url); consumed = True] *)
Definition consume (system url : string) (st : repositories) : repositories :=
  Repositories (alter (fun l => l ++ [url]) system (primary_repos st))
               (unconsumed_entries st) true.

(** [url = test(repo); if url: ...; continue], one test after the other:
    [None] and the empty string are false. *)
Fixpoint file_under (tests : list (string * (string -> option string)))
         (repo : string) (st : repositories) : repositories :=
  match tests with
  | [] => st
  | (system, test) :: rest =>
      match test repo with
      | Some url =>
          if Osg.nonempty url then consume system url st
          else file_under rest repo st
      | None => file_under rest repo st
      end
  end.

(** Lines 733 and 734. *)
Definition clean (repo : string) : string := strip (sub_parens repo).

(** The body of [for repo in repos:] (lines 733 to 754). *)
Definition file_repo (st : repositories) (repo : string) : repositories :=
  file_under systems (clean repo) st.

(** The first of the comma-separated texts and the later ones that
    contain the marker (lines 726 to 730). *)
Definition retained (repos : string) : list string :=
  match split repos "," with
  | [] => []
  | first :: others => first :: List.filter (fun x => contains x "(+)") others
  end.

(** The body of [for info in infos.values():] (lines 719 to 757). *)
Definition file_entry (st : repositories) (i : info) : repositories :=
  match raw i !! "code repository" with
  | None => st
  | Some repos =>
      let st := Repositories (primary_repos st) (unconsumed_entries st) false in
      let st := if Osg.nonempty repos
                then fold_left file_repo (retained repos) st
                else st in
      if consumed st then st
      else Repositories (primary_repos st)
                        (unconsumed_entries st ++ [(title i, repos)])
                        (consumed st)
  end.

Definition no_repos : gmap string (list string) :=
  <["git" := []]> (<["svn" := []]> (<["hg" := []]> (<["bzr" := []]> ∅))).

(** [sorted(set(v))] *)
Definition sorted_set (v : list string) : list string :=
  sort String.leb (remove_dups v).

(** [update_primary_code_repositories]: the dictionary that it writes and
    the list of the entries of which it filed no repository. *)
Definition update_primary_code_repositories (infois : list info)
  : gmap string (list string) * list (string * string) :=
  let st := fold_left file_entry infois (Repositories no_repos [] false) in
  (sorted_set <$> primary_repos st, unconsumed_entries st).
End Repositories.

End Maintenance.

(** * Vocabulary of the properties *)

(** The canonical rank of a field name: its position in the canonical list. *)
Fixpoint rank (valid : list string) (field : string) : option nat :=
  match valid with
  | [] => None
  | v :: rest => if String.eqb field v then Some 0 else S <$> rank rest field
  end.

(** Some item of the list comes after an item of higher canonical rank. *)
Definition misordered (valid fields : list string) : Prop :=
  ∃ l1 a l2 b l3 ra rb,
    fields = l1 ++ a :: l2 ++ b :: l3 ∧
    rank valid a = Some ra ∧ rank valid b = Some rb ∧ rb < ra.

(** The text passes the checks that [Osg.parse_entry] makes before the order
    check: it has a name and a description, and every essential field is
    among its fields. *)
Definition reaches_order_check (content : string) : Prop :=
  (∃ n, Osg.find_name content = [n] ∧ n ≠ EmptyString) ∧
  (∃ d, Osg.find_description content = [d] ∧ d ≠ EmptyString) ∧
  ∀ f, f ∈ Osg.essential_fields → f ∈ Osg.find_fields content.

Definition reaches_order_checkb (content : string) : bool :=
  match Osg.find_name content, Osg.find_description content with
  | [n], [d] =>
      Osg.nonempty n && Osg.nonempty d
      && forallb (fun f => Py.mem f (Osg.find_fields content)) Osg.essential_fields
  | _, _ => false
  end.

(** ** Sample entries *)

(** The text of an entry with the given name and field lines. *)
Definition entry_named (name : string) (field_lines : list string) : string :=
  Py.join Osg.newline
    (["# " +:+ name; EmptyString; "_Description_"; EmptyString] ++ field_lines
     ++ [EmptyString]).

Definition entry : list string → string := entry_named "Name".

Definition entry_misordered : string :=
  entry ["- Code language: C++"; "- Home: https://example.org";
         "- State: mature"; "- Keywords: action";
         "- Code repository: https://example.org/code.git";
         "- Code license: MIT"].

Definition entry_home_twice : string :=
  entry ["- Home: https://example.org"; "- Home: https://example.com";
         "- State: mature"; "- Keywords: action";
         "- Code repository: https://example.org/code.git";
         "- Code language: C++"; "- Code license: MIT"].

Definition entry_with (state repository : string) : string :=
  entry ["- Home: https://example.org"; "- State: " +:+ state;
         "- Keywords: action";
         "- Code repository: " +:+ repository;
         "- Code language: C++"; "- Code license: MIT"].

(** The entry that [Osg.parse_entry] returns, if it returns one. *)
Definition accepted (r : Osg.result Osg.info) : option Osg.info :=
  match r with
  | Osg.Ok i => Some i
  | Osg.Raise _ => None
  end.

(** Every token of the state list is one that the state check knows. *)
Definition recognized (v : list string) : Prop :=
  ∀ t, t ∈ v → Osg.known_state_tag t = true.

(** The dictionary that [Maintenance.assemble_infos] keeps of an entry of the
    category Games with the given name, state, keywords and repositories. *)
Definition game_tagged (name state keywords repositories : string)
  : Maintenance.info :=
  match Maintenance.assemble_info "Games" "games" "game.md"
          (entry_named name
             ["- Home: https://example.org"; "- State: " +:+ state;
              "- Keywords: " +:+ keywords;
              "- Code repository: " +:+ repositories;
              "- Code language: C++"; "- Code license: MIT"]) with
  | inr i => i
  | inl _ => Maintenance.Info name EmptyString ∅ ∅ None EmptyString EmptyString
               EmptyString
  end.

Definition game (name state repositories : string) : Maintenance.info :=
  game_tagged name state "action, puzzle" repositories.

(** ** The exported rows *)

(** The state summary of the specification: the primary state and the
    inactivity, or that there is none. *)
Definition state_summary (primary : string) (inactive : option string) : string :=
  primary +:+ " / " +:+
  match inactive with
  | Some year => "inactive since " +:+ year
  | None => "active"
  end.

(** The entry has what [export_json] reads without asking: a home and a
    state. *)
Definition exportable (i : Maintenance.info) : Prop :=
  (∃ h hs, Maintenance.values i !! "home" = Some (h :: hs))
  ∧ (∃ s ss, Maintenance.values i !! "state" = Some (s :: ss)).

(** The row is the row of the entry, and its state column is the summary of
    the first token of the entry's state and of its inactivity. *)
Definition row_of (shorten : string → string) (i : Maintenance.info)
           (row : list string) : Prop :=
  ∃ s ss, Maintenance.values i !! "state" = Some (s :: ss)
          ∧ Maintenance.export_entry shorten i = inr row
          ∧ row !! 4 = Some (state_summary s (Maintenance.inactive i)).

(** ** The inactive listing *)

(** The order of the inactive listing on pairs of a title and a year, with
    the years as the texts that the parser cuts out of the state: the year
    that is the greater text first, and the titles in their order where the
    years are the same text. *)
Definition inactive_before (x y : string * string) : Prop :=
  String.ltb (snd y) (snd x) = true
  ∨ (snd x = snd y ∧ String.leb (fst x) (fst y) = true).

(** The number that a text of decimal digits writes. *)
Fixpoint year_number (s : string) : option nat :=
  match s with
  | EmptyString => Some 0
  | String c r =>
      match Ascii.is_nat c, year_number r with
      | Some d, Some n => Some (d * 10 ^ String.length r + n)
      | _, _ => None
      end
  end.

(** The title and the year of an inactive entry. *)
Definition inactive_pair (x : Maintenance.info) : option (string * string) :=
  match Maintenance.inactive x with
  | Some y => Some (Maintenance.title x, y)
  | None => None
  end.

(** The order of the years as numbers: the later year first, and the titles
    in their order where the years are the same. *)
Definition year_before (x y : string * string) : Prop :=
  ∃ n m, year_number (snd x) = Some n ∧ year_number (snd y) = Some m
         ∧ (m < n ∨ (n = m ∧ String.leb (fst x) (fst y) = true)).

(** The years of the inactive entries, as [x['inactive']] has them. *)
Definition inactive_years (infois : list Maintenance.info) : list string :=
  omap Maintenance.inactive infois.

(** Every year of the inactive entries is written in decimal digits. *)
Definition years_numerals (infois : list Maintenance.info) : bool :=
  forallb (fun y => match year_number y with Some _ => true | None => false end)
          (inactive_years infois).

(** Every year of the inactive entries is written in decimal digits, and in
    as many of them as the first one, as the years of four digits are. *)
Definition years_alike (infois : list Maintenance.info) : bool :=
  let years := inactive_years infois in
  years_numerals infois
  && forallb (fun y => String.length y =? String.length (hd EmptyString years))
             years.

(** C7 as it is stated: the listing of every set of entries of which the
    years are numbers is in the order of the years as numbers. *)
Definition inactive_listing_by_year : Prop :=
  ∀ infois, years_numerals infois = true →
    StronglySorted year_before (Maintenance.entries_inactive infois).

(** The three entries of the specification. *)
Definition inactive_sample : list Maintenance.info :=
  [game "B" "mature, inactive since 2018" "https://example.org/b.git";
   game "A" "beta, inactive since 2020" "https://example.org/a.git";
   game "C" "mature, inactive since 2020" "https://example.org/c.git"].

(** Three entries of which the years have three, four and five digits. *)
Definition inactive_mixed : list Maintenance.info :=
  [game "B" "mature, inactive since 2018" "https://example.org/b.git";
   game "A" "beta, inactive since 10000" "https://example.org/a.git";
   game "Z" "mature, inactive since 999" "https://example.org/z.git"].

(** The first key decides; the relation decides between equal keys. *)
Definition by_key_then {A} (le : A → A → bool) (R : A → A → Prop) (x y : A)
  : Prop :=
  le x y = true ∧ (le y x = true → R x y).

(** ** The frequency tables *)

Definition Qsum (l : list Q) : Q := fold_right Qplus 0%Q l.

(** C6 as it is stated: the frequencies of every facet of every set of
    entries that is not empty add up to one. *)
Definition frequencies_always_sum_to_one : Prop :=
  ∀ infois field,
    infois ≠ [] → field ∈ Maintenance.facets →
    (Qsum (map snd (Maintenance.frequencies (Maintenance.facet field infois)))
     == 1)%Q.

(** ** Decoding *)

(** The value starts with [<] and ends with [>]: the test of [Osg.unwrap]. *)
Definition bracketed (x : string) : bool :=
  match x with
  | String c _ =>
      Ascii.eqb c "<"
      && match Py.last_char x with Some d => Ascii.eqb d ">" | None => false end
  | EmptyString => false
  end.

(** C8 as it is stated: a single value that decoding gives decodes to
    itself, whichever of the two separators is used. *)
Definition decoding_idempotent : Prop :=
  ∀ sep raw x, sep ∈ [", "; ","] →
    Osg.decode sep raw = [x] → Osg.decode sep x = [x].

(** [x] is a part of [s]. *)
Definition infix (x s : string) : Prop := ∃ a b, s = a +:+ x +:+ b.

(** Some opening parenthesis of the text has a closing one after it: the
    pattern of the remarks matches somewhere. *)
Fixpoint open_closed (s : string) : bool :=
  match s with
  | EmptyString => false
  | String c r => (Ascii.eqb c "(" && Py.has_close r) || open_closed r
  end.

(** ** The repository lists *)

(** The test takes the repository: what it returns is true for Python. *)
Definition takes (test : string → option string) (repo : string) : bool :=
  match test repo with
  | Some url => Osg.nonempty url
  | None => false
  end.

(** The test takes the cleaned text of the repository. *)
Definition matches (test : string → option string) (repo : string) : bool :=
  takes test (Maintenance.clean repo).

(** One of the four tests takes the repository. *)
Definition classified (shared : bool) (repo : string) : bool :=
  existsb (fun st => matches (snd st) repo) (Maintenance.systems shared).

(** The raw field files a repository: it is not empty and one of the
    repositories that are kept of it is taken by a test. *)
Definition files_some (shared : bool) (repos : string) : bool :=
  Osg.nonempty repos
  && existsb (classified shared) (Maintenance.retained repos).

(** What an entry adds to the list of the unconsumed entries. *)
Definition unconsumed_of (shared : bool) (i : Maintenance.info)
  : list (string * string) :=
  match Maintenance.raw i !! "code repository" with
  | Some repos =>
      if files_some shared repos then [] else [(Maintenance.title i, repos)]
  | None => []
  end.

(** C3 as it is stated: every kept repository that no test takes puts its
    entry on the list of the unconsumed entries. *)
Definition every_unmatched_repository_recorded : Prop :=
  ∀ shared infois (i : Maintenance.info) repos url,
    i ∈ infois →
    Maintenance.raw i !! "code repository" = Some repos →
    url ∈ Maintenance.retained repos →
    classified shared url = false →
    (Maintenance.title i, repos)
    ∈ snd (Maintenance.update_primary_code_repositories shared infois).

(** ** An accepted entry *)

Definition sample_entry : string :=
  entry ["- Home: https://example.org"; "- State: mature, inactive since 2019";
         "- Platform: Windows, Linux"; "- Keywords: action, <open world>";
         "- Code repository: https://example.org/code.git (main branch)";
         "- Code language: C++, Lua"; "- Code license: MIT"].

(** The entry that [Osg.parse_entry] returns for it. *)
Definition sample_info : Osg.info :=
  default (Osg.Info EmptyString EmptyString ∅ ∅ None)
          (accepted (Osg.parse_entry sample_entry)).

(** ** Joining and decoding *)

(** The character occurs in the text. *)
Fixpoint has_char (c : ascii) (s : string) : bool :=
  match s with
  | EmptyString => false
  | String d r => Ascii.eqb d c || has_char c r
  end.

(** A value that can stand in a list of values as it is: not empty, without
    blanks at its ends, not bracketed, without a comma and without an opening
    parenthesis. *)
Definition plain (x : string) : Prop :=
  x ≠ EmptyString ∧ Py.strip x = x ∧ bracketed x = false
  ∧ has_char "," x = false ∧ has_char "(" x = false.

(** The order of a frequency table on pairs of a value and its frequency:
    the higher frequency first, and the values in their order where the
    frequencies are the same. *)
Definition frequency_before (x y : string * Q) : Prop :=
  (snd y < snd x)%Q
  ∨ ((snd x == snd y)%Q ∧ String.leb (fst x) (fst y) = true).

(** The system under which the loop files a cleaned repository: the first
    of the four tests that takes it. *)
Definition system_of (shared : bool) (url : string) : option string :=
  fst <$> List.find (fun st => takes (snd st) url) (Maintenance.systems shared).

(** The cleaned repositories of an entry that the loop files under a
    system, in their order: those of the kept repositories of the raw field,
    if it is not empty. *)
Definition entry_urls (shared : bool) (system : string) (i : Maintenance.info)
  : list string :=
  match Maintenance.raw i !! "code repository" with
  | Some repos =>
      if Osg.nonempty repos
      then List.filter (fun url => bool_decide (system_of shared url = Some system))
             (map Maintenance.clean (Maintenance.retained repos))
      else []
  | None => []
  end.

Definition filed_urls (shared : bool) (system : string)
           (infois : list Maintenance.info) : list string :=
  flat_map (entry_urls shared system) infois.

(** ** Canonical names *)

(** Every character of the text passes the test. *)
Fixpoint all_chars (p : ascii -> bool) (s : string) : bool :=
  match s with
  | EmptyString => true
  | String c r => p c && all_chars p r
  end.

(** A small letter of the English alphabet, a digit, the minus sign, the
    plus sign or the underscore. *)
Definition file_name_char (c : ascii) : bool :=
  let n := nat_of_ascii c in
  ((97 <=? n) && (n <=? 122)) || ((48 <=? n) && (n <=? 57))
  || (n =? 45) || (n =? 43) || (n =? 95).

(** Not a capital of the English alphabet. *)
Definition no_capital (c : ascii) : bool :=
  let n := nat_of_ascii c in negb ((65 <=? n) && (n <=? 90)).

(** ** The kinds of entries *)

(** The entry has the keyword. *)
Definition tagged (y : string) (x : Osg.info) : Prop :=
  ∃ k, Osg.values x !! "keywords" = Some k ∧ y ∈ k.

(** ** What [Maintenance.assemble_infos] keeps of an entry *)

(** The dictionary that [Maintenance.parse_entry] returns, at its end or
    early after a printed error. *)
Definition kept (r : Maintenance.result Maintenance.info)
  : option Maintenance.info :=
  match r with
  | Maintenance.Ok i => Some i
  | Maintenance.Stop (Maintenance.Returned _ i) => Some i
  | Maintenance.Stop (Maintenance.Exception _) => None
  end.

(** The text has a title and a description. *)
Definition titled (content n d : string) : Prop :=
  Osg.find_name content = [n] ∧ n ≠ EmptyString
  ∧ Osg.find_description content = [d] ∧ d ≠ EmptyString.

(** The fields of the text pass the two checks that come before the values
    are read: the essential fields are there, and the order check finds
    nothing. *)
Definition fields_pass (content : string) : Prop :=
  (∀ f, f ∈ Maintenance.essential_fields → f ∈ Osg.find_fields content)
  ∧ Osg.order_scan Maintenance.valid_fields (Osg.find_fields content) = None.

(** An entry of which the state is a comment only. *)
Definition entry_state_comment : string :=
  entry ["- Home: https://example.org"; "- State: (unknown)";
         "- Keywords: action";
         "- Code repository: https://example.org/code.git";
         "- Code language: C++"; "- Code license: MIT"].

(** An entry of which the home is a comment only. *)
Definition entry_home_comment : string :=
  entry ["- Home: (none)"; "- State: beta";
         "- Keywords: action";
         "- Code repository: https://example.org/code.git";
         "- Code language: C++"; "- Code license: MIT"].

(** What [Maintenance.parse_entry] returns for the sample entry. *)
Definition sample_kept : Maintenance.info :=
  default (Maintenance.Info EmptyString EmptyString ∅ ∅ None EmptyString
             EmptyString EmptyString)
          (kept (Maintenance.parse_entry sample_entry)).

(** ** The lists of the statistics *)

(** The entry is written in C or in C++. *)
Definition in_c_or_cpp (x : Maintenance.info) : Prop :=
  ∃ l, Maintenance.values x !! "code language" = Some l
       ∧ ("C" ∈ l ∨ "C++" ∈ l).

(** CMake is among the build systems of the entry. *)
Definition with_cmake (x : Maintenance.info) : Prop :=
  ∃ b, Maintenance.values x !! "build system" = Some b ∧ "CMake" ∈ b.

(** Two entries in C++, one built with CMake and one with Make. *)
Definition built_with (name system : string) : Maintenance.info :=
  Maintenance.Info name "Description" ∅
    (<["code language" := ["C++"]]> (<["build system" := [system]]> ∅))
    None "Games" name ("games/" +:+ name +:+ ".md").

(** * The cursor of the order check *)

Section Cursor.
Variable valid : list string.

Lemma seek_bounds field rest index :
  index ≤ Osg.seek field rest index ≤ index + length rest.
Proof.
  revert index. induction rest as [|v rest IH]; intros index; simpl; [lia|].
  destruct (String.eqb field v); [lia|]. specialize (IH (S index)). lia.
Qed.

Lemma seek_miss field rest index :
  field ∉ rest → Osg.seek field rest index = index + length rest.
Proof.
  revert index. induction rest as [|v rest IH]; intros index Hn; simpl; [lia|].
  apply not_elem_of_cons in Hn as [Hne Hn].
  apply String.eqb_neq in Hne. rewrite Hne, IH by done. lia.
Qed.

Lemma seek_hit field rest index :
  field ∈ rest →
  ∃ a b, rest = a ++ field :: b ∧ (field ∉ a)
         ∧ Osg.seek field rest index = index + length a.
Proof.
  revert index. induction rest as [|v rest IH]; intros index Hin.
  - by apply elem_of_nil in Hin.
  - simpl. destruct (String.eqb field v) eqn:E.
    + apply String.eqb_eq in E as ->. exists [], rest.
      split_and!; [done|apply not_elem_of_nil|simpl; lia].
    + apply String.eqb_neq in E.
      apply elem_of_cons in Hin as [?|Hin]; [done|].
      destruct (IH (S index) Hin) as (a & b & -> & Hn & Hs).
      exists (v :: a), b. split_and!; [done| |simpl; lia].
      apply not_elem_of_cons; auto.
Qed.

Lemma advance_bounds field index :
  index ≤ length valid →
  index ≤ Osg.advance valid field index ≤ length valid.
Proof.
  intros Hle. unfold Osg.advance.
  pose proof (seek_bounds field (skipn index valid) index) as H.
  rewrite length_skipn in H. lia.
Qed.

(** A second look for the name that the cursor has just matched leaves the
    cursor where it is. *)
Lemma advance_again field index :
  Osg.advance valid field (Osg.advance valid field index)
  = Osg.advance valid field index.
Proof.
  unfold Osg.advance.
  destruct (decide (field ∈ skipn index valid)) as [Hin|Hn].
  - destruct (seek_hit field _ index Hin) as (a & b & Hs & _ & ->).
    replace (skipn (index + length a) valid) with (field :: b).
    + simpl. by rewrite String.eqb_refl.
    + rewrite Nat.add_comm, <- skipn_skipn, Hs.
      by rewrite skipn_app, skipn_all, Nat.sub_diag.
  - rewrite (seek_miss _ _ _ Hn).
    rewrite skipn_all2; [done|]. rewrite length_skipn. lia.
Qed.

Lemma rank_lt field r : rank valid field = Some r → r < length valid.
Proof.
  revert r. induction valid as [|v rest IH]; intros r; simpl; [done|].
  destruct (String.eqb field v); [intros [= <-]; lia|].
  destruct (rank rest field) as [k|]; simpl; [|done].
  intros [= <-]. specialize (IH k eq_refl). lia.
Qed.

Lemma rank_split field r :
  rank valid field = Some r →
  ∃ a b, valid = a ++ field :: b ∧ length a = r ∧ field ∉ a.
Proof.
  revert r. induction valid as [|v rest IH]; intros r; simpl; [done|].
  destruct (String.eqb field v) eqn:E.
  - intros [= <-]. apply String.eqb_eq in E as ->.
    exists [], rest. split_and!; [done..|apply not_elem_of_nil].
  - destruct (rank rest field) as [k|]; simpl; [|done].
    intros [= <-]. destruct (IH k eq_refl) as (a & b & -> & <- & Hn).
    exists (v :: a), b. split_and!; [done..|].
    apply String.eqb_neq in E. apply not_elem_of_cons; auto.
Qed.

Lemma rank_app_fresh a b field :
  field ∉ a → rank (a ++ field :: b) field = Some (length a).
Proof.
  induction a as [|v a IH]; intros Hn; simpl.
  - by rewrite String.eqb_refl.
  - apply not_elem_of_cons in Hn as [Hne Hn].
    apply String.eqb_neq in Hne. by rewrite Hne, IH.
Qed.

Hypothesis valid_nodup : NoDup valid.

(** A name whose rank is below the cursor cannot be reached. *)
Lemma advance_below field index r :
  index ≤ length valid → rank valid field = Some r → r < index →
  Osg.advance valid field index = length valid.
Proof using valid_nodup.
  intros Hle Hr Hlt. destruct (rank_split _ _ Hr) as (a & b & Hv & Hlen & _).
  unfold Osg.advance. rewrite seek_miss.
  - rewrite length_skipn. lia.
  - intros Hin.
    assert (Hpre : field ∈ firstn index valid).
    { rewrite Hv. rewrite firstn_app.
      apply elem_of_app. right.
      replace (index - length a) with (S (index - length a - 1)) by lia.
      destruct a; simpl; apply elem_of_cons; by left. }
    rewrite <- (firstn_skipn index valid) in valid_nodup.
    apply NoDup_app in valid_nodup as (_ & Hdis & _).
    by apply (Hdis field).
Qed.

(** Where the cursor stops inside the list, it stops on the rank of the
    name. *)
Lemma advance_stops field index :
  index ≤ length valid →
  Osg.advance valid field index ≠ length valid →
  rank valid field = Some (Osg.advance valid field index).
Proof using valid_nodup.
  intros Hle Hne. unfold Osg.advance in *.
  destruct (decide (field ∈ skipn index valid)) as [Hin|Hn].
  - destruct (seek_hit field _ index Hin) as (a & b & Hs & Hna & ->).
    assert (Hv : valid = (firstn index valid ++ a) ++ field :: b).
    { by rewrite <- app_assoc, <- Hs, firstn_skipn. }
    rewrite Hv at 1. rewrite rank_app_fresh.
    + rewrite length_app, length_firstn. f_equal. lia.
    + intros [Hpre|?]%elem_of_app; [|done].
      rewrite <- (firstn_skipn index valid) in valid_nodup.
      apply NoDup_app in valid_nodup as (_ & Hdis & _).
      by apply (Hdis field).
  - rewrite (seek_miss _ _ _ Hn), length_skipn in Hne. lia.
Qed.

Lemma scan_below fields field index r :
  index ≤ length valid → field ∈ fields →
  rank valid field = Some r → r < index →
  is_Some (Osg.order_scan_from valid fields index).
Proof using valid_nodup.
  intros Hle Hin Hr. revert index Hle.
  induction fields as [|f fields IH]; intros index Hle Hlt.
  - by apply elem_of_nil in Hin.
  - simpl. destruct (Nat.eqb_spec (Osg.advance valid f index) (length valid)) as [|Hne];
      [by eexists|].
    pose proof (advance_bounds f index Hle).
    apply elem_of_cons in Hin as [->|Hin].
    + by rewrite (advance_below _ _ _ Hle Hr Hlt) in Hne.
    + apply IH; [done|lia..].
Qed.

(** The order check rejects a list in which a name follows one of higher
    rank. *)
Lemma scan_misordered fields :
  misordered valid fields → is_Some (Osg.order_scan valid fields).
Proof using valid_nodup.
  intros (l1 & a & l2 & b & l3 & ra & rb & -> & Ha & Hb & Hlt).
  unfold Osg.order_scan.
  assert (Hle : 0 ≤ length valid) by lia. revert Hle. generalize 0.
  induction l1 as [|f l1 IH]; intros index Hle; simpl.
  - destruct (Nat.eqb_spec (Osg.advance valid a index) (length valid)) as [|Hne];
      [by eexists|].
    pose proof (advance_bounds a index Hle).
    pose proof (advance_stops a index Hle Hne) as Hs.
    rewrite Ha in Hs. injection Hs as ->.
    apply (scan_below _ b _ rb); [lia| |done..].
    apply elem_of_app. right. by left.
  - destruct (Nat.eqb_spec (Osg.advance valid f index) (length valid)) as [|Hne];
      [by eexists|].
    apply IH. pose proof (advance_bounds f index Hle). lia.
Qed.
End Cursor.

(** A name that comes twice in a row is seen once by the order check. *)
Lemma scan_repeated valid l1 f l2 :
  Osg.order_scan valid (l1 ++ f :: f :: l2) = Osg.order_scan valid (l1 ++ f :: l2).
Proof.
  unfold Osg.order_scan. generalize 0.
  induction l1 as [|g l1 IH]; intros index; simpl.
  - rewrite advance_again. by destruct (_ =? _).
  - destruct (_ =? _); [done|apply IH].
Qed.

(** * The checks of [Osg.parse_entry] that come before the values *)

Lemma nonempty_true x : x ≠ EmptyString → Osg.nonempty x = true.
Proof. intros H. unfold Osg.nonempty. by apply String.eqb_neq in H as ->. Qed.

Lemma find_all_false {A} (f : A → bool) (l : list A) :
  (∀ x, x ∈ l → f x = false) → List.find f l = None.
Proof.
  induction l as [|y l IH]; intros H; simpl; [done|].
  rewrite H by (by left). apply IH. intros x Hx. apply H. by right.
Qed.

Lemma find_essential_none fields :
  (∀ f, f ∈ Osg.essential_fields → f ∈ fields) →
  List.find (fun f => negb (Py.mem f fields)) Osg.essential_fields = None.
Proof.
  intros H. apply find_all_false. intros f Hin.
  unfold Py.mem. rewrite bool_decide_eq_true_2; auto.
Qed.

(** With a name, a description and the essential fields, [parse_entry] is
    the order check followed by the rest. *)
Lemma parse_entry_order content g :
  reaches_order_check content →
  Osg.order_scan Osg.valid_fields (Osg.find_fields content) = Some g →
  Osg.parse_entry content = Osg.Raise (Osg.FieldOrder g).
Proof.
  intros ((n & Hn & Hne) & (d & Hd & Hde) & Hess) Hscan.
  unfold Osg.parse_entry. rewrite Hn, Hd, !nonempty_true by done.
  cbn [mbind Osg.result_bind Osg.bind].
  rewrite find_essential_none by done.
  cbn [mbind Osg.result_bind Osg.bind fmap option_fmap option_map Osg.check].
  by rewrite Hscan.
Qed.

(** Whatever comes before it, a rejection by the order check keeps
    [parse_entry] from returning. *)
Lemma parse_entry_order_not_ok content g i :
  Osg.order_scan Osg.valid_fields (Osg.find_fields content) = Some g →
  Osg.parse_entry content ≠ Osg.Ok i.
Proof.
  intros Hscan. unfold Osg.parse_entry.
  destruct (Osg.find_name content) as [|n [|]]; try done.
  destruct (Osg.nonempty n); try done.
  destruct (Osg.find_description content) as [|d [|]]; try done.
  destruct (Osg.nonempty d); try done.
  cbn [mbind Osg.result_bind Osg.bind].
  destruct (List.find _ Osg.essential_fields); try done.
  cbn [mbind Osg.result_bind Osg.bind fmap option_fmap option_map Osg.check].
  by rewrite Hscan.
Qed.

Lemma osg_valid_fields_nodup : NoDup Osg.valid_fields.
Proof. compute_done. Qed.

Lemma maintenance_valid_fields_nodup : NoDup Maintenance.valid_fields.
Proof. compute_done. Qed.

(** * Texts: prefixes and the first occurrence of a pattern *)

Lemma app_cons c s t : String c s +:+ t = String c (s +:+ t).
Proof. reflexivity. Qed.

Lemma app_empty_l s : EmptyString +:+ s = s.
Proof. reflexivity. Qed.

Lemma app_empty_r s : s +:+ EmptyString = s.
Proof. induction s as [|c s IH]; [done|]. by rewrite app_cons, IH. Qed.

Lemma app_assoc_string s t u : (s +:+ t) +:+ u = s +:+ t +:+ u.
Proof. induction s as [|c s IH]; [done|]. by rewrite !app_cons, IH. Qed.

Lemma prefix_app p b : String.prefix p (p +:+ b) = true.
Proof.
  induction p as [|c p IH]; [by destruct b|].
  rewrite app_cons. simpl. by destruct (ascii_dec c c).
Qed.

Lemma prefix_drop p s :
  String.prefix p s = true → s = p +:+ Py.drop (String.length p) s.
Proof.
  revert s. induction p as [|c p IH]; intros s H; simpl in *.
  - by destruct s.
  - destruct s as [|d s]; [done|]. simpl in H.
    destruct (ascii_dec c d) as [->|]; [|done].
    rewrite app_cons. f_equal. apply IH, H.
Qed.

Lemma partition_app p s a b :
  Py.partition p s = Some (a, b) → s = a +:+ p +:+ b.
Proof.
  revert a b. induction s as [|c s IH]; intros a b; cbn [Py.partition].
  - destruct (String.prefix p EmptyString) eqn:E; [|done].
    intros [= <- <-]. by apply prefix_drop in E.
  - destruct (String.prefix p (String c s)) eqn:E.
    + intros [= <- <-]. by apply prefix_drop in E.
    + destruct (Py.partition p s) as [[a' b']|]; [|done].
      intros [= <- <-]. rewrite app_cons. f_equal. by apply IH.
Qed.

Lemma partition_prefix p s :
  String.prefix p s = true → is_Some (Py.partition p s).
Proof. intros H. destruct s; cbn [Py.partition]; rewrite H; by eexists. Qed.

(** A line that gives a field name holds the pattern of that field's
    value. *)
Lemma field_of_line_value line f :
  Osg.field_of_line line = Some f →
  is_Some (Py.partition ("- " +:+ f +:+ ": ") line).
Proof.
  unfold Osg.field_of_line, Py.startswith.
  destruct (String.prefix "- " line) eqn:E; [|done].
  destruct (Py.partition ": " (Py.drop 2 line)) as [[a b]|] eqn:Hp; [|done].
  intros [= <-]. apply prefix_drop in E. apply partition_app in Hp.
  simpl String.length in E. rewrite Hp in E.
  apply partition_prefix. rewrite E.
  replace ("- " +:+ a +:+ ": " +:+ b) with (("- " +:+ a +:+ ": ") +:+ b)
    by (by rewrite !app_assoc_string).
  apply prefix_app.
Qed.

Lemma field_values_count f (ls : list string) :
  count_occ String.string_dec (omap Osg.field_of_line ls) f
  ≤ length (omap (fun line => snd <$> Py.partition ("- " +:+ f +:+ ": ") line) ls).
Proof.
  induction ls as [|line ls IH]; csimpl; [done|].
  destruct (Osg.field_of_line line) as [g|] eqn:E; csimpl.
  - destruct (String.string_dec g f) as [->|].
    + destruct (field_of_line_value _ _ E) as [[a b] ->]. csimpl. lia.
    + destruct (Py.partition _ line); csimpl; lia.
  - destruct (Py.partition _ line); csimpl; lia.
Qed.

(** A field name that the text has twice has two values or more. *)
Lemma repeated_field_values content l1 f l2 l3 :
  Osg.find_fields content = l1 ++ f :: l2 ++ f :: l3 →
  2 ≤ length (Osg.find_field_values f content).
Proof.
  intros H. unfold Osg.find_field_values.
  etrans; [|apply field_values_count]. fold (Osg.find_fields content).
  rewrite H, count_occ_app. simpl.
  destruct (String.string_dec f f); [|done].
  rewrite count_occ_app. simpl.
  destruct (String.string_dec f f); [|done]. lia.
Qed.

(** The loop over the fields raises when some field has no single value. *)
Lemma store_fields_multiple content fields g :
  g ∈ fields → length (Osg.find_field_values g content) ≠ 1 →
  ∃ g', ∀ i, Osg.store_fields content fields i
              = Osg.Raise (Osg.FieldMultiple g').
Proof.
  intros Hin Hlen.
  induction fields as [|f fields IH].
  - by apply elem_of_nil in Hin.
  - simpl. destruct (Osg.find_field_values f content) as [|v [|]] eqn:E;
      [by eexists| |by eexists].
    apply elem_of_cons in Hin as [->|Hin]; [by rewrite E in Hlen|].
    destruct (IH Hin) as [g' Hg]. exists g'. intros i.
    destruct (Osg.decode ", " v); apply Hg.
Qed.

(** With a name, a description, the essential fields and the order check
    passed, [parse_entry] is the loop over the fields followed by the rest. *)
Lemma parse_entry_store content e :
  reaches_order_check content →
  Osg.order_scan Osg.valid_fields (Osg.find_fields content) = None →
  (∀ n d, Osg.store_fields content (Osg.find_fields content)
            (Osg.Info n d ∅ ∅ None) = Osg.Raise e) →
  Osg.parse_entry content = Osg.Raise e.
Proof.
  intros ((n & Hn & Hne) & (d & Hd & Hde) & Hess) Hscan Hst.
  unfold Osg.parse_entry. rewrite Hn, Hd, !nonempty_true by done.
  cbn [mbind Osg.result_bind Osg.bind].
  rewrite find_essential_none by done.
  cbn [mbind Osg.result_bind Osg.bind fmap option_fmap option_map Osg.check].
  rewrite Hscan.
  cbn [mbind Osg.result_bind Osg.bind fmap option_fmap option_map Osg.check].
  by rewrite Hst.
Qed.

Lemma reaches_order_check_true content :
  reaches_order_checkb content = true → reaches_order_check content.
Proof.
  unfold reaches_order_checkb, reaches_order_check, Osg.nonempty.
  destruct (Osg.find_name content) as [|n [|]]; try done.
  destruct (Osg.find_description content) as [|d [|]]; try done.
  intros [[Hn Hd]%andb_true_iff Hf]%andb_true_iff.
  apply negb_true_iff, String.eqb_neq in Hn, Hd.
  split_and!; [by exists n|by exists d|].
  intros f Hin%list_elem_of_In.
  rewrite forallb_forall in Hf. apply Hf in Hin.
  by apply bool_decide_eq_true in Hin.
Qed.

(** * The order of the fields *)

(** C4: a list of field names in which some name comes after a name of
    higher canonical rank is rejected by the order check: the scan returns
    the name at which its cursor runs off the canonical list. A text with
    such fields is never returned as an entry by [Osg.parse_entry], and when
    the text has its name, its description and its essential fields, what is
    raised is the error of the order check. *)
Theorem misordered_fields_rejected fields :
  misordered Osg.valid_fields fields →
  ∃ g, Osg.order_scan Osg.valid_fields fields = Some g ∧
       ∀ content, Osg.find_fields content = fields →
         (∀ i, Osg.parse_entry content ≠ Osg.Ok i) ∧
         (reaches_order_check content →
          Osg.parse_entry content = Osg.Raise (Osg.FieldOrder g)).
Proof.
  intros Hmis.
  destruct (scan_misordered _ osg_valid_fields_nodup _ Hmis) as [g Hg].
  exists g. split; [done|]. intros content <-. split.
  - intros i. by apply (parse_entry_order_not_ok _ g).
  - intros Hr. by apply parse_entry_order.
Qed.

Lemma misordered_fields_rejected_witness :
  ∃ g, Osg.order_scan Osg.valid_fields
         ["Code language"; "Home"; "State"; "Keywords"; "Code repository";
          "Code license"] = Some g ∧
       ∀ content,
         Osg.find_fields content
         = ["Code language"; "Home"; "State"; "Keywords"; "Code repository";
            "Code license"] →
         (∀ i, Osg.parse_entry content ≠ Osg.Ok i) ∧
         (reaches_order_check content →
          Osg.parse_entry content = Osg.Raise (Osg.FieldOrder g)).
Proof.
  apply (misordered_fields_rejected
           ["Code language"; "Home"; "State"; "Keywords"; "Code repository";
            "Code license"]).
  exists [], "Code language", [], "Home",
    ["State"; "Keywords"; "Code repository"; "Code license"], 8, 0.
  split_and!; [reflexivity..|lia].
Defined.

(** The example of the specification, run through [Osg.parse_entry]. *)
Lemma entry_misordered_rejected :
  Osg.parse_entry entry_misordered = Osg.Raise (Osg.FieldOrder "Home").
Proof. by vm_compute. Qed.

(** The order check of [Maintenance.parse_entry] is the same scan over a
    list without the developer: it prints the error and returns what it has,
    the title and the description. *)
Lemma maintenance_misordered_fields_rejected content :
  misordered Maintenance.valid_fields (Osg.find_fields content) →
  reaches_order_check content →
  ∃ g n d, Maintenance.parse_entry content
           = Maintenance.Stop
               (Maintenance.Returned (Maintenance.FieldOrder g)
                  (Maintenance.Info n d ∅ ∅ None EmptyString EmptyString
                     EmptyString)).
Proof.
  intros Hmis ((n & Hn & Hne) & (d & Hd & Hde) & Hess).
  destruct (scan_misordered _ maintenance_valid_fields_nodup _ Hmis) as [g Hg].
  exists g, n, d. unfold Maintenance.parse_entry.
  rewrite Hn, Hd, !nonempty_true by done.
  cbn [mbind Maintenance.result_bind].
  rewrite find_all_false, Hg; [done|].
  intros f Hf. unfold Py.mem. rewrite bool_decide_eq_true_2; [done|].
  apply Hess. revert Hf. unfold Maintenance.essential_fields, Osg.essential_fields.
  rewrite !elem_of_cons. tauto.
Qed.

(** C10: the order check sees a field name that comes twice in a row once:
    its verdict on the list with the repetition is its verdict on the list
    without it, so the repetition alone never makes it reject. When the text
    has its name, its description and its essential fields and the order
    check lets its fields pass, the entry is rejected afterwards, by the
    loop that wants one value for every field. *)
Theorem repeated_field_rejected_after_order_check content l1 f l2 :
  Osg.find_fields content = l1 ++ f :: f :: l2 →
  Osg.order_scan Osg.valid_fields (l1 ++ f :: f :: l2)
  = Osg.order_scan Osg.valid_fields (l1 ++ f :: l2)
  ∧ (reaches_order_check content →
     Osg.order_scan Osg.valid_fields (l1 ++ f :: l2) = None →
     ∃ g, Osg.parse_entry content = Osg.Raise (Osg.FieldMultiple g)).
Proof.
  intros Hf. split; [apply scan_repeated|]. intros Hr Hscan.
  assert (Hlen : length (Osg.find_field_values f content) ≠ 1).
  { pose proof (repeated_field_values content l1 f [] l2 Hf). lia. }
  assert (Hin : f ∈ Osg.find_fields content).
  { rewrite Hf. apply elem_of_app. right. by left. }
  destruct (store_fields_multiple content _ f Hin Hlen) as [g Hg].
  exists g. apply parse_entry_store; [done| |done].
  by rewrite Hf, scan_repeated.
Qed.

Lemma repeated_field_rejected_after_order_check_witness :
  Osg.find_fields entry_home_twice
  = [] ++ "Home" :: "Home" ::
      ["State"; "Keywords"; "Code repository"; "Code language"; "Code license"]
  ∧ ∃ g, Osg.parse_entry entry_home_twice = Osg.Raise (Osg.FieldMultiple g).
Proof.
  split; [vm_compute; reflexivity|].
  apply (repeated_field_rejected_after_order_check entry_home_twice [] "Home"
           ["State"; "Keywords"; "Code repository"; "Code language"; "Code license"]).
  - vm_compute. reflexivity.
  - apply reaches_order_check_true. vm_compute. reflexivity.
  - vm_compute. reflexivity.
Defined.

(** The entry with two home lines passes the order check and is rejected
    for the repeated field. *)
Lemma entry_home_twice_rejected :
  reaches_order_check entry_home_twice ∧
  Osg.order_scan Osg.valid_fields (Osg.find_fields entry_home_twice) = None ∧
  Osg.parse_entry entry_home_twice = Osg.Raise (Osg.FieldMultiple "Home").
Proof.
  split_and!; [apply reaches_order_check_true| |]; by vm_compute.
Qed.

(** * The state *)

Lemma find_unknown_none v :
  recognized v → List.find (fun t => negb (Osg.known_state_tag t)) v = None.
Proof.
  intros H. apply find_all_false. intros t Ht. by rewrite (H t Ht).
Qed.

(** On a list of known tokens the state check rejects exactly the lists that
    hold both [beta] and [mature]. *)
Lemma check_state_both v :
  recognized v →
  Osg.check_state v = Some Osg.StateBetaMature ↔ "beta" ∈ v ∧ "mature" ∈ v.
Proof.
  intros H. unfold Osg.check_state, Osg.beta_mature_test, Osg.list_ne_str, Py.mem.
  rewrite find_unknown_none by done. rewrite andb_true_r.
  destruct (decide ("beta" ∈ v)) as [Hb|Hb], (decide ("mature" ∈ v)) as [Hm|Hm].
  - rewrite !bool_decide_eq_true_2 by done. simpl. tauto.
  - rewrite bool_decide_eq_false_2 with (P := "mature" ∈ v) by done.
    rewrite andb_false_r. split; [done|tauto].
  - rewrite bool_decide_eq_false_2 with (P := "beta" ∈ v) by done.
    simpl. split; [done|tauto].
  - rewrite bool_decide_eq_false_2 with (P := "beta" ∈ v) by done.
    simpl. split; [done|tauto].
Qed.

Lemma check_state_neither v :
  recognized v → "beta" ∉ v → Osg.check_state v = None.
Proof.
  intros H Hb. unfold Osg.check_state, Osg.beta_mature_test, Py.mem.
  rewrite find_unknown_none by done.
  by rewrite bool_decide_eq_false_2 with (P := "beta" ∈ v).
Qed.

(** C1, at the state [inactive since 2019]: the list holds neither [beta]
    nor [mature], the state check of both parsers lets it pass, and
    [Osg.parse_entry] returns the entry, with its year of inactivity. The
    four examples of the specification come out as it says. *)
Theorem state_without_beta_or_mature_accepted :
  Osg.check_state ["inactive since 2019"] = None
  ∧ Maintenance.check_state ["inactive since 2019"] = None
  ∧ (∃ i, Osg.parse_entry
            (entry_with "inactive since 2019" "https://example.org/code.git")
          = Osg.Ok i
          ∧ Osg.values i !! "state" = Some ["inactive since 2019"]
          ∧ Osg.inactive i = Some "2019")
  ∧ Osg.check_state (Osg.decode ", " "beta") = None
  ∧ Osg.check_state (Osg.decode ", " "mature") = None
  ∧ Osg.check_state (Osg.decode ", " "mature, inactive since 2019") = None
  ∧ Osg.check_state (Osg.decode ", " "beta, mature") = Some Osg.StateBetaMature.
Proof.
  split_and!; try (by vm_compute).
  eexists. split_and!; by vm_compute.
Qed.

(** * The essential fields after decoding *)

(** C2, at an entry whose code repository is a remark in parentheses: the
    field is among the fields of the text, its value decodes to nothing and
    is not stored, and [Osg.parse_entry] returns the entry. *)
Theorem empty_code_repository_accepted :
  "Code repository" ∈ Osg.find_fields (entry_with "mature" "(see download)")
  ∧ Osg.decode ", " "(see download)" = []
  ∧ ∃ i, Osg.parse_entry (entry_with "mature" "(see download)") = Osg.Ok i
         ∧ Osg.raw i !! "code repository" = Some "(see download)"
         ∧ Osg.values i !! "code repository" = None.
Proof.
  split_and!; [compute_done|by vm_compute|].
  eexists. split_and!; by vm_compute.
Qed.

(** The same remark in one of the five fields that the loop at line 149
    names is an error. *)
Lemma empty_code_license_rejected :
  Osg.parse_entry
    (entry ["- Home: https://example.org"; "- State: mature";
            "- Keywords: action";
            "- Code repository: https://example.org/code.git";
            "- Code language: C++"; "- Code license: (unknown)"])
  = Osg.Raise (Osg.EssentialFieldEmpty "code license").
Proof. by vm_compute. Qed.

(** * The repository lists *)

Section RepositoryFacts.
Variable shared : bool.

Lemma file_under_unconsumed tests repo st :
  Maintenance.unconsumed_entries (Maintenance.file_under tests repo st)
  = Maintenance.unconsumed_entries st.
Proof.
  induction tests as [|[system test] tests IH]; simpl; [done|].
  destruct (test repo) as [url|]; [|done]. by destruct (Osg.nonempty url).
Qed.

Lemma file_repo_consumed st repo :
  Maintenance.consumed (Maintenance.file_repo shared st repo)
  = Maintenance.consumed st || classified shared repo.
Proof.
  unfold Maintenance.file_repo, classified, matches, takes.
  induction (Maintenance.systems shared) as [|[system test] tests IH]; simpl.
  - by rewrite orb_false_r.
  - destruct (test (Maintenance.clean repo)) as [url|]; [|done].
    destruct (Osg.nonempty url); simpl; [by rewrite orb_true_r|done].
Qed.

Lemma file_repos_unconsumed urls st :
  Maintenance.unconsumed_entries (fold_left (Maintenance.file_repo shared) urls st)
  = Maintenance.unconsumed_entries st.
Proof.
  revert st. induction urls as [|url urls IH]; intros st; simpl; [done|].
  rewrite IH. apply file_under_unconsumed.
Qed.

Lemma file_repos_consumed urls st :
  Maintenance.consumed (fold_left (Maintenance.file_repo shared) urls st)
  = Maintenance.consumed st || existsb (classified shared) urls.
Proof.
  revert st. induction urls as [|url urls IH]; intros st; simpl.
  - by rewrite orb_false_r.
  - by rewrite IH, file_repo_consumed, orb_assoc.
Qed.

Lemma file_entry_unconsumed st i :
  Maintenance.unconsumed_entries (Maintenance.file_entry shared st i)
  = Maintenance.unconsumed_entries st ++ unconsumed_of shared i.
Proof.
  unfold Maintenance.file_entry, unconsumed_of, files_some.
  destruct (Maintenance.raw i !! "code repository") as [repos|];
    [|by rewrite app_nil_r].
  destruct (Osg.nonempty repos); simpl.
  - destruct (Maintenance.consumed (fold_left _ _ _)) eqn:E;
      rewrite file_repos_consumed in E; simpl in E; rewrite E; simpl;
      rewrite file_repos_unconsumed; simpl; [by rewrite app_nil_r|done].
  - done.
Qed.

Lemma file_entries_unconsumed infois st :
  Maintenance.unconsumed_entries (fold_left (Maintenance.file_entry shared) infois st)
  = Maintenance.unconsumed_entries st ++ flat_map (unconsumed_of shared) infois.
Proof.
  revert st. induction infois as [|i infois IH]; intros st; simpl.
  - by rewrite app_nil_r.
  - by rewrite IH, file_entry_unconsumed, app_assoc.
Qed.

(** The list of the unconsumed entries: the entries, in their order, whose
    raw field files no repository. *)
Lemma unconsumed_entries_flat_map infois :
  snd (Maintenance.update_primary_code_repositories shared infois)
  = flat_map (unconsumed_of shared) infois.
Proof.
  unfold Maintenance.update_primary_code_repositories. simpl.
  by rewrite file_entries_unconsumed.
Qed.
End RepositoryFacts.

(** C3, in the form that holds of the code: an entry with a raw repository
    field is put on the list of the unconsumed entries, with its title and
    the raw field, exactly when
    the field files no repository: it is empty, or no test takes any of the
    repositories that are kept of it. *)
Theorem unconsumed_when_nothing_filed shared infois (i : Maintenance.info) repos :
  i ∈ infois →
  Maintenance.raw i !! "code repository" = Some repos →
  (Maintenance.title i, repos)
  ∈ snd (Maintenance.update_primary_code_repositories shared infois)
  ↔ repos = EmptyString
    ∨ ∀ url, url ∈ Maintenance.retained repos → classified shared url = false.
Proof.
  intros Hin Hraw. rewrite unconsumed_entries_flat_map.
  assert (Hsome : files_some shared repos = false
                  ↔ repos = EmptyString
                    ∨ ∀ url, url ∈ Maintenance.retained repos
                             → classified shared url = false).
  { unfold files_some, Osg.nonempty.
    rewrite andb_false_iff, negb_false_iff, String.eqb_eq.
    apply or_iff_compat_l. split.
    - intros H url Hurl%list_elem_of_In.
      destruct (classified shared url) eqn:E; [|done].
      assert (existsb (classified shared) (Maintenance.retained repos) = true)
        by (apply existsb_exists; eauto). congruence.
    - intros H. destruct (existsb _ _) eqn:E; [|done].
      apply existsb_exists in E as (url & Hurl%list_elem_of_In & Hc).
      by rewrite H in Hc. }
  rewrite <- Hsome. split.
  - intros (j & Hj & Hel)%list_elem_of_In%in_flat_map.
    apply list_elem_of_In in Hel. unfold unconsumed_of in Hel.
    destruct (Maintenance.raw j !! "code repository") as [r|];
      [|by apply elem_of_nil in Hel].
    destruct (files_some shared r) eqn:E; [by apply elem_of_nil in Hel|].
    apply list_elem_of_singleton in Hel. by injection Hel as _ ->.
  - intros Hf. apply list_elem_of_In, in_flat_map. exists i.
    split; [by apply list_elem_of_In|].
    unfold unconsumed_of. rewrite Hraw, Hf. by left.
Qed.

Lemma unconsumed_when_nothing_filed_witness :
  (Maintenance.title (game "D" "mature" "https://example.com/x"),
   "https://example.com/x")
  ∈ snd (Maintenance.update_primary_code_repositories false
           [game "A" "mature" "https://github.com/x/y.git";
            game "D" "mature" "https://example.com/x"])
  ↔ "https://example.com/x" = EmptyString
    ∨ ∀ url, url ∈ Maintenance.retained "https://example.com/x"
             → classified false url = false.
Proof.
  apply (unconsumed_when_nothing_filed false
           [game "A" "mature" "https://github.com/x/y.git";
            game "D" "mature" "https://example.com/x"]
           (game "D" "mature" "https://example.com/x")).
  - right. left.
  - vm_compute. reflexivity.
Defined.

(** C3 fails as it is stated: the second repository of the entry is kept
    and no test takes it, the first one is filed under git, and the entry is
    not on the list of the unconsumed entries. *)
Lemma unmatched_repository_dropped :
  let repos := "https://github.com/x/y.git, https://example.com/z (+)" in
  let i := game "A" "mature" repos in
  let run := Maintenance.update_primary_code_repositories false [i] in
  (Maintenance.raw i !! "code repository" = Some repos
   ∧ " https://example.com/z (+)" ∈ Maintenance.retained repos
   ∧ classified false " https://example.com/z (+)" = false
   ∧ fst run !! "git" = Some ["https://github.com/x/y.git"]
   ∧ snd run = [])
  ∧ ¬ every_unmatched_repository_recorded.
Proof.
  intros repos i run.
  assert (Hraw : Maintenance.raw i !! "code repository" = Some repos)
    by (by vm_compute).
  assert (Hkept : " https://example.com/z (+)" ∈ Maintenance.retained repos)
    by compute_done.
  assert (Hcl : classified false " https://example.com/z (+)" = false)
    by (by vm_compute).
  assert (Hnil : snd run = []) by (by vm_compute).
  split; [split_and!; try done; by vm_compute|].
  intros H.
  specialize (H false [i] i repos " https://example.com/z (+)").
  fold run in H. rewrite Hnil in H. eapply elem_of_nil, H; [by left|done..].
Qed.

(** The tests are tried in their order, and the first that takes the
    repository files it. *)
Lemma file_under_first before system test after repo st url :
  (∀ t, t ∈ before → takes (snd t) repo = false) →
  test repo = Some url → url ≠ EmptyString →
  Maintenance.file_under (before ++ (system, test) :: after) repo st
  = Maintenance.consume system url st.
Proof.
  intros Hb Ht Hu. induction before as [|[s0 t0] before IH]; simpl.
  - by rewrite Ht, nonempty_true.
  - assert (H0 : takes t0 repo = false) by (apply (Hb (s0, t0)); by left).
    unfold takes in H0. rewrite IH by (intros t ?; apply Hb; by right).
    destruct (t0 repo) as [u|]; [|done]. by rewrite H0.
Qed.

(** C5: the four repositories of the specification. The first goes to git,
    the second to hg, the third to bzr, and the entry of the fourth, which no
    test takes, is on the list of the unconsumed entries. The tests are tried
    in the order git, svn, hg, bzr and the first that takes the repository
    files it: a repository at Launchpad that ends like a git repository goes
    to git and not to bzr. *)
Theorem repositories_classified shared :
  let run :=
    Maintenance.update_primary_code_repositories shared
      [game "A" "mature" "https://github.com/x/y.git";
       game "B" "mature" "https://bitbucket.org/x/y";
       game "C" "mature" "https://code.launchpad.net/x";
       game "D" "mature" "https://example.com/x"] in
  let both :=
    Maintenance.update_primary_code_repositories shared
      [game "E" "mature" "https://code.launchpad.net/x.git"] in
  fst run !! "git" = Some ["https://github.com/x/y.git"]
  ∧ fst run !! "svn" = Some []
  ∧ fst run !! "hg" = Some ["https://bitbucket.org/x/y"]
  ∧ fst run !! "bzr" = Some ["https://code.launchpad.net/x"]
  ∧ snd run = [("D", "https://example.com/x")]
  ∧ map fst (Maintenance.systems shared) = ["git"; "svn"; "hg"; "bzr"]
  ∧ (∀ before system test after repo st url,
       Maintenance.systems shared = before ++ (system, test) :: after →
       (∀ t, t ∈ before → takes (snd t) repo = false) →
       test repo = Some url → url ≠ EmptyString →
       Maintenance.file_under (Maintenance.systems shared) repo st
       = Maintenance.consume system url st)
  ∧ fst both !! "git" = Some ["https://code.launchpad.net/x.git"]
  ∧ fst both !! "bzr" = Some [].
Proof.
  split_and!; try (destruct shared; by vm_compute).
  intros before system test after repo st url ->. apply file_under_first.
Qed.

(** * Sorting *)

Section SortFacts.
Context {A : Type} (le : A → A → bool).

Lemma insert_sorted_perm x l : Py.insert_sorted le x l ≡ₚ x :: l.
Proof.
  induction l as [|y l IH]; simpl; [done|].
  destruct (le x y); [done|]. rewrite IH. apply Permutation_swap.
Qed.

Lemma sort_perm l : Py.sort le l ≡ₚ l.
Proof.
  induction l as [|x l IH]; simpl; [done|].
  by rewrite insert_sorted_perm, IH.
Qed.

Hypothesis le_total : ∀ x y, le x y = true ∨ le y x = true.
Hypothesis le_trans : ∀ x y z, le x y = true → le y z = true → le x z = true.

Variable R : A → A → Prop.

(** The sort is stable: what comes into a sorted list from before it stays
    before the elements of its key. *)
Lemma insert_sorted_stable x l :
  StronglySorted (by_key_then le R) l → Forall (R x) l →
  StronglySorted (by_key_then le R) (Py.insert_sorted le x l).
Proof using le_total le_trans.
  induction l as [|y l IH]; intros Hs Hx; simpl.
  - constructor; [constructor|done].
  - apply StronglySorted_inv in Hs as [Hs Hy].
    apply Forall_cons in Hx as [Hxy Hx].
    destruct (le x y) eqn:E.
    + constructor; [by constructor|].
      constructor; [by split|].
      rewrite Forall_forall in Hy, Hx. apply Forall_forall. intros z Hz.
      split; [|intros _; by apply Hx].
      apply (le_trans _ y); [done|]. by apply Hy.
    + constructor; [by apply IH|].
      rewrite insert_sorted_perm. constructor; [|done].
      split; [|congruence]. destruct (le_total x y); congruence.
Qed.

(** A stable sort of a list that is in the order [R] gives a list in the
    order of the key, and in the order [R] among equal keys. *)
Lemma sort_stable l :
  StronglySorted R l → StronglySorted (by_key_then le R) (Py.sort le l).
Proof using le_total le_trans.
  induction l as [|x l IH]; intros Hs; simpl; [constructor|].
  apply StronglySorted_inv in Hs as [Hs Hx].
  apply insert_sorted_stable; [by apply IH|]. by rewrite sort_perm.
Qed.
End SortFacts.

Lemma strongly_sorted_impl {A} (R S : A → A → Prop) l :
  (∀ x y, R x y → S x y) → StronglySorted R l → StronglySorted S l.
Proof.
  intros H. induction 1 as [|x l Hl IH Hx]; constructor; [done|].
  eapply Forall_impl; [done|]. auto.
Qed.

Lemma strongly_sorted_any {A} (l : list A) : StronglySorted (fun _ _ => True) l.
Proof.
  induction l; constructor; [done|]. by apply Forall_forall.
Qed.

Lemma leb_trans_string x y z :
  String.leb x y = true → String.leb y z = true → String.leb x z = true.
Proof.
  intros H1%Is_true_true H2%Is_true_true. apply Is_true_true.
  exact (transitivity (R := String.le) H1 H2).
Qed.

Lemma leb_false_ltb x y : String.leb x y = false → String.ltb y x = true.
Proof.
  unfold String.leb, String.ltb. rewrite (String.compare_antisym y x).
  by destruct (String.compare x y).
Qed.

(** * The inactive listing *)

Lemma digit_compare c c' d d' :
  Ascii.is_nat c = Some d → Ascii.is_nat c' = Some d' →
  d < 10 ∧ d' < 10 ∧ Ascii.compare c c' = Nat.compare d d'.
Proof.
  destruct c as [[] [] [] [] [] [] [] []]; try discriminate;
    intros [= <-];
    destruct c' as [[] [] [] [] [] [] [] []]; try discriminate;
    intros [= <-]; split_and!; try lia; reflexivity.
Qed.

Lemma year_number_bound s n :
  year_number s = Some n → n < 10 ^ String.length s.
Proof.
  revert n. induction s as [|c r IH]; intros n; cbn [year_number String.length].
  - intros [= <-]. simpl. lia.
  - destruct (Ascii.is_nat c) as [d|] eqn:Hd; [|done].
    destruct (year_number r) as [m|]; [|done]. intros [= <-].
    destruct (digit_compare c c d d Hd Hd) as (Hlt & _).
    specialize (IH m eq_refl). rewrite Nat.pow_succ_r'. nia.
Qed.

Lemma year_compare s t n m :
  String.length s = String.length t →
  year_number s = Some n → year_number t = Some m →
  String.compare s t = Nat.compare n m.
Proof.
  revert t n m. induction s as [|c r IH]; intros [|c' r'] n m; try done.
  - by intros _ [= <-] [= <-].
  - cbn [year_number String.length String.compare]. intros [= Hlen].
    destruct (Ascii.is_nat c) as [d|] eqn:Hd; [|done].
    destruct (year_number r) as [n'|] eqn:Hn; [|done]. intros [= <-].
    destruct (Ascii.is_nat c') as [d'|] eqn:Hd'; [|done].
    destruct (year_number r') as [m'|] eqn:Hm; [|done]. intros [= <-].
    destruct (digit_compare c c' d d' Hd Hd') as (_ & _ & ->).
    pose proof (year_number_bound _ _ Hn) as Bn.
    pose proof (year_number_bound _ _ Hm) as Bm.
    rewrite <- Hlen in *. rewrite (IH r' n' m' Hlen eq_refl Hm).
    destruct (Nat.compare_spec d d') as [->|Hlt|Hgt].
    + destruct (Nat.compare_spec n' m') as [->|?|?]; symmetry.
      * apply Nat.compare_eq_iff. done.
      * apply Nat.compare_lt_iff. lia.
      * apply Nat.compare_gt_iff. lia.
    + symmetry. apply Nat.compare_lt_iff. nia.
    + symmetry. apply Nat.compare_gt_iff. nia.
Qed.

(** Between years of as many digits the order of the listing is the order
    of the numbers: the later year first, the titles in their order where
    the years are the same. *)
Lemma inactive_before_numbers x y n m :
  String.length (snd x) = String.length (snd y) →
  year_number (snd x) = Some n → year_number (snd y) = Some m →
  inactive_before x y ↔ m < n ∨ (n = m ∧ String.leb (fst x) (fst y) = true).
Proof.
  intros Hlen Hn Hm. unfold inactive_before, String.ltb.
  rewrite (year_compare (snd y) (snd x) m n) by done.
  assert (Heq : snd x = snd y ↔ n = m).
  { split; [intros E; rewrite E in Hn; congruence|].
    intros ->. apply String.compare_eq_iff.
    rewrite (year_compare _ _ m m) by done. apply Nat.compare_refl. }
  rewrite Heq.
  destruct (Nat.compare_spec m n) as [->|?|?]; split; intros [?|?]; auto; lia.
Qed.

(** The listing holds the inactive entries, each once, in the order of the
    years as texts: two stable sorts, by title and then by year in
    reverse. *)
Lemma inactive_listing_text_order infois :
  StronglySorted inactive_before (Maintenance.entries_inactive infois)
  ∧ Maintenance.entries_inactive infois ≡ₚ omap inactive_pair infois.
Proof.
  split.
  - unfold Maintenance.entries_inactive.
    set (by_title := fun x y : string * string => String.leb (fst x) (fst y)).
    set (by_year := fun x y : string * string => String.leb (snd y) (snd x)).
    apply (strongly_sorted_impl
             (by_key_then by_year (by_key_then by_title (fun _ _ => True)))).
    + intros x y [H1 H2]. unfold inactive_before.
      destruct (String.leb (snd x) (snd y)) eqn:E.
      * right. split; [by apply String.leb_antisym|].
        by destruct (H2 E).
      * left. by apply leb_false_ltb.
    + apply sort_stable.
      * intros x y. apply String.leb_total.
      * intros x y z ??. by apply (leb_trans_string _ (snd y)).
      * apply sort_stable.
        -- intros x y. apply String.leb_total.
        -- intros x y z. apply leb_trans_string.
        -- apply strongly_sorted_any.
  - unfold Maintenance.entries_inactive. by rewrite !sort_perm.
Qed.

Lemma strongly_sorted_impl_in {A} (R S : A → A → Prop) l :
  (∀ x y, x ∈ l → y ∈ l → R x y → S x y) →
  StronglySorted R l → StronglySorted S l.
Proof.
  intros H Hs. induction Hs as [|x l Hl IH Hx]; constructor.
  - apply IH. intros y z Hy Hz. apply H; by right.
  - rewrite Forall_forall in Hx. apply Forall_forall. intros y Hy.
    apply H; [by left|by right|by apply Hx].
Qed.

(** The year of a pair of the listing is a year of an inactive entry. *)
Lemma listed_year infois x :
  x ∈ Maintenance.entries_inactive infois → snd x ∈ inactive_years infois.
Proof.
  destruct (inactive_listing_text_order infois) as [_ Hp].
  rewrite Hp. unfold inactive_years.
  intros (i & Hi & Hx)%list_elem_of_omap. apply list_elem_of_omap.
  exists i. split; [done|]. unfold inactive_pair in Hx.
  destruct (Maintenance.inactive i); [|done]. by injection Hx as <-.
Qed.

Lemma years_alike_inv infois y :
  years_alike infois = true → y ∈ inactive_years infois →
  is_Some (year_number y)
  ∧ String.length y
    = String.length (hd EmptyString (inactive_years infois)).
Proof.
  unfold years_alike, years_numerals.
  intros [Hn Hl]%andb_true_iff Hy%list_elem_of_In.
  rewrite forallb_forall in Hn, Hl. specialize (Hn y Hy). specialize (Hl y Hy).
  split; [|by apply Nat.eqb_eq].
  by destruct (year_number y).
Qed.

(** C7: when the years of the inactive entries are written in as many
    decimal digits, as the years of four digits are, the inactive listing
    holds the inactive entries, each once, with the later year before the
    earlier one and, among the entries of one year, the titles in ascending
    order. The three entries of the specification come out in its order. *)
Theorem inactive_listing_order infois :
  years_alike infois = true →
  StronglySorted year_before (Maintenance.entries_inactive infois)
  ∧ Maintenance.entries_inactive infois ≡ₚ omap inactive_pair infois
  ∧ Maintenance.entries_inactive inactive_sample
    = [("A", "2020"); ("C", "2020"); ("B", "2018")].
Proof.
  intros Halike.
  destruct (inactive_listing_text_order infois) as [Hs Hp].
  split_and!; [|done|by vm_compute].
  apply (strongly_sorted_impl_in inactive_before); [|done].
  intros x y Hx%listed_year Hy%listed_year Hxy.
  destruct (years_alike_inv _ _ Halike Hx) as [[n Hn] Hlx].
  destruct (years_alike_inv _ _ Halike Hy) as [[m Hm] Hly].
  exists n, m. split_and!; [done..|].
  apply (inactive_before_numbers x y n m); [congruence|done..].
Qed.

Lemma inactive_listing_order_witness :
  StronglySorted year_before (Maintenance.entries_inactive inactive_sample)
  ∧ Maintenance.entries_inactive inactive_sample
    ≡ₚ omap inactive_pair inactive_sample
  ∧ Maintenance.entries_inactive inactive_sample
    = [("A", "2020"); ("C", "2020"); ("B", "2018")].
Proof.
  apply (inactive_listing_order inactive_sample).
  vm_compute. reflexivity.
Defined.

(** C7 fails as it is stated: the years are compared as texts, and between
    years of three, four and five digits, all of which the parser takes,
    the order of the texts is not the order of the numbers. The year 999
    comes first and the year 10000 last. *)
Lemma inactive_listing_not_by_year :
  (years_numerals inactive_mixed = true
   ∧ Maintenance.entries_inactive inactive_mixed
     = [("Z", "999"); ("B", "2018"); ("A", "10000")]
   ∧ ¬ year_before ("Z", "999") ("B", "2018"))
  ∧ ¬ inactive_listing_by_year.
Proof.
  assert (Hno : ¬ year_before ("Z", "999") ("B", "2018")).
  { intros (n & m & Hn & Hm & H). cbn [fst snd] in Hn, Hm, H.
    assert (En : year_number "999" = Some 999) by (by vm_compute).
    assert (Em : year_number "2018" = Some 2018) by (by vm_compute).
    rewrite En in Hn. rewrite Em in Hm.
    injection Hn as <-. injection Hm as <-.
    destruct H as [H|[H _]]; lia. }
  assert (Hl : Maintenance.entries_inactive inactive_mixed
               = [("Z", "999"); ("B", "2018"); ("A", "10000")])
    by (by vm_compute).
  split; [split_and!; [by vm_compute|done|done]|].
  intros H. specialize (H inactive_mixed). rewrite Hl in H.
  assert (Hs : StronglySorted year_before
                 [("Z", "999"); ("B", "2018"); ("A", "10000")])
    by (apply H; by vm_compute).
  apply StronglySorted_inv in Hs as [_ Hf].
  apply Forall_cons in Hf as [Hzb _]. by apply Hno.
Qed.

(** * The exported rows *)

Section ExportFacts.
Variable shorten : string → string.

Lemma export_entry_row i :
  exportable i → ∃ row, row_of shorten i row.
Proof.
  intros ((h & hs & Hh) & (s & ss & Hs)).
  unfold row_of, Maintenance.export_entry, Maintenance.state_column,
    Maintenance.first_value.
  rewrite Hh, Hs. eexists _, s, ss. split_and!; [done..|].
  reflexivity.
Qed.

Lemma export_entries_rows infois :
  (∀ i, i ∈ infois → exportable i) →
  ∃ rows, Maintenance.export_entries shorten infois = inr rows
          ∧ Forall2 (row_of shorten) infois rows.
Proof.
  induction infois as [|i infois IH]; intros H; simpl.
  - by exists [].
  - destruct (export_entry_row i) as (row & Hrow); [apply H; by left|].
    destruct IH as (rows & -> & Hrows); [intros j ?; apply H; by right|].
    destruct Hrow as (s & ss & Hs & He & H4). rewrite He.
    exists (row :: rows). split; [done|]. constructor; [|done].
    by exists s, ss.
Qed.
End ExportFacts.

(** C9: when every entry has a home and a state, [export_json] gives one
    row for each entry, and the state column of each row is the first token
    of its entry's state list, a slash, and the inactivity with its year when
    the entry has one and the word active when it has none. *)
Theorem export_state_column shorten infois :
  (∀ i, i ∈ infois → exportable i) →
  ∃ rows, Maintenance.export_json shorten infois = inr rows
          ∧ length rows = length infois
          ∧ (∀ row, row ∈ rows → ∃ i, i ∈ infois ∧ row_of shorten i row)
          ∧ (∀ i, i ∈ infois → ∃ row, row ∈ rows ∧ row_of shorten i row).
Proof.
  intros H. destruct (export_entries_rows shorten infois H) as (rows & He & Hrows).
  unfold Maintenance.export_json. rewrite He. eexists. split; [done|].
  set (sorted := Py.sort _ rows).
  assert (Hp : sorted ≡ₚ rows) by apply sort_perm.
  split_and!.
  - rewrite Hp. symmetry. by eapply Forall2_length.
  - intros row Hrow. rewrite Hp in Hrow.
    apply list_elem_of_lookup in Hrow as [k Hk].
    destruct (Forall2_lookup_r _ _ _ _ _ Hrows Hk) as (i & Hi & Hr).
    exists i. split; [|done]. apply list_elem_of_lookup. by exists k.
  - intros i Hi. apply list_elem_of_lookup in Hi as [k Hk].
    destruct (Forall2_lookup_l _ _ _ _ _ Hrows Hk) as (row & Hrow & Hr).
    exists row. split; [|done]. rewrite Hp. apply list_elem_of_lookup.
    by exists k.
Qed.

Lemma export_state_column_witness :
  ∃ rows,
    Maintenance.export_json id
      [game "B" "mature, inactive since 2019" "https://example.org/b.git";
       game "A" "beta" "https://example.org/a.git"] = inr rows
    ∧ length rows = 2
    ∧ (∀ row, row ∈ rows →
       ∃ i, i ∈ [game "B" "mature, inactive since 2019" "https://example.org/b.git";
                 game "A" "beta" "https://example.org/a.git"]
            ∧ row_of id i row)
    ∧ (∀ i, i ∈ [game "B" "mature, inactive since 2019" "https://example.org/b.git";
                 game "A" "beta" "https://example.org/a.git"] →
       ∃ row, row ∈ rows ∧ row_of id i row).
Proof.
  apply (export_state_column id
           [game "B" "mature, inactive since 2019" "https://example.org/b.git";
            game "A" "beta" "https://example.org/a.git"]).
  intros i Hi. apply list_elem_of_In in Hi.
  destruct Hi as [<-|[<-|[]]]; split; eexists _, _; vm_compute; reflexivity.
Defined.

(** The state columns of the two rows, as [export_json] orders them. *)
Lemma export_state_column_example :
  match Maintenance.export_json id
          [game "B" "mature, inactive since 2019" "https://example.org/b.git";
           game "A" "beta" "https://example.org/a.git"] with
  | inr rows => map (fun row => row !! 4) rows
  | inl _ => []
  end = [Some "beta / active"; Some "mature / inactive since 2019"].
Proof. by vm_compute. Qed.

(** * The frequency tables *)

Lemma Qsum_perm l l' : l ≡ₚ l' → (Qsum l == Qsum l')%Q.
Proof.
  induction 1 as [|x l l' _ IH|x y l|l l' l'' _ IH1 _ IH2]; simpl.
  - reflexivity.
  - by rewrite IH.
  - ring.
  - by rewrite IH1.
Qed.

Lemma Qsum_same_denominator (p : positive) (counts : list nat) :
  (Qsum (map (fun n => Z.of_nat n # p) counts)
   == Z.of_nat (list_sum counts) # p)%Q.
Proof.
  induction counts as [|n counts IH]; simpl.
  - reflexivity.
  - rewrite IH. unfold Qeq, Qplus. simpl. rewrite Nat2Z.inj_add. nia.
Qed.

Lemma Q_whole (n : nat) : n ≠ 0 → (Z.of_nat n # Pos.of_nat n == 1)%Q.
Proof.
  intros Hn. unfold Qeq. simpl. lia.
Qed.

Lemma indicator_sum_absent (a : string) (values : list string) :
  a ∉ values →
  list_sum (map (fun l => if String.string_dec a l then 1 else 0) values) = 0.
Proof.
  induction values as [|x values IH]; intros Hn; simpl; [done|].
  apply not_elem_of_cons in Hn as [Hne Hn].
  destruct (String.string_dec a x); [done|]. by rewrite IH.
Qed.

(** Counting one value over a list of distinct values finds it once if it
    is there. *)
Lemma indicator_sum (a : string) (values : list string) :
  NoDup values → a ∈ values →
  list_sum (map (fun l => if String.string_dec a l then 1 else 0) values) = 1.
Proof.
  induction 1 as [|x values Hx Hnd IH]; intros Hin; simpl.
  - by apply elem_of_nil in Hin.
  - destruct (String.string_dec a x) as [->|Hne].
    + by rewrite indicator_sum_absent.
    + apply elem_of_cons in Hin as [?|Hin]; [done|]. by apply IH.
Qed.

Lemma count_split a (all values : list string) :
  list_sum (map (fun l => count_occ String.string_dec (a :: all) l) values)
  = list_sum (map (fun l => if String.string_dec a l then 1 else 0) values)
    + list_sum (map (fun l => count_occ String.string_dec all l) values).
Proof.
  induction values as [|l values IH]; [done|].
  rewrite !map_cons.
  change (list_sum (?x :: ?r)) with (x + list_sum r).
  rewrite IH. cbn [count_occ].
  destruct (String.string_dec a l); lia.
Qed.

(** The counts of the distinct values of a list add up to its length. *)
Lemma count_sum (all values : list string) :
  NoDup values → (∀ x, x ∈ all → x ∈ values) →
  list_sum (map (fun l => Maintenance.count l all) values) = length all.
Proof.
  intros Hnd. unfold Maintenance.count.
  induction all as [|a all IH]; intros Hin.
  - simpl. clear. by induction values.
  - cbn [length].
    rewrite count_split, IH by (intros x ?; apply Hin; by right).
    rewrite indicator_sum; [done..|]. apply Hin. by left.
Qed.

(** The table of a list of values: before it is sorted, the distinct values
    with their frequencies. *)
Lemma frequencies_perm all :
  Maintenance.frequencies all
  ≡ₚ map (fun l => (l, Maintenance.frequency l all)) (remove_dups all).
Proof. unfold Maintenance.frequencies. by rewrite !sort_perm. Qed.

(** C6, in the form that holds of the code: for every set of entries and
    every facet that occurs in it at least once, the table holds every
    distinct value of the facet once, the frequency of a value is the number of its occurrences over the
    number of all occurrences of the facet in all entries, and the
    frequencies add up to one. The quotients are exact: the rounding of the
    floats and of the printed percentages is not modelled. *)
Theorem frequencies_sum_to_one infois field :
  Maintenance.facet field infois ≠ [] →
  let all := Maintenance.facet field infois in
  let table := Maintenance.frequencies all in
  map fst table ≡ₚ remove_dups all
  ∧ NoDup (map fst table)
  ∧ (∀ l f, (l, f) ∈ table →
       f = (Z.of_nat (count_occ String.string_dec all l)
            # Pos.of_nat (length all))%Q)
  ∧ (Qsum (map snd table) == 1)%Q.
Proof.
  intros Hne all table.
  assert (Hp : table ≡ₚ map (fun l => (l, Maintenance.frequency l all))
                          (remove_dups all)) by apply frequencies_perm.
  assert (Hfst : map fst table ≡ₚ remove_dups all).
  { rewrite Hp, map_map. simpl. by rewrite map_id. }
  split_and!.
  - done.
  - rewrite Hfst. apply NoDup_remove_dups.
  - intros l f Hin. rewrite Hp in Hin.
    apply list_elem_of_In, in_map_iff in Hin as (l' & [= <- <-] & _). done.
  - rewrite (Qsum_perm _ _ (Permutation_map snd Hp)), map_map. simpl.
    unfold Maintenance.frequency.
    rewrite <- (map_map (fun l => Maintenance.count l all)
                        (fun n => Z.of_nat n # Pos.of_nat (length all))).
    rewrite Qsum_same_denominator, count_sum.
    + apply Q_whole. intros H. apply Hne. by apply nil_length_inv.
    + apply NoDup_remove_dups.
    + intros x. by rewrite elem_of_remove_dups.
Qed.

Lemma frequencies_sum_to_one_witness :
  let all :=
    Maintenance.facet "keywords"
      [game "A" "mature" "https://example.org/a.git";
       game "B" "beta" "https://example.org/b.git"] in
  let table := Maintenance.frequencies all in
  map fst table ≡ₚ remove_dups all
  ∧ NoDup (map fst table)
  ∧ (∀ l f, (l, f) ∈ table →
       f = (Z.of_nat (count_occ String.string_dec all l)
            # Pos.of_nat (length all))%Q)
  ∧ (Qsum (map snd table) == 1)%Q.
Proof.
  apply (frequencies_sum_to_one
           [game "A" "mature" "https://example.org/a.git";
            game "B" "beta" "https://example.org/b.git"] "keywords").
  vm_compute. discriminate.
Defined.

(** Three entries with overlapping keywords: six occurrences, and the
    frequencies are the counts over six, the most frequent keyword first. *)
Lemma keyword_frequencies_example :
  Maintenance.frequencies
    (Maintenance.facet "keywords"
       [game_tagged "A" "mature" "action, puzzle" "https://example.org/a.git";
        game_tagged "B" "beta" "puzzle, strategy, action" "https://example.org/b.git";
        game_tagged "C" "beta" "puzzle" "https://example.org/c.git"])
  = [("puzzle", 3 # 6); ("action", 2 # 6); ("strategy", 1 # 6)]%Q.
Proof. by vm_compute. Qed.

(** C6 fails as it is stated: no entry of the set has a platform, the table
    of the platforms is empty and its frequencies add up to nothing. *)
Lemma frequencies_of_absent_facet :
  let infois := [game "A" "mature" "https://example.org/a.git"] in
  (infois ≠ []
   ∧ "platform" ∈ Maintenance.facets
   ∧ Maintenance.frequencies (Maintenance.facet "platform" infois) = []
   ∧ ¬ (Qsum (map snd (Maintenance.frequencies
                          (Maintenance.facet "platform" infois))) == 1)%Q)
  ∧ ¬ frequencies_always_sum_to_one.
Proof.
  intros infois.
  assert (Hsum : ¬ (Qsum (map snd (Maintenance.frequencies
                                     (Maintenance.facet "platform" infois)))
                    == 1)%Q) by (by vm_compute).
  split; [split_and!; [done|compute_done|by vm_compute|done]|].
  intros H. apply Hsum, H; [done|compute_done].
Qed.

(** * Decoding *)

Lemma infix_refl s : infix s s.
Proof. exists EmptyString, EmptyString. by rewrite app_empty_r. Qed.

Lemma infix_cons c x s : infix x s → infix x (String c s).
Proof. intros (a & b & ->). by exists (String c a), b. Qed.

Lemma infix_trans x y z : infix x y → infix y z → infix x z.
Proof.
  intros (a & b & ->) (a' & b' & ->). exists (a' +:+ a), (b +:+ b').
  by rewrite !app_assoc_string.
Qed.

Lemma infix_prefix p t : infix p (p +:+ t).
Proof. by exists EmptyString, t. Qed.

Lemma infix_suffix a x : infix x (a +:+ x).
Proof. exists a, EmptyString. by rewrite app_empty_r. Qed.

Lemma prefix_app_mono p s b :
  String.prefix p s = true → String.prefix p (s +:+ b) = true.
Proof.
  revert s. induction p as [|c p IH]; intros s; [by destruct (s +:+ b)|].
  destruct s as [|d s]; [done|]. rewrite app_cons. simpl.
  destruct (ascii_dec c d); [apply IH|done].
Qed.

Lemma has_close_app a b :
  Py.has_close (a +:+ b) = Py.has_close a || Py.has_close b.
Proof.
  induction a as [|c a IH]; [done|]. rewrite app_cons. simpl.
  by rewrite IH, orb_assoc.
Qed.

Lemma open_closed_app a b :
  open_closed (a +:+ b) = false → open_closed a = false ∧ open_closed b = false.
Proof.
  induction a as [|c a IH]; [done|]. rewrite app_cons. simpl.
  rewrite has_close_app. intros [H1 H2]%orb_false_iff.
  destruct (IH H2) as [Ha Hb]. rewrite Ha. split; [|done].
  destruct (Ascii.eqb c "("); [|done]. simpl in *.
  by apply orb_false_iff in H1 as [-> _].
Qed.

Lemma open_closed_infix x s : infix x s → open_closed s = false → open_closed x = false.
Proof.
  intros (a & b & ->) H. apply open_closed_app in H as [_ H].
  by apply open_closed_app in H as [H _].
Qed.

Section Separator.
Variable sep : string.
Hypothesis sep_nonempty : sep ≠ EmptyString.

Lemma contains_empty : Py.contains EmptyString sep = false.
Proof using sep_nonempty. by destruct sep. Qed.

Lemma contains_app a b :
  Py.contains (a +:+ b) sep = false →
  Py.contains a sep = false ∧ Py.contains b sep = false.
Proof using sep_nonempty.
  induction a as [|c a IH]; [intros H; split; [apply contains_empty|done]|].
  rewrite app_cons. cbn [Py.contains]. rewrite <- app_cons.
  destruct (String.prefix sep (String c a +:+ b)) eqn:E; [done|].
  intros H. destruct (IH H) as [Ha Hb]. split; [|done].
  destruct (String.prefix sep (String c a)) eqn:E'; [|done].
  apply (prefix_app_mono _ _ b) in E'. congruence.
Qed.

Lemma contains_infix x s :
  infix x s → Py.contains s sep = false → Py.contains x sep = false.
Proof using sep_nonempty.
  intros (a & b & ->) H. apply contains_app in H as [_ H].
  by apply contains_app in H as [H _].
Qed.

(** There is always a piece. *)
Lemma split_from_cons s skip : Py.split_from sep s skip ≠ [].
Proof.
  revert skip. induction s as [|c r IH]; intros skip; cbn [Py.split_from]; [done|].
  destruct skip; [|apply IH].
  destruct (String.prefix sep (String c r)); [done|].
  by destruct (Py.split_from sep r 0).
Qed.

(** The first piece starts the text. *)
Lemma split_first_prefix s p ps :
  Py.split_from sep s 0 = p :: ps → ∃ t, s = p +:+ t.
Proof.
  revert p ps. induction s as [|c r IH]; intros p ps; cbn [Py.split_from].
  - intros [= <- <-]. by exists EmptyString.
  - destruct (String.prefix sep (String c r)); [intros [= <- _]; by eexists|].
    destruct (Py.split_from sep r 0) as [|p' ps'] eqn:E.
    + by apply split_from_cons in E.
    + intros [= <- _]. destruct (IH _ _ eq_refl) as [t ->]. by exists t.
Qed.

(** The pieces are parts of the text, and the separator is in none. *)
Lemma split_pieces s skip q :
  q ∈ Py.split_from sep s skip → infix q s ∧ Py.contains q sep = false.
Proof using sep_nonempty.
  revert skip q. induction s as [|c r IH]; intros skip q; cbn [Py.split_from].
  - intros ->%list_elem_of_singleton. split; [apply infix_refl|apply contains_empty].
  - destruct skip as [|k].
    + destruct (String.prefix sep (String c r)) eqn:E.
      * intros [->|Hq]%elem_of_cons.
        -- split; [by exists EmptyString, (String c r)|apply contains_empty].
        -- destruct (IH _ _ Hq). split; [by apply infix_cons|done].
      * destruct (Py.split_from sep r 0) as [|p ps] eqn:Er.
        -- by apply split_from_cons in Er.
        -- destruct (split_first_prefix _ _ _ Er) as [t Ht].
           intros [->|Hq]%elem_of_cons.
           ++ split; [rewrite Ht, <- app_cons; apply infix_prefix|].
              cbn [Py.contains].
              destruct (String.prefix sep (String c p)) eqn:E'.
              ** apply (prefix_app_mono _ _ t) in E'.
                 rewrite app_cons, <- Ht in E'. congruence.
              ** apply (IH 0). rewrite Er. by left.
           ++ destruct (IH 0 q) as [Hi Hc]; [rewrite Er; by right|].
              split; [by apply infix_cons|done].
    + intros Hq. destruct (IH _ _ Hq). split; [by apply infix_cons|done].
Qed.

(** A text without the separator is its own single piece. *)
Lemma split_without_separator x :
  Py.contains x sep = false → Py.split x sep = [x].
Proof.
  unfold Py.split. induction x as [|c r IH]; [done|].
  cbn [Py.contains Py.split_from].
  destruct (String.prefix sep (String c r)); [done|].
  intros H. by rewrite IH.
Qed.
End Separator.

Lemma has_close_sub_parens inside s :
  Py.has_close s = false → Py.has_close (Py.sub_parens_from inside s) = false.
Proof.
  revert inside. induction s as [|c r IH]; intros inside; [done|].
  cbn [Py.has_close Py.sub_parens_from].
  intros [Hc Hr]%orb_false_iff. destruct inside; [by apply IH|].
  rewrite Hr, andb_false_r. cbn [Py.has_close]. by rewrite Hc, IH.
Qed.

(** After the remarks are taken out, the pattern of the remarks matches
    nowhere. *)
Lemma open_closed_sub_parens inside s :
  open_closed (Py.sub_parens_from inside s) = false.
Proof.
  revert inside. induction s as [|c r IH]; intros inside; [done|].
  cbn [Py.sub_parens_from]. destruct inside; [apply IH|].
  destruct (Ascii.eqb c "(" && Py.has_close r) eqn:E; [apply IH|].
  cbn [open_closed]. rewrite IH, orb_false_r.
  apply andb_false_iff in E as [->|E]; [done|].
  by rewrite has_close_sub_parens, andb_false_r.
Qed.

Lemma sub_parens_fixed s : open_closed s = false → Py.sub_parens s = s.
Proof.
  unfold Py.sub_parens. induction s as [|c r IH]; [done|].
  cbn [open_closed Py.sub_parens_from]. intros [-> Hr]%orb_false_iff.
  by rewrite IH.
Qed.

Lemma lstrip_suffix s : ∃ a, s = a +:+ Py.lstrip s.
Proof.
  induction s as [|c r [a IH]]; [by exists EmptyString|].
  cbn [Py.lstrip]. destruct (Py.isspace c); [|by exists EmptyString].
  exists (String c a). by rewrite app_cons, <- IH.
Qed.

Lemma rstrip_prefix s : ∃ b, s = Py.rstrip s +:+ b.
Proof.
  induction s as [|c r [b IH]]; [by exists EmptyString|].
  cbn [Py.rstrip]. destruct (Py.rstrip r) as [|d r'].
  - destruct (Py.isspace c); [by eexists|]. exists r. by rewrite app_cons.
  - exists b. by rewrite app_cons, <- IH.
Qed.

Lemma strip_infix s : infix (Py.strip s) s.
Proof.
  unfold Py.strip. destruct (lstrip_suffix s) as [a Ha].
  destruct (rstrip_prefix (Py.lstrip s)) as [b Hb].
  exists a, b. by rewrite <- Hb.
Qed.

Lemma drop_last_prefix s : ∃ b, s = Py.drop_last s +:+ b.
Proof.
  induction s as [|c r [b IH]]; [by exists EmptyString|].
  cbn [Py.drop_last]. destruct r as [|d r]; [by eexists|].
  exists b. by rewrite app_cons, <- IH.
Qed.

Lemma unwrap_infix x : infix (Osg.unwrap x) x.
Proof.
  destruct x as [|c r]; [apply infix_refl|]. unfold Osg.unwrap.
  destruct (_ && _); [|apply infix_refl].
  apply infix_cons. destruct (drop_last_prefix r) as [b Hb].
  rewrite Hb at 2. apply infix_prefix.
Qed.

Lemma unwrap_fixed x : bracketed x = false → Osg.unwrap x = x.
Proof. destruct x as [|c r]; [done|]. unfold Osg.unwrap, bracketed. by intros ->. Qed.

(** Every decoded value is a part of a piece of the text without its
    remarks. *)
Lemma decode_values sep raw x :
  x ∈ Osg.decode sep raw →
  ∃ q, q ∈ Py.split (Py.sub_parens raw) sep ∧ infix x q.
Proof.
  unfold Osg.decode.
  intros (p & <- & Hp)%list_elem_of_In%in_map_iff.
  apply filter_In in Hp as [(q & <- & Hq)%in_map_iff _].
  exists q. split; [by apply list_elem_of_In|].
  eapply infix_trans; [apply unwrap_infix|apply strip_infix].
Qed.

(** C8, in the form that holds of the code: a single value that decoding
    gives decodes to itself when it is not empty, has no blank at either end
    and is not itself bracketed by [<] and [>], whatever the separator. A
    decoded value that is empty, has a blank at an end or is bracketed was
    inside a bracketed piece, and decoding it again takes it away, trims it
    or unwraps it once more. *)
Theorem decode_unbracketed_idempotent sep raw x :
  sep ≠ EmptyString →
  Osg.decode sep raw = [x] →
  x ≠ EmptyString → Py.strip x = x → bracketed x = false →
  Osg.decode sep x = [x].
Proof.
  intros Hsep Hdec Hne Hstrip Hbr.
  destruct (decode_values sep raw x) as (q & Hq & Hi);
    [rewrite Hdec; by left|].
  destruct (split_pieces sep Hsep _ _ _ Hq) as [Hiq Hcq].
  assert (Hpar : open_closed x = false).
  { apply (open_closed_infix x (Py.sub_parens raw)).
    - by eapply infix_trans.
    - apply open_closed_sub_parens. }
  assert (Hcx : Py.contains x sep = false) by (by eapply contains_infix).
  unfold Osg.decode.
  rewrite sub_parens_fixed, split_without_separator by done.
  cbn [map]. rewrite Hstrip. cbn [List.filter].
  rewrite nonempty_true by done. cbn [map]. by rewrite unwrap_fixed.
Qed.

Lemma decode_unbracketed_idempotent_witness :
  Osg.decode ", " "C++ (since 2010)" = ["C++"] ∧ Osg.decode ", " "C++" = ["C++"].
Proof.
  split; [vm_compute; reflexivity|].
  apply (decode_unbracketed_idempotent ", " "C++ (since 2010)" "C++").
  - discriminate.
  - vm_compute. reflexivity.
  - discriminate.
  - vm_compute. reflexivity.
  - vm_compute. reflexivity.
Defined.

(** C8 fails as it is stated: a value within two pairs of brackets decodes
    to the value within one pair, which decodes to the bare value. *)
Lemma decode_twice_unwraps_twice :
  (Osg.decode ", " "<<a>>" = ["<a>"] ∧ Osg.decode ", " "<a>" = ["a"]
   ∧ Osg.decode "," "<<a>>" = ["<a>"] ∧ Osg.decode "," "<a>" = ["a"])
  ∧ ¬ decoding_idempotent.
Proof.
  split; [split_and!; by vm_compute|].
  intros H. specialize (H ", " "<<a>>" "<a>").
  assert (Hd : Osg.decode ", " "<a>" = ["a"]) by (by vm_compute).
  rewrite Hd in H. discriminate H; [by left|by vm_compute].
Qed.

(** The other two ways in which a decoded value does not decode to itself:
    it is empty, or it has a blank at an end. *)
Lemma decode_twice_other_cases :
  Osg.decode ", " "<>" = [EmptyString] ∧ Osg.decode ", " EmptyString = []
  ∧ Osg.decode ", " "< a >" = [" a "] ∧ Osg.decode ", " " a " = ["a"].
Proof. split_and!; by vm_compute. Qed.

(** * More on the order check *)

Lemma rank_elem_of valid f : f ∈ valid ↔ is_Some (rank valid f).
Proof.
  split.
  - induction valid as [|v valid IH]; [by intros ?%elem_of_nil|].
    simpl. destruct (String.eqb f v) eqn:E; [by eexists|].
    apply String.eqb_neq in E. intros [?|Hin]%elem_of_cons; [done|].
    destruct (IH Hin) as [r ->]. by eexists.
  - intros [r (a & b & -> & _)%rank_split].
    apply elem_of_app. right. by left.
Qed.

Lemma seek_app_fresh f a b index :
  f ∉ a → Osg.seek f (a ++ f :: b) index = index + length a.
Proof.
  revert index. induction a as [|v a IH]; intros index Hn; simpl.
  - rewrite String.eqb_refl. lia.
  - apply not_elem_of_cons in Hn as [Hne Hn].
    apply String.eqb_neq in Hne. rewrite Hne, IH by done. lia.
Qed.

(** The cursor reaches a name whose rank is not below it, and stops on the
    rank. *)
Lemma advance_reach valid f index r :
  rank valid f = Some r → index ≤ r → Osg.advance valid f index = r.
Proof.
  intros (a & b & -> & <- & Hn)%rank_split Hle. unfold Osg.advance.
  rewrite skipn_app.
  replace (index - length a) with 0 by lia. rewrite skipn_O.
  rewrite seek_app_fresh, length_skipn; [lia|].
  intros Hin. apply Hn. rewrite <- (firstn_skipn index a).
  apply elem_of_app. by right.
Qed.

Lemma misordered_cons valid f fields :
  misordered valid fields → misordered valid (f :: fields).
Proof.
  intros (l1 & a & l2 & b & l3 & ra & rb & -> & ?).
  by exists (f :: l1), a, l2, b, l3, ra, rb.
Qed.

Lemma scan_ordered valid fields index :
  (∀ f, f ∈ fields → ∃ r, rank valid f = Some r ∧ index ≤ r) →
  ¬ misordered valid fields →
  Osg.order_scan_from valid fields index = None.
Proof.
  revert index. induction fields as [|f fields IH]; intros index Hr Hm; [done|].
  destruct (Hr f) as (r & Hf & Hle); [by left|].
  cbn [Osg.order_scan_from]. rewrite (advance_reach _ _ _ _ Hf Hle).
  pose proof (rank_lt _ _ _ Hf).
  destruct (Nat.eqb_spec r (length valid)); [lia|].
  apply IH.
  - intros g Hg. destruct (Hr g) as (rg & Hrg & _); [by right|].
    exists rg. split; [done|].
    destruct (decide (r ≤ rg)); [done|]. exfalso. apply Hm.
    apply list_elem_of_split in Hg as (l2 & l3 & ->).
    exists [], f, l2, g, l3, r, rg. split_and!; [done..|lia].
  - intros ?. by apply Hm, misordered_cons.
Qed.

Lemma scan_passed_valid valid fields index :
  NoDup valid → index ≤ length valid →
  Osg.order_scan_from valid fields index = None →
  ∀ f, f ∈ fields → f ∈ valid.
Proof.
  intros Hnd. revert index.
  induction fields as [|g fields IH]; intros index Hle Hs f Hf;
    [by apply elem_of_nil in Hf|].
  cbn [Osg.order_scan_from] in Hs.
  destruct (Nat.eqb_spec (Osg.advance valid g index) (length valid)) as [|Hne];
    [done|].
  apply elem_of_cons in Hf as [->|Hf].
  - apply rank_elem_of. rewrite (advance_stops valid Hnd g index) by done.
    by eexists.
  - apply (IH (Osg.advance valid g index)); [|done..].
    pose proof (advance_bounds valid g index Hle). lia.
Qed.

(** X1: over a canonical list without repetition, the order check lets a
    list of names pass exactly when every name is in the canonical list and
    no name comes after a name of higher rank. The check is the one of the
    field names and of the platforms. *)
Theorem order_scan_accepts_iff valid fields :
  NoDup valid →
  Osg.order_scan valid fields = None
  ↔ (∀ f, f ∈ fields → f ∈ valid) ∧ ¬ misordered valid fields.
Proof.
  intros Hnd. split.
  - intros Hs. split.
    + apply (scan_passed_valid valid fields 0); [done|lia|done].
    + intros Hm. destruct (scan_misordered valid Hnd fields Hm) as [g Hg].
      congruence.
  - intros [Hv Hm]. apply scan_ordered; [|done].
    intros f Hf. destruct (proj1 (rank_elem_of valid f) (Hv f Hf)) as [r Hr].
    exists r. split; [done|lia].
Qed.

Lemma order_scan_accepts_iff_witness :
  Osg.order_scan Osg.valid_platforms ["Windows"; "Linux"; "Linux"; "Web"] = None
  ↔ (∀ f, f ∈ ["Windows"; "Linux"; "Linux"; "Web"] → f ∈ Osg.valid_platforms)
    ∧ ¬ misordered Osg.valid_platforms ["Windows"; "Linux"; "Linux"; "Web"].
Proof.
  apply (order_scan_accepts_iff Osg.valid_platforms
           ["Windows"; "Linux"; "Linux"; "Web"]).
  compute_done.
Defined.
Lemma find_none_all {A} (f : A → bool) (l : list A) :
  List.find f l = None → ∀ x, x ∈ l → f x = false.
Proof. intros H x Hx. apply (find_none _ _ H). by apply list_elem_of_In. Qed.

Lemma nonempty_inv x : Osg.nonempty x = true → x ≠ EmptyString.
Proof. unfold Osg.nonempty. by intros ?%negb_true_iff%String.eqb_neq. Qed.

(** What [Osg.parse_entry] has checked when it returns an entry. *)
Lemma parse_entry_accepted content i :
  Osg.parse_entry content = Osg.Ok i →
  reaches_order_check content
  ∧ Osg.order_scan Osg.valid_fields (Osg.find_fields content) = None
  ∧ ∃ n d i0 v,
      Osg.find_name content = [n] ∧ Osg.find_description content = [d]
      ∧ Osg.store_fields content (Osg.find_fields content)
          (Osg.Info n d ∅ ∅ None) = Osg.Ok i0
      ∧ (∀ f, f ∈ Osg.after_decoding → is_Some (Osg.values i0 !! f))
      ∧ Osg.values i0 !! "state" = Some v
      ∧ Osg.check_state v = None
      ∧ (Osg.inactive_year v = [] ∧ i = i0
         ∨ ∃ y, Osg.inactive_year v = [y] ∧ i = Osg.set_inactive y i0)
      ∧ Osg.check_url_fields ["home"; "download"; "play"; "code repository"] i
        = None
      ∧ (∀ p, Osg.values i !! "platform" = Some p →
              Osg.order_scan Osg.valid_platforms p = None)
      ∧ ∃ k, Osg.values i !! "keywords" = Some k
             ∧ existsb (fun r => Py.mem r k) Osg.recommended_keywords = true.
Proof.
  unfold Osg.parse_entry.
  destruct (Osg.find_name content) as [|n [|]] eqn:Hn; try done.
  destruct (Osg.nonempty n) eqn:Hne; try done.
  destruct (Osg.find_description content) as [|d [|]] eqn:Hd; try done.
  destruct (Osg.nonempty d) eqn:Hde; try done.
  cbn [mbind Osg.result_bind Osg.bind].
  destruct (List.find _ Osg.essential_fields) eqn:Hess; try done.
  cbn [mbind Osg.result_bind Osg.bind fmap option_fmap option_map Osg.check].
  destruct (Osg.order_scan Osg.valid_fields _) eqn:Hscan; try done.
  cbn [mbind Osg.result_bind Osg.bind fmap option_fmap option_map Osg.check].
  destruct (Osg.store_fields _ _ _) as [i0|] eqn:Hst; try done.
  cbn [mbind Osg.result_bind Osg.bind].
  destruct (List.find _ Osg.after_decoding) eqn:Hafter; try done.
  cbn [mbind Osg.result_bind Osg.bind fmap option_fmap option_map Osg.check].
  destruct (Osg.values i0 !! "state") as [v|] eqn:Hv; try done.
  destruct (Osg.check_state v) eqn:Hcs; try done.
  cbn [mbind Osg.result_bind Osg.bind fmap option_fmap option_map Osg.check].
  intros H.
  assert (∃ i1, (Osg.inactive_year v = [] ∧ i1 = i0
                 ∨ ∃ y, Osg.inactive_year v = [y] ∧ i1 = Osg.set_inactive y i0)
                ∧ Osg.bind (Osg.check (Osg.check_url_fields
                      ["home"; "download"; "play"; "code repository"] i1))
                    (fun _ => Osg.bind
                       (Osg.check match Osg.values i1 !! "platform" with
                                  | Some p => Osg.PlatformOrder <$> Osg.order_scan Osg.valid_platforms p
                                  | None => None
                                  end)
                       (fun _ => match Osg.values i1 !! "keywords" with
                                 | Some k => if existsb (fun r => Py.mem r k) Osg.recommended_keywords then Osg.Ok i1 else Osg.Raise Osg.NoRecommendedKeyword
                                 | None => Osg.Raise Osg.NoKeyword
                                 end)) = Osg.Ok i) as (i1 & Hi1 & H1).
  { destruct (Osg.inactive_year v) as [|y [|]]; try done.
    - exists i0. split; [by left|done].
    - exists (Osg.set_inactive y i0). split; [right; by exists y|done]. }
  clear H.
  destruct (Osg.check_url_fields _ i1) eqn:Hurl; try done.
  cbn [Osg.bind Osg.check] in H1.
  assert (Hplat : ∀ p, Osg.values i1 !! "platform" = Some p →
                       Osg.order_scan Osg.valid_platforms p = None).
  { intros p Hp. rewrite Hp in H1.
    by destruct (Osg.order_scan Osg.valid_platforms p). }
  assert (H2 : match Osg.values i1 !! "keywords" with
               | Some k => if existsb (fun r => Py.mem r k) Osg.recommended_keywords then Osg.Ok i1 else Osg.Raise Osg.NoRecommendedKeyword
               | None => Osg.Raise Osg.NoKeyword
               end = Osg.Ok i).
  { destruct (Osg.values i1 !! "platform") as [p|]; [|done].
    by destruct (Osg.order_scan Osg.valid_platforms p). }
  clear H1.
  destruct (Osg.values i1 !! "keywords") as [k|] eqn:Hk; try done.
  destruct (existsb _ _) eqn:Hrec; try done. injection H2 as <-.
  split; [|split; [done|]].
  - unfold reaches_order_check. split_and!.
    + exists n. split; [done|by apply nonempty_inv].
    + exists d. split; [done|by apply nonempty_inv].
    + intros f Hf. apply (find_none_all _ _ Hess) in Hf.
      apply negb_false_iff in Hf. by apply bool_decide_eq_true in Hf.
  - exists n, d, i0, v. split_and!; try done.
    + intros f Hf. apply (find_none_all _ _ Hafter) in Hf.
      apply negb_false_iff in Hf. by apply bool_decide_eq_true in Hf.
    + by exists k.
Qed.

(** * The dictionary of an accepted entry *)

Lemma store_fields_spec content fields i i' :
  NoDup (map Py.lower fields) →
  Osg.store_fields content fields i = Osg.Ok i' →
  (Osg.name i' = Osg.name i ∧ Osg.description i' = Osg.description i
   ∧ Osg.inactive i' = Osg.inactive i)
  ∧ (∀ k, k ∉ map Py.lower fields →
          Osg.raw i' !! k = Osg.raw i !! k
          ∧ Osg.values i' !! k = Osg.values i !! k)
  ∧ (∀ f, f ∈ fields →
          ∃ v, Osg.find_field_values f content = [v]
               ∧ Osg.raw i' !! Py.lower f = Some v
               ∧ Osg.values i' !! Py.lower f
                 = match Osg.decode ", " v with
                   | [] => Osg.values i !! Py.lower f
                   | d => Some d
                   end).
Proof.
  revert i. induction fields as [|f fields IH]; intros i Hnd Hst.
  - injection Hst as <-. split_and!; try done. by intros f ?%elem_of_nil.
  - cbn [map] in Hnd. apply NoDup_cons in Hnd as [Hf Hnd].
    cbn [Osg.store_fields] in Hst.
    destruct (Osg.find_field_values f content) as [|v [|]] eqn:Hv; try done.
    set (i1 := Osg.set_raw (Py.lower f) v i) in Hst.
    set (i2 := match Osg.decode ", " v with
               | [] => i1
               | _ => Osg.set_values (Py.lower f) (Osg.decode ", " v) i1
               end).
    assert (Hst2 : Osg.store_fields content fields i2 = Osg.Ok i')
      by (subst i2; by destruct (Osg.decode ", " v)).
    destruct (IH i2 Hnd Hst2) as ((Hn & Hd & Hi) & Hout & Hin).
    assert (Hraw2 : ∀ k, Osg.raw i2 !! k
                         = if decide (Py.lower f = k) then Some v
                           else Osg.raw i !! k).
    { intros k. subst i2 i1. destruct (Osg.decode ", " v); simpl;
        by rewrite lookup_insert. }
    assert (Hval2 : ∀ k, Osg.values i2 !! k
                         = if decide (Py.lower f = k)
                           then match Osg.decode ", " v with
                                | [] => Osg.values i !! k
                                | d => Some d
                                end
                           else Osg.values i !! k).
    { intros k. subst i2 i1. destruct (Osg.decode ", " v) eqn:E; simpl.
      - by destruct (decide _).
      - by rewrite lookup_insert. }
    split_and!.
    + rewrite Hn. subst i2 i1. by destruct (Osg.decode ", " v).
    + rewrite Hd. subst i2 i1. by destruct (Osg.decode ", " v).
    + rewrite Hi. subst i2 i1. by destruct (Osg.decode ", " v).
    + intros k Hk. cbn [map] in Hk. apply not_elem_of_cons in Hk as [Hne Hk].
      destruct (Hout k Hk) as [-> ->]. rewrite Hraw2, Hval2.
      by rewrite !decide_False.
    + intros g [->|Hg]%elem_of_cons.
      * exists v. destruct (Hout (Py.lower f) Hf) as [-> ->].
        rewrite Hraw2, Hval2. by rewrite !decide_True.
      * destruct (Hin g Hg) as (w & Hw & Hr & Hval). exists w.
        split_and!; [done..|]. rewrite Hval, Hval2.
        rewrite decide_False; [done|]. intros E. apply Hf. rewrite E.
        apply list_elem_of_In, in_map. by apply list_elem_of_In.
Qed.

(** The fields of a text of which every field has one value are distinct. *)
Lemma one_value_fields_nodup content :
  (∀ f, f ∈ Osg.find_fields content →
        length (Osg.find_field_values f content) = 1) →
  NoDup (Osg.find_fields content).
Proof.
  intros H. apply NoDup_ListNoDup, (NoDup_count_occ String.string_dec).
  intros f.
  destruct (decide (f ∈ Osg.find_fields content)) as [Hin|Hn].
  - rewrite <- (H f Hin). apply field_values_count.
  - rewrite (proj1 (count_occ_not_In _ _ _)); [lia|].
    by rewrite <- list_elem_of_In.
Qed.

Lemma store_fields_one_value content fields i i' :
  Osg.store_fields content fields i = Osg.Ok i' →
  ∀ f, f ∈ fields → length (Osg.find_field_values f content) = 1.
Proof.
  revert i. induction fields as [|g fields IH]; intros i Hst f Hf;
    [by apply elem_of_nil in Hf|].
  cbn [Osg.store_fields] in Hst.
  destruct (Osg.find_field_values g content) as [|v [|]] eqn:Hv; try done.
  apply elem_of_cons in Hf as [->|Hf]; [by rewrite Hv|].
  destruct (Osg.decode ", " v); by eapply IH.
Qed.

Lemma lower_valid_fields_nodup : NoDup (map Py.lower Osg.valid_fields).
Proof. compute_done. Qed.

Lemma nodup_map_inj {A B} (g : A → B) (l : list A) x y :
  NoDup (map g l) → x ∈ l → y ∈ l → g x = g y → x = y.
Proof.
  induction l as [|a l IH]; intros Hnd Hx Hy E; [by apply elem_of_nil in Hx|].
  cbn [map] in Hnd. apply NoDup_cons in Hnd as [Ha Hnd].
  apply elem_of_cons in Hx as [->|Hx], Hy as [->|Hy]; [done| | |by apply IH].
  - exfalso. apply Ha. rewrite E. apply list_elem_of_In, in_map.
    by apply list_elem_of_In.
  - exfalso. apply Ha. rewrite <- E. apply list_elem_of_In, in_map.
    by apply list_elem_of_In.
Qed.

Lemma accepted_fields content i :
  Osg.parse_entry content = Osg.Ok i →
  NoDup (Osg.find_fields content)
  ∧ (∀ f, f ∈ Osg.find_fields content → f ∈ Osg.valid_fields)
  ∧ NoDup (map Py.lower (Osg.find_fields content)).
Proof.
  intros (_ & Hscan & n & d & i0 & v & _ & _ & Hst & _)%parse_entry_accepted.
  assert (Hnd : NoDup (Osg.find_fields content)).
  { apply one_value_fields_nodup. by eapply store_fields_one_value. }
  assert (Hv : ∀ f, f ∈ Osg.find_fields content → f ∈ Osg.valid_fields).
  { apply (scan_passed_valid _ _ 0); [apply osg_valid_fields_nodup|lia|done]. }
  split_and!; [done..|].
  apply (NoDup_fmap_2_strong Py.lower); [|done].
  intros x y Hx Hy. apply (nodup_map_inj _ Osg.valid_fields);
    [apply lower_valid_fields_nodup|auto..].
Qed.

Lemma accepted_dictionary content i :
  Osg.parse_entry content = Osg.Ok i →
  ∃ n d i0 v,
    Osg.find_name content = [n] ∧ Osg.find_description content = [d]
    ∧ Osg.store_fields content (Osg.find_fields content)
        (Osg.Info n d ∅ ∅ None) = Osg.Ok i0
    ∧ Osg.values i0 !! "state" = Some v
    ∧ Osg.check_state v = None
    ∧ Osg.name i = n ∧ Osg.description i = d
    ∧ Osg.raw i = Osg.raw i0 ∧ Osg.values i = Osg.values i0
    ∧ Osg.inactive i = head (Osg.inactive_year v)
    ∧ length (Osg.inactive_year v) ≤ 1
    ∧ ∀ f, f ∈ Osg.after_decoding → is_Some (Osg.values i0 !! f).
Proof.
  intros H. pose proof (accepted_fields _ _ H) as (_ & _ & Hnd).
  apply parse_entry_accepted in H
    as (_ & _ & n & d & i0 & v & Hn & Hd & Hst & Ha & Hv & Hcs & Hi & _).
  destruct (store_fields_spec _ _ _ _ Hnd Hst) as ((Hn0 & Hd0 & Hi0) & _).
  exists n, d, i0, v. simpl in Hn0, Hd0, Hi0.
  destruct Hi as [[Hy ->]|(y & Hy & ->)]; rewrite Hy; simpl;
    split_and!; try done; lia.
Qed.

(** X2: the fields of a text that [Osg.parse_entry] accepts are distinct
    valid field names in the canonical order, and every essential field is
    among them. *)
Theorem accepted_entry_fields content i :
  Osg.parse_entry content = Osg.Ok i →
  NoDup (Osg.find_fields content)
  ∧ (∀ f, f ∈ Osg.find_fields content → f ∈ Osg.valid_fields)
  ∧ ¬ misordered Osg.valid_fields (Osg.find_fields content)
  ∧ (∀ f, f ∈ Osg.essential_fields → f ∈ Osg.find_fields content).
Proof.
  intros H. destruct (accepted_fields _ _ H) as (Hnd & Hv & _).
  apply parse_entry_accepted in H as ((_ & _ & Hess) & Hscan & _).
  split_and!; try done.
  intros Hm. destruct (scan_misordered _ osg_valid_fields_nodup _ Hm) as [g Hg].
  congruence.
Qed.

(** X3: the dictionary of an accepted entry. It has the name and the
    description of the text; for every field of the text it has the one raw
    value of the field under the lowered field name, and under the same key
    the decoded value, unless the value decodes to nothing; a key that is no
    lowered field name of the text has neither. No list that it holds is
    empty. *)
Theorem accepted_entry_dictionary content i :
  Osg.parse_entry content = Osg.Ok i →
  Osg.find_name content = [Osg.name i]
  ∧ Osg.find_description content = [Osg.description i]
  ∧ (∀ f, f ∈ Osg.find_fields content →
          ∃ v, Osg.find_field_values f content = [v]
               ∧ Osg.raw i !! Py.lower f = Some v
               ∧ Osg.values i !! Py.lower f
                 = match Osg.decode ", " v with
                   | [] => None
                   | d => Some d
                   end)
  ∧ (∀ k, k ∉ map Py.lower (Osg.find_fields content) →
          Osg.raw i !! k = None ∧ Osg.values i !! k = None)
  ∧ (∀ k d, Osg.values i !! k = Some d → d ≠ []).
Proof.
  intros H. pose proof (accepted_fields _ _ H) as (_ & _ & Hnd).
  destruct (accepted_dictionary _ _ H)
    as (n & d & i0 & v & Hn & Hd & Hst & _ & _ & <- & <- & -> & -> & _).
  destruct (store_fields_spec _ _ _ _ Hnd Hst) as (_ & Hout & Hin).
  split_and!; try done.
  - intros k d' Hk.
    destruct (decide (k ∈ map Py.lower (Osg.find_fields content))) as [Hel|Hn'].
    + apply list_elem_of_In, in_map_iff in Hel as (f & <- & Hf%list_elem_of_In).
      destruct (Hin f Hf) as (w & _ & _ & Hw). rewrite Hw in Hk.
      destruct (Osg.decode ", " w); [done|]. by injection Hk as <-.
    + destruct (Hout k Hn') as [_ Hval]. rewrite Hval in Hk. done.
Qed.

Lemma check_state_passed v :
  Osg.check_state v = None →
  recognized v ∧ ¬ ("beta" ∈ v ∧ "mature" ∈ v).
Proof.
  unfold Osg.check_state.
  destruct (List.find _ v) eqn:Hf; [done|].
  destruct (Osg.beta_mature_test v) eqn:Hb; [done|]. intros _. split.
  - intros t Ht. apply (find_none_all _ _ Hf) in Ht.
    by apply negb_false_iff in Ht.
  - intros [H1 H2]. unfold Osg.beta_mature_test, Py.mem, Osg.list_ne_str in Hb.
    by rewrite !bool_decide_eq_true_2 in Hb.
Qed.

Lemma drop_app p y : Py.drop (String.length p) (p +:+ y) = y.
Proof. induction p as [|c p IH]; [by destruct y|]. by rewrite app_cons. Qed.

Lemma inactive_year_elem_of v y :
  y ∈ Osg.inactive_year v ↔ Osg.phrase +:+ y ∈ v.
Proof.
  unfold Osg.inactive_year. rewrite list_elem_of_In, in_map_iff. split.
  - intros (t & <- & [Ht Hp]%filter_In). apply prefix_drop in Hp.
    rewrite <- Hp. by apply list_elem_of_In.
  - intros Hin. exists (Osg.phrase +:+ y). split; [apply drop_app|].
    apply filter_In. split; [by apply list_elem_of_In|apply prefix_app].
Qed.

(** X4: the state of an accepted entry. Every token of the decoded state is
    [beta], [mature] or starts with the words of inactivity, and the two
    first are not both there. At most one token is of inactivity, and the
    entry is inactive since a year exactly when the state holds the token of
    that year. *)
Theorem accepted_entry_state content i :
  Osg.parse_entry content = Osg.Ok i →
  ∃ v, Osg.values i !! "state" = Some v
       ∧ recognized v
       ∧ ¬ ("beta" ∈ v ∧ "mature" ∈ v)
       ∧ length (Osg.inactive_year v) ≤ 1
       ∧ ∀ y, Osg.inactive i = Some y ↔ "inactive since " +:+ y ∈ v.
Proof.
  intros H. destruct (accepted_dictionary _ _ H)
    as (n & d & i0 & v & _ & _ & _ & Hv & Hcs & _ & _ & _ & -> & -> & Hlen & _).
  destruct (check_state_passed v Hcs) as [Hr Hb].
  exists v. split_and!; try done.
  intros y. rewrite <- (inactive_year_elem_of v y).
  destruct (Osg.inactive_year v) as [|y' [|]]; simpl in *; [| |lia].
  - split; [done|by intros ?%elem_of_nil].
  - rewrite list_elem_of_singleton. split; [by intros [= ->]|by intros ->].
Qed.

Lemma check_urls_passed urls :
  Osg.check_urls urls = None →
  ∀ url, url ∈ urls →
    existsb (Py.startswith url) Osg.url_schemes = true
    ∧ Py.contains url " " = false.
Proof.
  induction urls as [|u urls IH]; intros H url Hin;
    [by apply elem_of_nil in Hin|].
  cbn [Osg.check_urls] in H.
  destruct (existsb (Py.startswith u) Osg.url_schemes) eqn:Hs; [|done].
  destruct (Py.contains u " ") eqn:Hc; [done|]. simpl in H.
  apply elem_of_cons in Hin as [->|Hin]; [done|by apply IH].
Qed.

Lemma check_url_fields_passed fields i :
  Osg.check_url_fields fields i = None →
  ∀ field urls, field ∈ fields → Osg.values i !! field = Some urls →
    Osg.check_urls urls = None.
Proof.
  induction fields as [|f fields IH]; intros H field urls Hin Hv;
    [by apply elem_of_nil in Hin|].
  cbn [Osg.check_url_fields] in H.
  apply elem_of_cons in Hin as [->|Hin].
  - rewrite Hv in H. by destruct (Osg.check_urls urls).
  - apply (IH) with (field := field); [|done..].
    destruct (Osg.values i !! f) as [us|]; [|done].
    by destruct (Osg.check_urls us).
Qed.

(** X5: in an accepted entry every decoded value of the home, the
    download, the play and the code repository field starts with one of the
    six schemes and holds no space. *)
Theorem accepted_entry_urls content i field urls url :
  Osg.parse_entry content = Osg.Ok i →
  field ∈ ["home"; "download"; "play"; "code repository"] →
  Osg.values i !! field = Some urls → url ∈ urls →
  (∃ scheme, scheme ∈ Osg.url_schemes ∧ Py.startswith url scheme = true)
  ∧ Py.contains url " " = false.
Proof.
  intros H Hf Hv Hu.
  apply parse_entry_accepted in H
    as (_ & _ & n & d & i0 & v & _ & _ & _ & _ & _ & _ & _ & Hurl & _).
  pose proof (check_url_fields_passed _ _ Hurl _ _ Hf Hv) as Hc.
  destruct (check_urls_passed _ Hc _ Hu) as [Hs Hsp]. split; [|done].
  apply existsb_exists in Hs as (s & Hs%list_elem_of_In & Hst). by exists s.
Qed.

(** X6: an accepted entry has keywords, one of which is a recommended
    keyword, and its platforms, if it has any, are valid platforms in the
    canonical order. *)
Theorem accepted_entry_keywords_platforms content i :
  Osg.parse_entry content = Osg.Ok i →
  (∃ k r, Osg.values i !! "keywords" = Some k
          ∧ r ∈ Osg.recommended_keywords ∧ r ∈ k)
  ∧ ∀ p, Osg.values i !! "platform" = Some p →
         (∀ x, x ∈ p → x ∈ Osg.valid_platforms)
         ∧ ¬ misordered Osg.valid_platforms p.
Proof.
  intros H.
  apply parse_entry_accepted in H
    as (_ & _ & n & d & i0 & v & _ & _ & _ & _ & _ & _ & _ & _ & Hp & k & Hk & Hr).
  assert (Hnd : NoDup Osg.valid_platforms) by compute_done.
  split.
  - apply existsb_exists in Hr as (r & Hr%list_elem_of_In & Hm).
    exists k, r. split_and!; [done..|]. by apply bool_decide_eq_true in Hm.
  - intros p Hv. specialize (Hp p Hv). split.
    + apply (scan_passed_valid _ _ 0); [done|lia|done].
    + intros Hm. destruct (scan_misordered _ Hnd _ Hm) as [g Hg]. congruence.
Qed.

(** X7: an accepted entry has a decoded home, state, keywords, code
    language and code license: each of these five fields has one value in
    the text, the value does not decode to nothing, and the dictionary holds
    its decoding. A text in which one of them decodes to nothing is not
    accepted. *)
Theorem accepted_entry_essential_values content i f :
  Osg.parse_entry content = Osg.Ok i →
  f ∈ ["Home"; "State"; "Keywords"; "Code language"; "Code license"] →
  ∃ v, Osg.find_field_values f content = [v]
       ∧ Osg.decode ", " v ≠ []
       ∧ Osg.values i !! Py.lower f = Some (Osg.decode ", " v).
Proof.
  intros H Hf. pose proof (accepted_fields _ _ H) as (_ & _ & Hnd).
  destruct (accepted_dictionary _ _ H)
    as (n & d & i0 & v & _ & _ & Hst & _ & _ & _ & _ & _ & Hval & _ & _ & Hafter).
  apply parse_entry_accepted in H as ((_ & _ & Hess) & _).
  destruct (store_fields_spec _ _ _ _ Hnd Hst) as (_ & _ & Hin).
  assert (Hfe : f ∈ Osg.essential_fields).
  { revert Hf. unfold Osg.essential_fields. rewrite !elem_of_cons. tauto. }
  assert (Hfa : Py.lower f ∈ Osg.after_decoding).
  { revert Hf. rewrite !elem_of_cons, elem_of_nil.
    intros [->|[->|[->|[->|[->|[]]]]]]; compute_done. }
  destruct (Hin f (Hess f Hfe)) as (w & Hw & _ & Hd).
  destruct (Hafter _ Hfa) as [x Hx]. rewrite Hd in Hx.
  exists w. split; [done|].
  rewrite Hval, Hd. by destruct (Osg.decode ", " w).
Qed.

Lemma accepted_entry_fields_witness :
  NoDup (Osg.find_fields sample_entry)
  ∧ (∀ f, f ∈ Osg.find_fields sample_entry → f ∈ Osg.valid_fields)
  ∧ ¬ misordered Osg.valid_fields (Osg.find_fields sample_entry)
  ∧ (∀ f, f ∈ Osg.essential_fields → f ∈ Osg.find_fields sample_entry).
Proof.
  apply (accepted_entry_fields sample_entry sample_info).
  vm_compute. reflexivity.
Defined.

Lemma accepted_entry_dictionary_witness :
  Osg.find_name sample_entry = [Osg.name sample_info]
  ∧ Osg.find_description sample_entry = [Osg.description sample_info]
  ∧ (∀ f, f ∈ Osg.find_fields sample_entry →
          ∃ v, Osg.find_field_values f sample_entry = [v]
               ∧ Osg.raw sample_info !! Py.lower f = Some v
               ∧ Osg.values sample_info !! Py.lower f
                 = match Osg.decode ", " v with
                   | [] => None
                   | d => Some d
                   end)
  ∧ (∀ k, k ∉ map Py.lower (Osg.find_fields sample_entry) →
          Osg.raw sample_info !! k = None ∧ Osg.values sample_info !! k = None)
  ∧ (∀ k d, Osg.values sample_info !! k = Some d → d ≠ []).
Proof.
  apply (accepted_entry_dictionary sample_entry sample_info).
  vm_compute. reflexivity.
Defined.

Lemma accepted_entry_state_witness :
  ∃ v, Osg.values sample_info !! "state" = Some v
       ∧ recognized v
       ∧ ¬ ("beta" ∈ v ∧ "mature" ∈ v)
       ∧ length (Osg.inactive_year v) ≤ 1
       ∧ ∀ y, Osg.inactive sample_info = Some y ↔ "inactive since " +:+ y ∈ v.
Proof.
  apply (accepted_entry_state sample_entry sample_info).
  vm_compute. reflexivity.
Defined.

Lemma accepted_entry_urls_witness :
  (∃ scheme, scheme ∈ Osg.url_schemes
             ∧ Py.startswith "https://example.org/code.git" scheme = true)
  ∧ Py.contains "https://example.org/code.git" " " = false.
Proof.
  apply (accepted_entry_urls sample_entry sample_info "code repository"
           ["https://example.org/code.git"]).
  - vm_compute. reflexivity.
  - do 3 right. left.
  - vm_compute. reflexivity.
  - left.
Defined.

Lemma accepted_entry_keywords_platforms_witness :
  (∃ k r, Osg.values sample_info !! "keywords" = Some k
          ∧ r ∈ Osg.recommended_keywords ∧ r ∈ k)
  ∧ ∀ p, Osg.values sample_info !! "platform" = Some p →
         (∀ x, x ∈ p → x ∈ Osg.valid_platforms)
         ∧ ¬ misordered Osg.valid_platforms p.
Proof.
  apply (accepted_entry_keywords_platforms sample_entry sample_info).
  vm_compute. reflexivity.
Defined.

Lemma accepted_entry_essential_values_witness :
  ∃ v, Osg.find_field_values "Keywords" sample_entry = [v]
       ∧ Osg.decode ", " v ≠ []
       ∧ Osg.values sample_info !! Py.lower "Keywords" = Some (Osg.decode ", " v).
Proof.
  apply (accepted_entry_essential_values sample_entry sample_info "Keywords").
  - vm_compute. reflexivity.
  - do 2 right. left.
Defined.

(** * More on decoding *)

(** X8: no value that decoding gives holds the separator on which the text
    was split, and in none does an opening parenthesis have a closing one
    after it. *)
Theorem decoded_values_clean sep raw x :
  sep ≠ EmptyString → x ∈ Osg.decode sep raw →
  Py.contains x sep = false ∧ open_closed x = false.
Proof.
  intros Hsep Hx. destruct (decode_values sep raw x Hx) as (q & Hq & Hi).
  destruct (split_pieces sep Hsep _ _ _ Hq) as [Hiq Hcq]. split.
  - by eapply contains_infix.
  - apply (open_closed_infix x (Py.sub_parens raw)).
    + by eapply infix_trans.
    + apply open_closed_sub_parens.
Qed.

Lemma decoded_values_clean_witness :
  Py.contains "b c" ", " = false ∧ open_closed "b c" = false.
Proof.
  apply (decoded_values_clean ", " "a (x), <b c>, d(" "b c").
  - discriminate.
  - vm_compute. right. left.
Defined.

(** X9: taking the remarks in parentheses out of a text leaves no opening
    parenthesis with a closing one after it, so that taking them out once
    more changes nothing; a text without such a pair is left as it is. *)
Theorem sub_parens_idempotent s :
  open_closed (Py.sub_parens s) = false
  ∧ Py.sub_parens (Py.sub_parens s) = Py.sub_parens s
  ∧ (open_closed s = false → Py.sub_parens s = s).
Proof.
  split_and!.
  - apply open_closed_sub_parens.
  - apply sub_parens_fixed, open_closed_sub_parens.
  - apply sub_parens_fixed.
Qed.

Lemma has_char_app c a b :
  has_char c (a +:+ b) = has_char c a || has_char c b.
Proof.
  induction a as [|d a IH]; [done|]. rewrite app_cons. simpl.
  by rewrite IH, orb_assoc.
Qed.

Lemma has_open_open_closed s : has_char "(" s = false → open_closed s = false.
Proof.
  induction s as [|c s IH]; [done|]. simpl.
  intros [-> H]%orb_false_iff. by rewrite IH.
Qed.

Lemma has_char_join c sep l :
  has_char c sep = false → Forall (fun x => has_char c x = false) l →
  has_char c (Py.join sep l) = false.
Proof.
  intros Hsep. induction 1 as [|x l Hx Hl IH]; [done|].
  destruct l as [|y l]; [done|].
  change (Py.join sep (x :: y :: l)) with (x +:+ sep +:+ Py.join sep (y :: l)).
  by rewrite !has_char_app, Hx, Hsep, IH.
Qed.

Lemma prefix_comma_miss sep c x :
  sep = "," ∨ sep = ", " → Ascii.eqb c "," = false →
  String.prefix sep (String c x) = false.
Proof.
  intros Hsep Hc%Ascii.eqb_neq.
  destruct Hsep as [-> | ->]; cbn [String.prefix];
    by destruct (ascii_dec "," c).
Qed.

(** Splitting at commas, whether a blank has to follow or not. *)
Lemma split_comma_free sep x :
  sep = "," ∨ sep = ", " → has_char "," x = false →
  Py.split_from sep x 0 = [x].
Proof.
  intros Hsep. induction x as [|c x IH]; [done|]. simpl has_char.
  intros [Hc Hx]%orb_false_iff. cbn [Py.split_from].
  rewrite prefix_comma_miss by done.
  by rewrite IH.
Qed.

Lemma split_comma_head sep x rest :
  sep = "," ∨ sep = ", " → has_char "," x = false →
  Py.split_from sep (x +:+ ", " +:+ rest) 0
  = x :: Py.split_from sep (if String.eqb sep "," then " " +:+ rest else rest) 0.
Proof.
  intros Hsep. induction x as [|c x IH].
  - intros _. destruct Hsep as [-> | ->]; [done|].
    change (EmptyString +:+ ", " +:+ rest) with (String "," (String " " rest)).
    cbn [Py.split_from String.prefix String.length]. simpl.
    by destruct rest.
  - simpl has_char. intros [Hc Hx]%orb_false_iff.
    rewrite app_cons. cbn [Py.split_from].
    rewrite prefix_comma_miss by done.
    by rewrite IH.
Qed.

Lemma strip_blank x : Py.strip (" " +:+ x) = Py.strip x.
Proof. reflexivity. Qed.

Lemma split_join sep pad l :
  sep = "," ∨ sep = ", " →
  l ≠ [] → Forall plain l →
  (pad = EmptyString ∨ pad = " ") →
  map Py.strip (Py.split_from sep (pad +:+ Py.join ", " l) 0) = l.
Proof.
  intros Hsep Hne Hl. revert pad.
  induction Hl as [|x l (Hx & Hs & Hb & Hc & Ho) Hl IH]; [done|]. clear Hne.
  intros pad Hpad.
  assert (Hpc : has_char "," (pad +:+ x) = false).
  { rewrite has_char_app, Hc. by destruct Hpad as [-> | ->]. }
  assert (Hps : Py.strip (pad +:+ x) = x).
  { destruct Hpad as [-> | ->]; [done|]. by rewrite strip_blank. }
  destruct l as [|y l].
  - cbn [Py.join]. rewrite split_comma_free by done. cbn [map].
    by rewrite Hps.
  - change (Py.join ", " (x :: y :: l))
      with (x +:+ ", " +:+ Py.join ", " (y :: l)).
    rewrite <- app_assoc_string.
    rewrite split_comma_head by done. cbn [map]. rewrite Hps. f_equal.
    destruct Hsep as [-> | ->]; simpl String.eqb; cbv iota.
    + apply IH; [done|by right].
    + apply (IH ltac:(done) EmptyString). by left.
Qed.

(** X10: a list of plain values, joined with a comma and a blank as the
    listings and the exported table join them, decodes to the list again,
    with either of the two separators of the parsers. *)
Theorem decode_join l :
  Forall plain l →
  Osg.decode ", " (Py.join ", " l) = l ∧ Osg.decode "," (Py.join ", " l) = l.
Proof.
  intros Hl. destruct l as [|x l]; [by vm_compute|].
  assert (Hsub : Py.sub_parens (Py.join ", " (x :: l)) = Py.join ", " (x :: l)).
  { apply sub_parens_fixed, has_open_open_closed, has_char_join; [done|].
    eapply Forall_impl; [done|]. by intros y (_ & _ & _ & _ & ?). }
  assert (Hf : List.filter Osg.nonempty (x :: l) = x :: l).
  { apply forallb_filter_id, forallb_forall. intros y Hy%list_elem_of_In.
    rewrite Forall_forall in Hl. destruct (Hl y Hy) as (? & _).
    by apply nonempty_true. }
  assert (Hu : map Osg.unwrap (x :: l) = x :: l).
  { rewrite <- (map_id (x :: l)) at 2. apply map_ext_in.
    intros y Hy%list_elem_of_In. rewrite Forall_forall in Hl.
    destruct (Hl y Hy) as (_ & _ & ? & _). by apply unwrap_fixed. }
  unfold Osg.decode, Py.split. rewrite Hsub.
  rewrite <- (app_empty_l (Py.join ", " (x :: l))).
  rewrite !split_join; auto. by rewrite Hf, Hu.
Qed.

Lemma decode_join_witness :
  Osg.decode ", " (Py.join ", " ["action"; "open world"; "C++"])
  = ["action"; "open world"; "C++"]
  ∧ Osg.decode "," (Py.join ", " ["action"; "open world"; "C++"])
    = ["action"; "open world"; "C++"].
Proof.
  apply (decode_join ["action"; "open world"; "C++"]).
  repeat constructor; try discriminate; vm_compute; reflexivity.
Defined.

(** * The order of the tables and of the rows *)

(** X11: a frequency table is in the order of falling frequency, and the
    values of one frequency are in ascending order. *)
Theorem frequencies_order all :
  StronglySorted frequency_before (Maintenance.frequencies all).
Proof.
  unfold Maintenance.frequencies.
  set (by_name := fun x y : string * Q => String.leb (fst x) (fst y)).
  set (by_frequency := fun x y : string * Q => Qle_bool (snd y) (snd x)).
  apply (strongly_sorted_impl
           (by_key_then by_frequency (by_key_then by_name (fun _ _ => True)))).
  - intros x y [H1 H2]. unfold frequency_before, by_frequency in *.
    apply Qle_bool_iff in H1.
    destruct (Qlt_le_dec (snd y) (snd x)) as [Hlt|Hle]; [by left|].
    right. split; [by apply Qle_antisym|].
    apply Qle_bool_iff in Hle. by destruct (H2 Hle).
  - apply sort_stable.
    + intros x y. unfold by_frequency. rewrite !Qle_bool_iff.
      destruct (Qlt_le_dec (snd x) (snd y)) as [?%Qlt_le_weak|?]; auto.
    + intros x y z. unfold by_frequency. rewrite !Qle_bool_iff.
      intros ??. by apply (Qle_trans _ (snd y)).
    + apply sort_stable.
      * intros x y. apply String.leb_total.
      * intros x y z. apply leb_trans_string.
      * apply strongly_sorted_any.
Qed.

Lemma export_entry_exportable shorten i :
  (∃ row, Maintenance.export_entry shorten i = inr row) ↔ exportable i.
Proof.
  split.
  - unfold Maintenance.export_entry, Maintenance.state_column,
      Maintenance.first_value, exportable.
    intros [row H].
    destruct (Maintenance.values i !! "home") as [[|h hs]|]; try done.
    destruct (Maintenance.values i !! "state") as [[|s ss]|]; try done.
    split; by eexists _, _.
  - intros (row & _ & _ & _ & H & _)%(export_entry_row shorten). by exists row.
Qed.

Lemma export_entries_raise shorten infois x :
  Maintenance.export_entries shorten infois = inl x →
  ∃ i, i ∈ infois ∧ Maintenance.export_entry shorten i = inl x
       ∧ ¬ exportable i.
Proof.
  induction infois as [|i infois IH]; [done|].
  cbn [Maintenance.export_entries].
  destruct (Maintenance.export_entry shorten i) as [y|row] eqn:E.
  - intros [= ->]. exists i. split_and!; [by left|done|].
    intros [row Hrow]%(export_entry_exportable shorten). congruence.
  - destruct (Maintenance.export_entries shorten infois) as [y|rows];
      [|done].
    intros [= ->]. destruct (IH eq_refl) as (j & Hj & Hx & Hn).
    exists j. split_and!; [by right|done..].
Qed.

Lemma export_entries_ok shorten infois rows :
  Maintenance.export_entries shorten infois = inr rows →
  Forall2 (fun i row => Maintenance.export_entry shorten i = inr row) infois rows.
Proof.
  revert rows. induction infois as [|i infois IH]; intros rows.
  - intros [= <-]. constructor.
  - cbn [Maintenance.export_entries].
    destruct (Maintenance.export_entry shorten i) as [y|row] eqn:E; [done|].
    destruct (Maintenance.export_entries shorten infois) as [y|rows'];
      [done|].
    intros [= <-]. constructor; [done|by apply IH].
Qed.

(** X12: [export_json] gives its rows exactly when every entry has a home
    and a state. When it raises, it raises what the row of one of the
    entries raises, an entry without a home or without a state. *)
Theorem export_json_raises shorten infois :
  ((∃ rows, Maintenance.export_json shorten infois = inr rows)
   ↔ ∀ i, i ∈ infois → exportable i)
  ∧ ∀ x, Maintenance.export_json shorten infois = inl x →
         ∃ i, i ∈ infois ∧ Maintenance.export_entry shorten i = inl x
              ∧ ¬ exportable i.
Proof.
  unfold Maintenance.export_json. split; [split|].
  - intros [rows H] i Hi.
    destruct (Maintenance.export_entries shorten infois) as [|rows'] eqn:E;
      [done|].
    apply export_entries_ok in E. apply list_elem_of_lookup in Hi as [k Hk].
    destruct (Forall2_lookup_l _ _ _ _ _ E Hk) as (row & _ & Hrow).
    apply (export_entry_exportable shorten). by exists row.
  - intros H. destruct (export_entries_rows shorten infois H) as (rows & -> & _).
    by eexists.
  - intros x H.
    destruct (Maintenance.export_entries shorten infois) as [y|rows] eqn:E;
      [|done].
    injection H as ->. by apply export_entries_raise.
Qed.

(** X13: the rows that [export_json] gives are in the order of their first
    column, the name of the game with its links, and every row has the seven
    columns of the headings. *)
Theorem export_json_rows shorten infois rows :
  Maintenance.export_json shorten infois = inr rows →
  StronglySorted
    (fun r1 r2 => String.leb (hd EmptyString r1) (hd EmptyString r2) = true) rows
  ∧ Forall (fun row => length row = length Maintenance.headings) rows
  ∧ length rows = length infois.
Proof.
  unfold Maintenance.export_json.
  destruct (Maintenance.export_entries shorten infois) as [|rows'] eqn:E;
    [done|].
  intros [= <-]. apply export_entries_ok in E. split_and!.
  - eapply strongly_sorted_impl; [|apply sort_stable with (R := fun _ _ => True)].
    + by intros r1 r2 [H _].
    + intros r1 r2. apply String.leb_total.
    + intros r1 r2 r3. apply leb_trans_string.
    + apply strongly_sorted_any.
  - rewrite sort_perm. apply Forall_forall. intros row Hrow.
    apply list_elem_of_lookup in Hrow as [k Hk].
    destruct (Forall2_lookup_r _ _ _ _ _ E Hk) as (i & _ & Hi).
    unfold Maintenance.export_entry in Hi.
    destruct (Maintenance.first_value "home" i); [done|].
    destruct (Maintenance.state_column i); [done|].
    by injection Hi as <-.
  - rewrite sort_perm. symmetry. by eapply Forall2_length.
Qed.

Lemma export_json_rows_witness :
  ∃ rows,
    Maintenance.export_json id
      [game "B" "mature" "https://example.org/b.git";
       game "A" "beta" "https://example.org/a.git"] = inr rows
    ∧ StronglySorted
        (fun r1 r2 => String.leb (hd EmptyString r1) (hd EmptyString r2) = true)
        rows
    ∧ Forall (fun row => length row = length Maintenance.headings) rows
    ∧ length rows = 2.
Proof.
  eexists. split; [vm_compute; reflexivity|].
  apply (export_json_rows id
           [game "B" "mature" "https://example.org/b.git";
            game "A" "beta" "https://example.org/a.git"]).
  vm_compute. reflexivity.
Defined.

(** * The lists of the repositories *)

Lemma tests_give_back shared system test repo url :
  (system, test) ∈ Maintenance.systems shared →
  test repo = Some url → url = repo ∧ url ≠ EmptyString.
Proof.
  unfold Maintenance.systems. rewrite !elem_of_cons, elem_of_nil.
  intros [[= -> ->]|[[= -> ->]|[[= -> ->]|[[= -> ->]|[]]]]].
  - unfold Maintenance.git_repo.
    destruct repo as [|c r]; [by vm_compute|].
    repeat (destruct (_ : bool)); by intros [= <-].
  - unfold Maintenance.svn_repo.
    destruct repo as [|c r]; [destruct shared; by vm_compute|].
    repeat (destruct (_ : bool)); by intros [= <-].
  - unfold Maintenance.hg_repo.
    destruct repo as [|c r]; [by vm_compute|].
    repeat (destruct (_ : bool)); by intros [= <-].
  - unfold Maintenance.bzr_repo.
    destruct repo as [|c r]; [by vm_compute|].
    repeat (destruct (_ : bool)); by intros [= <-].
Qed.

(** X14: each of the four tests gives its argument back or nothing: the
    repository is never changed, and what a test gives back is never the
    empty text, so that it always counts as true. *)
Theorem test_returns_repository shared system test repo url :
  (system, test) ∈ Maintenance.systems shared →
  test repo = Some url → url = repo ∧ url ≠ EmptyString.
Proof. apply tests_give_back. Qed.

Lemma test_returns_repository_witness :
  "https://github.com/x/y.git" = "https://github.com/x/y.git"
  ∧ "https://github.com/x/y.git" ≠ EmptyString.
Proof.
  apply (test_returns_repository false "git" (Maintenance.git_repo)
           "https://github.com/x/y.git" "https://github.com/x/y.git").
  - left.
  - vm_compute. reflexivity.
Defined.

Lemma file_under_find tests u st :
  (∀ system test url, (system, test) ∈ tests → test u = Some url → url = u) →
  Maintenance.file_under tests u st
  = match fst <$> List.find (fun t => takes (snd t) u) tests with
    | Some system => Maintenance.consume system u st
    | None => st
    end.
Proof.
  induction tests as [|[system test] tests IH]; intros H; [done|].
  cbn [Maintenance.file_under List.find]. unfold takes at 1. cbn [snd].
  destruct (test u) as [url|] eqn:E.
  - rewrite (H system test url) by (by left || done).
    destruct (Osg.nonempty u); [done|].
    apply IH. intros s t w ?. apply (H s t w). by right.
  - apply IH. intros s t w ?. apply (H s t w). by right.
Qed.

Section ListFacts.
Variable shared : bool.

Lemma file_repo_system st repo :
  Maintenance.file_repo shared st repo
  = match system_of shared (Maintenance.clean repo) with
    | Some system => Maintenance.consume system (Maintenance.clean repo) st
    | None => st
    end.
Proof.
  unfold Maintenance.file_repo, system_of. apply file_under_find.
  intros system test url Hin Ht.
  by destruct (tests_give_back shared system test _ url Hin Ht).
Qed.

(** What the urls of a list add to the list of a system. *)
Lemma file_repos_lookup urls st k :
  Maintenance.primary_repos (fold_left (Maintenance.file_repo shared) urls st) !! k
  = (fun l => l ++ List.filter
                     (fun url => bool_decide (system_of shared url = Some k))
                     (map Maintenance.clean urls))
      <$> Maintenance.primary_repos st !! k.
Proof.
  revert st. induction urls as [|repo urls IH]; intros st.
  - cbn. destruct (_ !! k); [|done]. cbn. by rewrite app_nil_r.
  - cbn [fold_left map List.filter]. rewrite IH, file_repo_system.
    destruct (system_of shared (Maintenance.clean repo)) as [system|] eqn:E.
    + cbn [Maintenance.consume Maintenance.primary_repos].
      rewrite lookup_alter. destruct (decide (system = k)) as [->|Hne].
      * rewrite bool_decide_eq_true_2 by done.
        destruct (_ !! k); [|done]. cbn. by rewrite <- app_assoc.
      * rewrite bool_decide_eq_false_2 by congruence. done.
    + by rewrite bool_decide_eq_false_2.
Qed.

Lemma file_entry_lookup st i k :
  Maintenance.primary_repos (Maintenance.file_entry shared st i) !! k
  = (fun l => l ++ entry_urls shared k i) <$> Maintenance.primary_repos st !! k.
Proof.
  unfold Maintenance.file_entry, entry_urls.
  destruct (Maintenance.raw i !! "code repository") as [repos|].
  - destruct (Osg.nonempty repos).
    + destruct (Maintenance.consumed _); cbn [Maintenance.primary_repos];
        by rewrite file_repos_lookup.
    + cbn. destruct (_ !! k); [|done]. cbn. by rewrite app_nil_r.
  - destruct (_ !! k); [|done]. cbn. by rewrite app_nil_r.
Qed.

Lemma file_entries_lookup infois st k :
  Maintenance.primary_repos (fold_left (Maintenance.file_entry shared) infois st) !! k
  = (fun l => l ++ filed_urls shared k infois)
      <$> Maintenance.primary_repos st !! k.
Proof.
  unfold filed_urls. revert st. induction infois as [|i infois IH]; intros st.
  - cbn. destruct (_ !! k); [|done]. cbn. by rewrite app_nil_r.
  - cbn [fold_left flat_map]. rewrite IH, file_entry_lookup.
    destruct (_ !! k); [|done]. cbn. by rewrite <- app_assoc.
Qed.

(** The dictionary that the function writes: under each of the four systems
    the sorted set of the urls filed under it, and no other key. *)
Lemma primary_repos_lookup infois k :
  fst (Maintenance.update_primary_code_repositories shared infois) !! k
  = if bool_decide (k ∈ ["git"; "svn"; "hg"; "bzr"])
    then Some (Maintenance.sorted_set (filed_urls shared k infois))
    else None.
Proof.
  unfold Maintenance.update_primary_code_repositories. cbn [fst].
  rewrite lookup_fmap, file_entries_lookup. cbn [Maintenance.primary_repos].
  destruct (bool_decide _) eqn:E.
  - apply bool_decide_eq_true in E. revert E.
    rewrite !elem_of_cons, elem_of_nil.
    by intros [->|[->|[->|[->|[]]]]].
  - apply bool_decide_eq_false in E. revert E.
    rewrite !elem_of_cons, elem_of_nil. intros E.
    unfold Maintenance.no_repos.
    rewrite !lookup_insert_ne, lookup_empty by (intros <-; tauto). done.
Qed.
End ListFacts.

Lemma leb_ne_ltb x y : String.leb x y = true → x ≠ y → String.ltb x y = true.
Proof.
  unfold String.leb, String.ltb. intros H Hne.
  destruct (String.compare x y) eqn:E; [|done..].
  by apply String.compare_eq_iff in E.
Qed.

(** The sorted set of a list: its elements, in strictly ascending order. *)
Lemma sorted_set_spec v :
  StronglySorted (fun x y => String.ltb x y = true) (Maintenance.sorted_set v)
  ∧ ∀ x, x ∈ Maintenance.sorted_set v ↔ x ∈ v.
Proof.
  unfold Maintenance.sorted_set.
  assert (Hp : Py.sort String.leb (remove_dups v) ≡ₚ remove_dups v)
    by apply sort_perm.
  split.
  - assert (Hnd : NoDup (Py.sort String.leb (remove_dups v)))
      by (rewrite Hp; apply NoDup_remove_dups).
    assert (Hs : StronglySorted (fun x y => String.leb x y = true)
                   (Py.sort String.leb (remove_dups v))).
    { eapply strongly_sorted_impl;
        [|apply sort_stable with (R := fun _ _ => True)].
      - by intros x y [H _].
      - apply String.leb_total.
      - apply leb_trans_string.
      - apply strongly_sorted_any. }
    revert Hnd Hs. generalize (Py.sort String.leb (remove_dups v)).
    intros l. induction l as [|x l IH]; intros Hnd Hs; [constructor|].
    apply NoDup_cons in Hnd as [Hx Hnd].
    apply StronglySorted_inv in Hs as [Hs Hall].
    constructor; [by apply IH|].
    rewrite Forall_forall in Hall. apply Forall_forall. intros y Hy.
    apply leb_ne_ltb; [by apply Hall|]. by intros ->.
  - intros x. by rewrite Hp, elem_of_remove_dups.
Qed.

(** X15: the dictionary that [update_primary_code_repositories] writes has
    the four keys git, svn, hg and bzr and no other, and each of its lists is
    in strictly ascending order, so without any url twice. *)
Theorem primary_repos_sorted shared infois :
  let repos := fst (Maintenance.update_primary_code_repositories shared infois) in
  (∀ k, is_Some (repos !! k) ↔ k ∈ ["git"; "svn"; "hg"; "bzr"])
  ∧ ∀ k l, repos !! k = Some l →
           StronglySorted (fun x y => String.ltb x y = true) l.
Proof.
  intros repos. subst repos. split.
  - intros k. rewrite primary_repos_lookup.
    destruct (bool_decide _) eqn:E.
    + apply bool_decide_eq_true in E. split; [done|by eexists].
    + apply bool_decide_eq_false in E. split; [by intros [? ?]|done].
  - intros k l. rewrite primary_repos_lookup.
    destruct (bool_decide _); [|done]. intros [= <-]. apply sorted_set_spec.
Qed.

(** X16: a url is in the list of a system exactly when it is the cleaned
    text (without remarks and outer blanks) of a repository that is kept of
    the raw field of some entry, the first one or one with the marker, and
    the test of the system is the first of git, svn, hg and bzr that takes
    it. *)
Theorem primary_repos_members shared infois k l url :
  fst (Maintenance.update_primary_code_repositories shared infois) !! k = Some l →
  url ∈ l
  ↔ ∃ (i : Maintenance.info) repos repo,
      i ∈ infois
      ∧ Maintenance.raw i !! "code repository" = Some repos
      ∧ repos ≠ EmptyString
      ∧ repo ∈ Maintenance.retained repos
      ∧ url = Maintenance.clean repo
      ∧ system_of shared url = Some k.
Proof.
  rewrite primary_repos_lookup. destruct (bool_decide _); [|done].
  intros [= <-]. rewrite (proj2 (sorted_set_spec _)).
  unfold filed_urls. rewrite list_elem_of_In, in_flat_map. split.
  - intros (i & Hi & Hu). exists i. unfold entry_urls in Hu.
    destruct (Maintenance.raw i !! "code repository") as [repos|]; [|done].
    destruct (Osg.nonempty repos) eqn:Hne; [|done].
    apply filter_In in Hu as [(repo & <- & Hr)%in_map_iff Hs].
    exists repos, repo. apply bool_decide_eq_true in Hs.
    split_and!; try done; [by apply list_elem_of_In|by apply nonempty_inv
                          |by apply list_elem_of_In].
  - intros (i & repos & repo & Hi & Hraw & Hne & Hr & -> & Hs).
    exists i. split; [by apply list_elem_of_In|].
    unfold entry_urls. rewrite Hraw, nonempty_true by done.
    apply filter_In. split; [|by apply bool_decide_eq_true].
    apply in_map. by apply list_elem_of_In.
Qed.

Lemma primary_repos_members_witness :
  "https://github.com/x/y.git" ∈ ["https://github.com/x/y.git"]
  ↔ ∃ (i : Maintenance.info) repos repo,
      i ∈ [game "A" "mature" "https://github.com/x/y.git (main), https://example.com/z (+)"]
      ∧ Maintenance.raw i !! "code repository" = Some repos
      ∧ repos ≠ EmptyString
      ∧ repo ∈ Maintenance.retained repos
      ∧ "https://github.com/x/y.git" = Maintenance.clean repo
      ∧ system_of false "https://github.com/x/y.git" = Some "git".
Proof.
  apply (primary_repos_members false
           [game "A" "mature" "https://github.com/x/y.git (main), https://example.com/z (+)"]
           "git").
  vm_compute. reflexivity.
Defined.

(** * The canonical name of an entry *)

Lemma all_chars_app p a b :
  all_chars p (a +:+ b) = all_chars p a && all_chars p b.
Proof.
  induction a as [|c a IH]; [done|].
  rewrite app_cons. cbn [all_chars]. by rewrite IH, andb_assoc.
Qed.

Lemma all_chars_split_from p sep s skip :
  all_chars p s = true →
  Forall (fun x => all_chars p x = true) (Py.split_from sep s skip).
Proof.
  revert skip. induction s as [|c s IH]; intros skip H.
  - by repeat constructor.
  - cbn [all_chars] in H. apply andb_true_iff in H as [Hc Hs].
    cbn [Py.split_from]. destruct skip as [|k]; [|by apply IH].
    destruct (String.prefix sep (String c s)).
    + constructor; [done|by apply IH].
    + specialize (IH 0 Hs).
      destruct (Py.split_from sep s 0) as [|x xs].
      * repeat constructor. cbn [all_chars]. by rewrite Hc.
      * apply Forall_cons in IH as [Hx Hxs].
        constructor; [|done]. cbn [all_chars]. by rewrite Hc, Hx.
Qed.

Lemma all_chars_join p sep l :
  all_chars p sep = true →
  Forall (fun x => all_chars p x = true) l →
  all_chars p (Py.join sep l) = true.
Proof.
  intros Hsep. induction 1 as [|x l Hx Hl IH]; [done|].
  cbn [Py.join]. destruct l as [|y l]; [done|].
  rewrite !all_chars_app, Hx, Hsep. by rewrite IH.
Qed.

Lemma all_chars_replace p s old new :
  all_chars p s = true → all_chars p new = true →
  all_chars p (Py.replace s old new) = true.
Proof.
  intros Hs Hnew. unfold Py.replace, Py.split.
  by apply all_chars_join, all_chars_split_from.
Qed.

Lemma all_chars_impl (p q : ascii → bool) s :
  (∀ c, p c = true → q c = true) →
  all_chars p s = true → all_chars q s = true.
Proof.
  intros Hpq. induction s as [|c s IH]; [done|].
  cbn [all_chars]. intros [Hc Hs]%andb_true_iff.
  by rewrite (Hpq c Hc), IH.
Qed.

Lemma casefold_char_no_capital c :
  all_chars no_capital (Osg.casefold_char c) = true.
Proof. by destruct c as [[] [] [] [] [] [] [] []]; vm_compute. Qed.

Lemma casefold_no_capital s : all_chars no_capital (Osg.casefold s) = true.
Proof.
  induction s as [|c s IH]; [done|].
  cbn [Osg.casefold]. by rewrite all_chars_app, casefold_char_no_capital, IH.
Qed.

Lemma sanitize_name_chars s :
  all_chars no_capital s = true →
  all_chars (fun c => Osg.name_char c && no_capital c) (Osg.sanitize_name s)
  = true.
Proof.
  induction s as [|c s IH]; [done|].
  cbn [all_chars Osg.sanitize_name]. intros [Hc Hs]%andb_true_iff.
  destruct (Osg.name_char c) eqn:E; [|by apply IH].
  cbn [all_chars]. by rewrite E, Hc, IH.
Qed.

Lemma name_char_file_name_char c :
  Osg.name_char c && no_capital c = true → Ascii.eqb c " " = false →
  file_name_char c = true.
Proof. by destruct c as [[] [] [] [] [] [] [] []]; vm_compute. Qed.

Lemma eat_spaces_chars in_run s :
  all_chars (fun c => Osg.name_char c && no_capital c) s = true →
  all_chars file_name_char (Osg.eat_spaces in_run s) = true.
Proof.
  revert in_run. induction s as [|c s IH]; intros in_run; [done|].
  cbn [all_chars Osg.eat_spaces]. intros [Hc Hs]%andb_true_iff.
  destruct (Ascii.eqb c " ") eqn:E.
  - destruct in_run; [by apply IH|].
    cbn [all_chars]. by rewrite IH.
  - cbn [all_chars]. by rewrite (name_char_file_name_char c Hc E), IH.
Qed.

(** X17: the canonical name of an entry is made of small letters of the
    English alphabet, digits, minus signs, plus signs and underscores
    only, whatever the name of the entry is: it holds no blank, no capital
    and no path separator. *)
Theorem canonical_entry_name_alphabet name :
  all_chars file_name_char (Osg.canonical_entry_name name) = true.
Proof.
  unfold Osg.canonical_entry_name.
  repeat (apply all_chars_replace; [|done]).
  apply eat_spaces_chars, sanitize_name_chars.
  repeat (apply all_chars_replace; [|done]).
  apply casefold_no_capital.
Qed.

(** * Games, tools, frameworks and libraries *)

Lemma filter_raising_ok test (p : Osg.info → bool) infos :
  (∀ x, x ∈ infos → test x = Osg.Ok (p x)) →
  Osg.filter_raising test infos = Osg.Ok (List.filter p infos).
Proof.
  induction infos as [|x infos IH]; intros H; [done|].
  cbn [Osg.filter_raising List.filter].
  rewrite (H x) by left. cbn [mbind Osg.result_bind Osg.bind].
  rewrite IH by (intros y Hy; apply H; by right).
  cbn [mbind Osg.result_bind Osg.bind]. by destruct (p x).
Qed.

Lemma filter_raising_raise test infos x e :
  x ∈ infos → test x = Osg.Raise e →
  (∀ y e', test y = Osg.Raise e' → e' = e) →
  Osg.filter_raising test infos = Osg.Raise e.
Proof.
  intros Hx Hr Hall. induction infos as [|y infos IH];
    [by apply elem_of_nil in Hx|].
  cbn [Osg.filter_raising].
  destruct (test y) as [b|e'] eqn:Ey; cbn [mbind Osg.result_bind Osg.bind].
  - apply elem_of_cons in Hx as [->|Hx]; [congruence|].
    by rewrite (IH Hx).
  - by rewrite (Hall _ _ Ey).
Qed.

Lemma filter_sublist {A} (p : A → bool) (l : list A) :
  sublist (List.filter p l) l.
Proof.
  induction l as [|x l IH]; [constructor|].
  cbn [List.filter]. destruct (p x); by constructor.
Qed.

Lemma elem_of_bool_filter {A} (p : A → bool) (l : list A) x :
  x ∈ List.filter p l ↔ x ∈ l ∧ p x = true.
Proof. rewrite !list_elem_of_In, filter_In. tauto. Qed.

Lemma keywords_ok x k :
  Osg.values x !! "keywords" = Some k → Osg.keywords x = Osg.Ok k.
Proof. unfold Osg.keywords. by intros ->. Qed.

Lemma mem_true y (k : list string) : Py.mem y k = true ↔ y ∈ k.
Proof. unfold Py.mem. apply bool_decide_eq_true. Qed.

(** X18: [split_infos] returns its four lists exactly when every entry has
    keywords, and raises the KeyError of the key keywords otherwise. The
    four lists keep the order of the entries; the tools, the frameworks and
    the libraries are the entries with that keyword, and the games are the
    entries that are in none of the three other lists. *)
Theorem split_infos_partition infos :
  ((∃ r, Osg.split_infos infos = Osg.Ok r)
   ↔ ∀ x, x ∈ infos → is_Some (Osg.values x !! "keywords"))
  ∧ (∀ e, Osg.split_infos infos = Osg.Raise e → e = Osg.KeyError "keywords")
  ∧ ∀ games tools frameworks libraries,
      Osg.split_infos infos = Osg.Ok (games, tools, frameworks, libraries) →
      (sublist games infos ∧ sublist tools infos
       ∧ sublist frameworks infos ∧ sublist libraries infos)
      ∧ (∀ x, x ∈ tools ↔ x ∈ infos ∧ tagged "tool" x)
      ∧ (∀ x, x ∈ frameworks ↔ x ∈ infos ∧ tagged "framework" x)
      ∧ (∀ x, x ∈ libraries ↔ x ∈ infos ∧ tagged "library" x)
      ∧ (∀ x, x ∈ games
              ↔ x ∈ infos
                ∧ ¬ (x ∈ tools ∨ x ∈ frameworks ∨ x ∈ libraries)).
Proof.
  set (kw := fun x => default [] (Osg.values x !! "keywords")).
  destruct (decide (Forall (fun x => is_Some (Osg.values x !! "keywords"))
                           infos)) as [Hall|Hnot].
  - rewrite Forall_forall in Hall.
    assert (Hk : ∀ x, x ∈ infos → Osg.keywords x = Osg.Ok (kw x)).
    { intros x Hx. destruct (Hall x Hx) as [k Hk].
      unfold kw. rewrite Hk. by apply keywords_ok. }
    assert (Hhas : ∀ y, Osg.filter_raising (Osg.has_keyword y) infos
                        = Osg.Ok (List.filter (fun x => Py.mem y (kw x)) infos)).
    { intros y. apply filter_raising_ok. intros x Hx.
      unfold Osg.has_keyword. by rewrite (Hk x Hx). }
    assert (Hsplit : Osg.split_infos infos
      = Osg.Ok (List.filter
                  (fun x => negb (existsb (fun y => Py.mem y (kw x))
                                          ["tool"; "framework"; "library"]))
                  infos,
                List.filter (fun x => Py.mem "tool" (kw x)) infos,
                List.filter (fun x => Py.mem "framework" (kw x)) infos,
                List.filter (fun x => Py.mem "library" (kw x)) infos)).
    { unfold Osg.split_infos. rewrite !Hhas.
      rewrite (filter_raising_ok _
                 (fun x => negb (existsb (fun y => Py.mem y (kw x))
                                         ["tool"; "framework"; "library"])))
        by (intros x Hx; cbn beta; by rewrite (Hk x Hx)).
      done. }
    assert (Htag : ∀ y x, x ∈ infos →
                          (Py.mem y (kw x) = true ↔ tagged y x)).
    { intros y x Hx. rewrite mem_true. unfold tagged, kw.
      destruct (Hall x Hx) as [k ->]. cbn [default]. split.
      - intros Hy. by exists k.
      - by intros (k' & [= <-] & Hy). }
    split; [|split].
    + split; [done|]. intros _. by eexists.
    + intros e He. by rewrite Hsplit in He.
    + intros games tools frameworks libraries H.
      rewrite Hsplit in H. injection H as <- <- <- <-.
      split; [by split_and!; apply filter_sublist|].
      assert (Hin : ∀ y x, x ∈ List.filter (fun x => Py.mem y (kw x)) infos
                           ↔ x ∈ infos ∧ tagged y x).
      { intros y x. rewrite elem_of_bool_filter. split.
        - intros [Hx Hy]. split; [done|]. by apply Htag.
        - intros [Hx Hy]. split; [done|]. by apply Htag. }
      split_and!; try apply Hin.
      intros x. rewrite elem_of_bool_filter, !Hin. cbn [existsb].
      rewrite orb_false_r, negb_true_iff, !orb_false_iff.
      split.
      * intros (Hx & Ht & Hf & Hl). split; [done|].
        intros [[_ Hy]|[[_ Hy]|[_ Hy]]]; apply (Htag _ _ Hx) in Hy; congruence.
      * intros (Hx & Hno).
        split_and!; [done|..]; apply not_true_is_false; intros Hy;
          apply (Htag _ _ Hx) in Hy; tauto.
  - apply not_Forall_Exists in Hnot; [|apply _].
    apply Exists_exists in Hnot as (x & Hx & Hnone).
    assert (Hkx : Osg.values x !! "keywords" = None).
    { destruct (Osg.values x !! "keywords") eqn:E; [|done].
      exfalso. apply Hnone. by rewrite E. }
    assert (Hr : Osg.split_infos infos = Osg.Raise (Osg.KeyError "keywords")).
    { assert (Hraise : ∀ f : list string → bool,
                Osg.filter_raising
                  (fun x => k ← Osg.keywords x; Osg.Ok (f k)) infos
                = Osg.Raise (Osg.KeyError "keywords")).
      { intros f. apply (filter_raising_raise _ infos x _ Hx).
        - unfold Osg.keywords. by rewrite Hkx.
        - intros y e'. unfold Osg.keywords.
          destruct (Osg.values y !! "keywords"); [done|].
          by intros [= <-]. }
      unfold Osg.split_infos.
      by rewrite (Hraise (fun k => negb (existsb (fun y => Py.mem y k)
                                           ["tool"; "framework"; "library"]))). }
    split; [|split].
    + split.
      * intros [r Hok]. by rewrite Hr in Hok.
      * intros Hall. destruct (Hall x Hx) as [k Hk]. congruence.
    + intros e He. rewrite Hr in He. by injection He as <-.
    + intros ? ? ? ? H. by rewrite Hr in H.
Qed.

(** * The entries of [maintenance.py] *)

Lemma maintenance_store_fields_spec content fields i i' :
  NoDup (map Py.lower fields) →
  Maintenance.store_fields content fields i = Maintenance.Ok i' →
  (Maintenance.title i' = Maintenance.title i
   ∧ Maintenance.description i' = Maintenance.description i
   ∧ Maintenance.inactive i' = Maintenance.inactive i)
  ∧ (∀ k, k ∉ map Py.lower fields →
          Maintenance.raw i' !! k = Maintenance.raw i !! k
          ∧ Maintenance.values i' !! k = Maintenance.values i !! k)
  ∧ (∀ f, f ∈ fields →
          ∃ v, Osg.find_field_values f content = [v]
               ∧ Maintenance.raw i' !! Py.lower f = Some v
               ∧ Maintenance.values i' !! Py.lower f
                 = match Osg.decode "," v with
                   | [] => Maintenance.values i !! Py.lower f
                   | d => Some d
                   end).
Proof.
  revert i. induction fields as [|f fields IH]; intros i Hnd Hst.
  - injection Hst as <-. split_and!; try done. by intros f ?%elem_of_nil.
  - cbn [map] in Hnd. apply NoDup_cons in Hnd as [Hf Hnd].
    cbn [Maintenance.store_fields] in Hst.
    destruct (Osg.find_field_values f content) as [|v [|]] eqn:Hv; try done.
    set (i1 := Maintenance.set_raw (Py.lower f) v i) in Hst.
    set (i2 := match Osg.decode "," v with
               | [] => i1
               | _ => Maintenance.set_values (Py.lower f) (Osg.decode "," v) i1
               end).
    assert (Hst2 : Maintenance.store_fields content fields i2
                   = Maintenance.Ok i')
      by (subst i2; by destruct (Osg.decode "," v)).
    destruct (IH i2 Hnd Hst2) as ((Hn & Hd & Hi) & Hout & Hin).
    assert (Hraw2 : ∀ k, Maintenance.raw i2 !! k
                         = if decide (Py.lower f = k) then Some v
                           else Maintenance.raw i !! k).
    { intros k. subst i2 i1. destruct (Osg.decode "," v); simpl;
        by rewrite lookup_insert. }
    assert (Hval2 : ∀ k, Maintenance.values i2 !! k
                         = if decide (Py.lower f = k)
                           then match Osg.decode "," v with
                                | [] => Maintenance.values i !! k
                                | d => Some d
                                end
                           else Maintenance.values i !! k).
    { intros k. subst i2 i1. destruct (Osg.decode "," v) eqn:E; simpl.
      - by destruct (decide _).
      - by rewrite lookup_insert. }
    split_and!.
    + rewrite Hn. subst i2 i1. by destruct (Osg.decode "," v).
    + rewrite Hd. subst i2 i1. by destruct (Osg.decode "," v).
    + rewrite Hi. subst i2 i1. by destruct (Osg.decode "," v).
    + intros k Hk. cbn [map] in Hk. apply not_elem_of_cons in Hk as [Hne Hk].
      destruct (Hout k Hk) as [-> ->]. rewrite Hraw2, Hval2.
      by rewrite !decide_False.
    + intros g [->|Hg]%elem_of_cons.
      * exists v. destruct (Hout (Py.lower f) Hf) as [-> ->].
        rewrite Hraw2, Hval2. by rewrite !decide_True.
      * destruct (Hin g Hg) as (w & Hw & Hr & Hval). exists w.
        split_and!; [done..|]. rewrite Hval, Hval2.
        rewrite decide_False; [done|]. intros E. apply Hf. rewrite E.
        apply list_elem_of_In, in_map. by apply list_elem_of_In.
Qed.

Lemma maintenance_store_fields_one_value content fields i i' :
  Maintenance.store_fields content fields i = Maintenance.Ok i' →
  ∀ f, f ∈ fields → length (Osg.find_field_values f content) = 1.
Proof.
  revert i. induction fields as [|g fields IH]; intros i Hst f Hf;
    [by apply elem_of_nil in Hf|].
  cbn [Maintenance.store_fields] in Hst.
  destruct (Osg.find_field_values g content) as [|v [|]] eqn:Hv; try done.
  apply elem_of_cons in Hf as [->|Hf]; [by rewrite Hv|].
  destruct (Osg.decode "," v); by eapply IH.
Qed.

(** The loop over the fields stops on its assertion only. *)
Lemma maintenance_store_fields_stop content fields i s :
  Maintenance.store_fields content fields i = Maintenance.Stop s →
  s = Maintenance.Exception Maintenance.AssertionError
  ∧ ∃ f, f ∈ fields ∧ length (Osg.find_field_values f content) ≠ 1.
Proof.
  revert i. induction fields as [|g fields IH]; intros i Hst; [done|].
  cbn [Maintenance.store_fields] in Hst.
  destruct (Osg.find_field_values g content) as [|v [|w l]] eqn:Hv.
  - injection Hst as <-. split; [done|]. exists g. rewrite Hv.
    split; [by left|done].
  - assert (∃ j, Maintenance.store_fields content fields j
                 = Maintenance.Stop s) as [j Hj]
      by (destruct (Osg.decode "," v); by eexists).
    destruct (IH j Hj) as (-> & f & Hf & Hlen).
    split; [done|]. exists f. split; [by right|done].
  - injection Hst as <-. split; [done|]. exists g. rewrite Hv.
    split; [by left|done].
Qed.

Lemma maintenance_store_fields_total content fields i :
  (∀ f, f ∈ fields → length (Osg.find_field_values f content) = 1) →
  ∃ i', Maintenance.store_fields content fields i = Maintenance.Ok i'.
Proof.
  intros H.
  destruct (Maintenance.store_fields content fields i) as [i'|s] eqn:E;
    [by eexists|].
  apply maintenance_store_fields_stop in E as (_ & f & Hf & Hlen).
  by destruct (Hlen (H f Hf)).
Qed.

Lemma find_essential_maintenance fields :
  List.find (fun f => negb (Py.mem f fields)) Maintenance.essential_fields
  = None
  ↔ ∀ f, f ∈ Maintenance.essential_fields → f ∈ fields.
Proof.
  split.
  - intros H f Hf. apply (find_none_all _ _ H) in Hf.
    apply negb_false_iff in Hf. by apply bool_decide_eq_true in Hf.
  - intros H. apply find_all_false. intros f Hf.
    unfold Py.mem. rewrite bool_decide_eq_true_2; auto.
Qed.

Lemma maintenance_lower_valid_fields_nodup :
  NoDup (map Py.lower Maintenance.valid_fields).
Proof. compute_done. Qed.

(** The fields of a text that has passed the order check and of which every
    field has one value. *)
Lemma maintenance_fields_distinct content :
  Osg.order_scan Maintenance.valid_fields (Osg.find_fields content) = None →
  (∀ f, f ∈ Osg.find_fields content →
        length (Osg.find_field_values f content) = 1) →
  NoDup (Osg.find_fields content)
  ∧ (∀ f, f ∈ Osg.find_fields content → f ∈ Maintenance.valid_fields)
  ∧ NoDup (map Py.lower (Osg.find_fields content)).
Proof.
  intros Hscan Hone.
  assert (Hnd : NoDup (Osg.find_fields content))
    by by apply one_value_fields_nodup.
  assert (Hv : ∀ f, f ∈ Osg.find_fields content → f ∈ Maintenance.valid_fields).
  { apply (scan_passed_valid _ _ 0);
      [apply maintenance_valid_fields_nodup|lia|done]. }
  split_and!; [done..|].
  apply (NoDup_fmap_2_strong Py.lower); [|done].
  intros x y Hx Hy. apply (nodup_map_inj _ Maintenance.valid_fields);
    [apply maintenance_lower_valid_fields_nodup|auto..].
Qed.

(** What a run of [Maintenance.parse_entry] that returns a dictionary has
    done: after a title and a description it has either stopped at one of
    the two checks on the fields, with nothing but the two in the
    dictionary, or read the values and found a state. *)
Lemma maintenance_parse_entry_kept content i :
  kept (Maintenance.parse_entry content) = Some i →
  titled content (Maintenance.title i) (Maintenance.description i)
  ∧ ((¬ fields_pass content
      ∧ Maintenance.raw i = ∅ ∧ Maintenance.values i = ∅
      ∧ Maintenance.inactive i = None)
     ∨ (fields_pass content
        ∧ ∃ i0 v,
            Maintenance.store_fields content (Osg.find_fields content)
              (Maintenance.Info (Maintenance.title i)
                 (Maintenance.description i) ∅ ∅ None EmptyString
                 EmptyString EmptyString) = Maintenance.Ok i0
            ∧ Maintenance.raw i = Maintenance.raw i0
            ∧ Maintenance.values i = Maintenance.values i0
            ∧ Maintenance.values i0 !! "state" = Some v
            ∧ (Maintenance.parse_entry content = Maintenance.Ok i →
               Maintenance.check_state v = None
               ∧ Maintenance.inactive i = head (Osg.inactive_year v)
               ∧ length (Osg.inactive_year v) ≤ 1
               ∧ ∀ p, Maintenance.values i !! "platform" = Some p →
                      ∀ x, x ∈ p → x ∈ Maintenance.valid_platforms))).
Proof.
  unfold Maintenance.parse_entry, titled, fields_pass.
  destruct (Osg.find_name content) as [|n [|]] eqn:Hn; try done.
  destruct (Osg.nonempty n) eqn:Hne; try done.
  destruct (Osg.find_description content) as [|d [|]] eqn:Hd; try done.
  destruct (Osg.nonempty d) eqn:Hde; try done.
  apply nonempty_inv in Hne, Hde.
  cbn [mbind Maintenance.result_bind].
  destruct (List.find _ Maintenance.essential_fields) as [f|] eqn:Hess.
  { intros [= <-]. split; [done|]. left. split_and!; try done.
    intros [Hall _]. apply find_essential_maintenance in Hall. congruence. }
  pose proof (proj1 (find_essential_maintenance _) Hess) as Hall.
  destruct (Osg.order_scan Maintenance.valid_fields _) as [f|] eqn:Hscan.
  { intros [= <-]. split; [done|]. left. split_and!; try done.
    by intros [_ ?]. }
  destruct (Maintenance.store_fields _ _ _) as [i0|s] eqn:Hst.
  2:{ apply maintenance_store_fields_stop in Hst as [-> _]. done. }
  cbn [mbind Maintenance.result_bind].
  pose proof (maintenance_store_fields_one_value _ _ _ _ Hst) as Hone.
  destruct (maintenance_fields_distinct _ Hscan Hone) as (_ & _ & Hnd).
  destruct (maintenance_store_fields_spec _ _ _ _ Hnd Hst)
    as ((Ht & Hdd & Hina) & _).
  cbn in Ht, Hdd, Hina.
  destruct (Maintenance.values i0 !! "state") as [v|] eqn:Hv; [|done].
  destruct (Maintenance.check_state v) as [c|] eqn:Hcs.
  { intros [= <-]. rewrite Ht, Hdd. split; [done|]. right.
    split; [done|]. exists i0, v. by split_and!. }
  destruct (Osg.inactive_year v) as [|y [|]] eqn:Hy; [| |done].
  - cbn [mbind Maintenance.result_bind].
    destruct (Maintenance.values i0 !! "platform") as [p|] eqn:Hp.
    + destruct (List.find _ p) as [x|] eqn:Hx.
      * intros [= <-]. rewrite Ht, Hdd. split; [done|]. right.
        split; [done|]. exists i0, v. by split_and!.
      * intros [= <-]. rewrite Ht, Hdd. split; [done|]. right.
        split; [done|]. exists i0, v. split_and!; try done.
        intros _. rewrite Hy, Hina. split_and!; [done|done|simpl; lia|].
        intros p' Hp' x Hx'. rewrite Hp in Hp'. injection Hp' as <-.
        apply (find_none_all _ _ Hx) in Hx'.
        apply negb_false_iff in Hx'. by apply bool_decide_eq_true in Hx'.
    + intros [= <-]. rewrite Ht, Hdd. split; [done|]. right.
      split; [done|]. exists i0, v. split_and!; try done.
      intros _. rewrite Hy, Hina. split_and!; [done|done|simpl; lia|].
      intros p' Hp'. rewrite Hp in Hp'. done.
  - cbn [mbind Maintenance.result_bind].
    change (Maintenance.values (Maintenance.set_inactive y i0))
      with (Maintenance.values i0).
    destruct (Maintenance.values i0 !! "platform") as [p|] eqn:Hp.
    + destruct (List.find _ p) as [x|] eqn:Hx.
      * intros [= <-]. cbn. rewrite Ht, Hdd. split; [done|]. right.
        split; [done|]. exists i0, v. by split_and!.
      * intros [= <-]. cbn. rewrite Ht, Hdd. split; [done|]. right.
        split; [done|]. exists i0, v. split_and!; try done.
        intros _. rewrite Hy. split_and!; [done|done|simpl; lia|].
        intros p' Hp' x Hx'. rewrite Hp in Hp'. injection Hp' as <-.
        apply (find_none_all _ _ Hx) in Hx'.
        apply negb_false_iff in Hx'. by apply bool_decide_eq_true in Hx'.
    + intros [= <-]. cbn. rewrite Ht, Hdd. split; [done|]. right.
      split; [done|]. exists i0, v. split_and!; try done.
      intros _. rewrite Hy. split_and!; [done|done|simpl; lia|].
      intros p' Hp'. rewrite Hp in Hp'. done.
Qed.

Lemma maintenance_check_state_passed v :
  Maintenance.check_state v = None →
  recognized v ∧ ¬ ("beta" ∈ v ∧ "mature" ∈ v).
Proof.
  unfold Maintenance.check_state.
  destruct (List.find _ v) eqn:Hf; [done|].
  destruct (Osg.beta_mature_test v) eqn:Hb; [done|]. intros _. split.
  - intros t Ht. apply (find_none_all _ _ Hf) in Ht.
    by apply negb_false_iff in Ht.
  - intros [H1 H2]. unfold Osg.beta_mature_test, Py.mem, Osg.list_ne_str in Hb.
    by rewrite !bool_decide_eq_true_2 in Hb.
Qed.

(** The fields of a dictionary that holds more than the title and the
    description. *)
Lemma maintenance_kept_fields content i :
  kept (Maintenance.parse_entry content) = Some i →
  fields_pass content →
  NoDup (Osg.find_fields content)
  ∧ (∀ f, f ∈ Osg.find_fields content → f ∈ Maintenance.valid_fields)
  ∧ NoDup (map Py.lower (Osg.find_fields content))
  ∧ ∃ i0 v,
      Maintenance.store_fields content (Osg.find_fields content)
        (Maintenance.Info (Maintenance.title i) (Maintenance.description i)
           ∅ ∅ None EmptyString EmptyString EmptyString) = Maintenance.Ok i0
      ∧ Maintenance.raw i = Maintenance.raw i0
      ∧ Maintenance.values i = Maintenance.values i0
      ∧ Maintenance.values i0 !! "state" = Some v.
Proof.
  intros (_ & [[Hno _]|(Hpass & i0 & v & Hst & Hr & Hv & Hs & _)])
    %maintenance_parse_entry_kept Hp; [done|].
  pose proof (maintenance_store_fields_one_value _ _ _ _ Hst) as Hone.
  destruct (maintenance_fields_distinct _ (proj2 Hp) Hone) as (H1 & H2 & H3).
  split_and!; try done. by exists i0, v.
Qed.

(** The dictionary that is kept of a text, field by field. *)
Lemma maintenance_kept_dictionary content i :
  kept (Maintenance.parse_entry content) = Some i →
  Osg.find_name content = [Maintenance.title i]
  ∧ Osg.find_description content = [Maintenance.description i]
  ∧ ((¬ fields_pass content
      ∧ Maintenance.raw i = ∅ ∧ Maintenance.values i = ∅
      ∧ Maintenance.inactive i = None)
     ∨ (fields_pass content
        ∧ (∀ f, f ∈ Osg.find_fields content →
                ∃ v, Osg.find_field_values f content = [v]
                     ∧ Maintenance.raw i !! Py.lower f = Some v
                     ∧ Maintenance.values i !! Py.lower f
                       = match Osg.decode "," v with
                         | [] => None
                         | d => Some d
                         end)
        ∧ (∀ k, k ∉ map Py.lower (Osg.find_fields content) →
                Maintenance.raw i !! k = None
                ∧ Maintenance.values i !! k = None)
        ∧ is_Some (Maintenance.values i !! "state")))
  ∧ (∀ k d, Maintenance.values i !! k = Some d → d ≠ []).
Proof.
  intros H.
  destruct (maintenance_parse_entry_kept _ _ H)
    as ((Hn & _ & Hd & _) & [(Hno & Hr & Hv & Hi)|(Hpass & _)]).
  { split_and!; try done.
    - left. by split_and!.
    - intros k d. by rewrite Hv, lookup_empty. }
  destruct (maintenance_kept_fields _ _ H Hpass)
    as (_ & _ & Hnd & i0 & v & Hst & Hr & Hv & Hs).
  destruct (maintenance_store_fields_spec _ _ _ _ Hnd Hst) as (_ & Hout & Hin).
  cbn in Hout, Hin. rewrite Hr, Hv.
  split_and!; try done.
  - right. split_and!; [done..| |by eexists].
    intros k Hk. destruct (Hout k Hk) as [-> ->]. by rewrite !lookup_empty.
  - intros k d Hk.
    destruct (decide (k ∈ map Py.lower (Osg.find_fields content))) as [Hel|Hn'].
    + apply list_elem_of_In, in_map_iff in Hel as (f & <- & Hf%list_elem_of_In).
      destruct (Hin f Hf) as (w & _ & _ & Hw). rewrite Hw in Hk.
      destruct (Osg.decode "," w); [done|]. by injection Hk as <-.
    + destruct (Hout k Hn') as [_ Hval]. by rewrite Hval, lookup_empty in Hk.
Qed.

(** X19: the dictionary that [Maintenance.parse_entry] returns, at its end
    or early after a printed error. It has the title and the description of
    the text. If the essential fields are not all there or the order check
    finds something, it has nothing else. Otherwise it has, for every field
    of the text, the one raw value of the field under the lowered field name
    and under the same key the value decoded at the commas, unless that is
    nothing; it has nothing under other keys, and it has a state. No list
    that it holds is empty. *)
Theorem kept_dictionary content i :
  kept (Maintenance.parse_entry content) = Some i →
  Osg.find_name content = [Maintenance.title i]
  ∧ Osg.find_description content = [Maintenance.description i]
  ∧ ((¬ fields_pass content
      ∧ Maintenance.raw i = ∅ ∧ Maintenance.values i = ∅
      ∧ Maintenance.inactive i = None)
     ∨ (fields_pass content
        ∧ (∀ f, f ∈ Osg.find_fields content →
                ∃ v, Osg.find_field_values f content = [v]
                     ∧ Maintenance.raw i !! Py.lower f = Some v
                     ∧ Maintenance.values i !! Py.lower f
                       = match Osg.decode "," v with
                         | [] => None
                         | d => Some d
                         end)
        ∧ (∀ k, k ∉ map Py.lower (Osg.find_fields content) →
                Maintenance.raw i !! k = None
                ∧ Maintenance.values i !! k = None)
        ∧ is_Some (Maintenance.values i !! "state")))
  ∧ (∀ k d, Maintenance.values i !! k = Some d → d ≠ []).
Proof. apply maintenance_kept_dictionary. Qed.

Lemma kept_dictionary_witness :
  Osg.find_name sample_entry = [Maintenance.title sample_kept]
  ∧ Osg.find_description sample_entry = [Maintenance.description sample_kept]
  ∧ ((¬ fields_pass sample_entry
      ∧ Maintenance.raw sample_kept = ∅ ∧ Maintenance.values sample_kept = ∅
      ∧ Maintenance.inactive sample_kept = None)
     ∨ (fields_pass sample_entry
        ∧ (∀ f, f ∈ Osg.find_fields sample_entry →
                ∃ v, Osg.find_field_values f sample_entry = [v]
                     ∧ Maintenance.raw sample_kept !! Py.lower f = Some v
                     ∧ Maintenance.values sample_kept !! Py.lower f
                       = match Osg.decode "," v with
                         | [] => None
                         | d => Some d
                         end)
        ∧ (∀ k, k ∉ map Py.lower (Osg.find_fields sample_entry) →
                Maintenance.raw sample_kept !! k = None
                ∧ Maintenance.values sample_kept !! k = None)
        ∧ is_Some (Maintenance.values sample_kept !! "state")))
  ∧ (∀ k d, Maintenance.values sample_kept !! k = Some d → d ≠ []).
Proof.
  apply (kept_dictionary sample_entry sample_kept).
  vm_compute. reflexivity.
Defined.

(** X20: an entry that [Maintenance.parse_entry] returns at its end. Its
    fields are distinct valid field names in the canonical order, with the
    essential fields among them. Every token of its state is [beta],
    [mature] or starts with the words of inactivity, and the two first are
    not both there; the entry is inactive since a year exactly when the
    state holds the token of that year. Its platforms are valid platforms. *)
Theorem returned_entry_checked content i :
  Maintenance.parse_entry content = Maintenance.Ok i →
  (NoDup (Osg.find_fields content)
   ∧ (∀ f, f ∈ Osg.find_fields content → f ∈ Maintenance.valid_fields)
   ∧ ¬ misordered Maintenance.valid_fields (Osg.find_fields content)
   ∧ (∀ f, f ∈ Maintenance.essential_fields → f ∈ Osg.find_fields content))
  ∧ (∃ v, Maintenance.values i !! "state" = Some v
          ∧ recognized v
          ∧ ¬ ("beta" ∈ v ∧ "mature" ∈ v)
          ∧ ∀ y, Maintenance.inactive i = Some y ↔ "inactive since " +:+ y ∈ v)
  ∧ ∀ p, Maintenance.values i !! "platform" = Some p →
         ∀ x, x ∈ p → x ∈ Maintenance.valid_platforms.
Proof.
  intros H.
  assert (Hk : kept (Maintenance.parse_entry content) = Some i)
    by by rewrite H.
  destruct (maintenance_parse_entry_kept _ _ Hk)
    as (_ & [(Hno & _ & Hv & _)|(Hpass & i0 & v & Hst & _ & Hv & Hs & Hok)]).
  { exfalso. revert H. unfold Maintenance.parse_entry.
    destruct (Osg.find_name content) as [|n [|]]; try done.
    destruct (Osg.nonempty n); try done.
    destruct (Osg.find_description content) as [|d [|]]; try done.
    destruct (Osg.nonempty d); try done.
    cbn [mbind Maintenance.result_bind].
    destruct (List.find _ Maintenance.essential_fields) eqn:Hess; [done|].
    destruct (Osg.order_scan Maintenance.valid_fields _) eqn:Hscan; [done|].
    exfalso. apply Hno. split; [|done].
    by apply find_essential_maintenance. }
  destruct (maintenance_kept_fields _ _ Hk Hpass) as (Hnd & Hval & _).
  destruct (Hok H) as (Hcs & Hi & Hlen & Hplat).
  destruct (maintenance_check_state_passed v Hcs) as [Hr Hb].
  split_and!; try done.
  - intros Hm.
    destruct (scan_misordered _ maintenance_valid_fields_nodup _ Hm) as [g Hg].
    destruct Hpass as [_ Hscan]. congruence.
  - by destruct Hpass.
  - exists v. rewrite Hv. split_and!; try done.
    intros y. rewrite <- (inactive_year_elem_of v y), Hi.
    destruct (Osg.inactive_year v) as [|y' [|]]; simpl in *; [| |lia].
    + split; [done|by intros ?%elem_of_nil].
    + rewrite list_elem_of_singleton. split; [by intros [= ->]|by intros ->].
Qed.

Lemma returned_entry_checked_witness :
  (NoDup (Osg.find_fields sample_entry)
   ∧ (∀ f, f ∈ Osg.find_fields sample_entry → f ∈ Maintenance.valid_fields)
   ∧ ¬ misordered Maintenance.valid_fields (Osg.find_fields sample_entry)
   ∧ (∀ f, f ∈ Maintenance.essential_fields → f ∈ Osg.find_fields sample_entry))
  ∧ (∃ v, Maintenance.values sample_kept !! "state" = Some v
          ∧ recognized v
          ∧ ¬ ("beta" ∈ v ∧ "mature" ∈ v)
          ∧ ∀ y, Maintenance.inactive sample_kept = Some y
                 ↔ "inactive since " +:+ y ∈ v)
  ∧ ∀ p, Maintenance.values sample_kept !! "platform" = Some p →
         ∀ x, x ∈ p → x ∈ Maintenance.valid_platforms.
Proof.
  apply (returned_entry_checked sample_entry sample_kept).
  vm_compute. reflexivity.
Defined.

(** * The entries that [assemble_infos] keeps, in the later stages *)

Lemma assemble_info_kept category dir file content i :
  Maintenance.assemble_info category dir file content = inr i
  ↔ ∃ i0, kept (Maintenance.parse_entry content) = Some i0
          ∧ i = Maintenance.set_provenance category
                  (Py.drop_last (Py.drop_last (Py.drop_last file)))
                  (dir +:+ "/" +:+ file) i0.
Proof.
  unfold Maintenance.assemble_info.
  destruct (Maintenance.parse_entry content) as [i0|[x|c i0]]; cbn [kept].
  - split; [intros [= <-]; by exists i0|by intros (? & [= <-] & ->)].
  - split; [done|by intros (? & ? & _)].
  - split; [intros [= <-]; by exists i0|by intros (? & [= <-] & ->)].
Qed.

Lemma number_state_raises tag infois :
  (∀ e, Maintenance.number_state tag infois = inl e
        → e = Maintenance.KeyError "state")
  ∧ ((∃ n, Maintenance.number_state tag infois = inr n)
     ↔ ∀ x, x ∈ infois → is_Some (Maintenance.values x !! "state")).
Proof.
  induction infois as [|x infois [IHe IHn]].
  - split; [done|]. split; [by intros _ x ?%elem_of_nil|by exists 0].
  - cbn [Maintenance.number_state].
    destruct (Maintenance.values x !! "state") as [v|] eqn:Hv.
    + destruct (Maintenance.number_state tag infois) as [e|n] eqn:E.
      * split; [intros e' [= <-]; by apply IHe|]. split; [by intros [? ?]|].
        intros H. destruct (proj2 IHn) as [? ?]; [|done].
        intros y Hy. apply H. by right.
      * split; [done|]. split; [|by eexists].
        intros _ y [->|Hy]%elem_of_cons; [by rewrite Hv|].
        apply (proj1 IHn); [by eexists|done].
    + split; [by intros e [= <-]|]. split; [by intros [? ?]|].
      intros H. destruct (H x) as [? ?]; [by left|congruence].
Qed.

(** X21: a text with a title and a description of which an essential field
    is missing, or of which the fields are in a wrong order, is not
    skipped: [parse_entry] prints its error and returns a dictionary with
    the title and the description only, [assemble_infos] keeps it with the
    category, the file and the path, and on every collection that holds it
    the counting of the states raises the KeyError of the key state and
    [export_json] raises as well. *)
Theorem early_return_breaks_later category dir file content n d :
  titled content n d → ¬ fields_pass content →
  let i := Maintenance.Info n d ∅ ∅ None category
             (Py.drop_last (Py.drop_last (Py.drop_last file)))
             (dir +:+ "/" +:+ file) in
  (∃ c, Maintenance.parse_entry content
        = Maintenance.Stop
            (Maintenance.Returned c
               (Maintenance.Info n d ∅ ∅ None EmptyString EmptyString
                  EmptyString)))
  ∧ Maintenance.assemble_info category dir file content = inr i
  ∧ ∀ infois, i ∈ infois →
      (∀ tag, Maintenance.number_state tag infois
              = inl (Maintenance.KeyError "state"))
      ∧ ∀ shorten, ∃ x, Maintenance.export_json shorten infois = inl x.
Proof.
  intros (Hn & Hne & Hd & Hde) Hno i.
  assert (Hp : ∃ c, Maintenance.parse_entry content
                    = Maintenance.Stop
                        (Maintenance.Returned c
                           (Maintenance.Info n d ∅ ∅ None EmptyString
                              EmptyString EmptyString))).
  { unfold Maintenance.parse_entry. rewrite Hn, Hd, !nonempty_true by done.
    cbn [mbind Maintenance.result_bind].
    destruct (List.find _ Maintenance.essential_fields) eqn:Hess;
      [by eexists|].
    destruct (Osg.order_scan Maintenance.valid_fields _) eqn:Hscan;
      [by eexists|].
    exfalso. apply Hno. split; [|done]. by apply find_essential_maintenance. }
  split; [done|]. destruct Hp as [c Hp].
  split; [unfold Maintenance.assemble_info; by rewrite Hp|].
  intros infois Hi. split.
  - intros tag.
    destruct (Maintenance.number_state tag infois) as [e|k] eqn:E.
    + by rewrite (proj1 (number_state_raises tag infois) e E).
    + destruct (proj1 (proj2 (number_state_raises tag infois)) (ex_intro _ k E)
                  i Hi) as [v Hv].
      unfold i in Hv. cbn [Maintenance.values] in Hv.
      by rewrite lookup_empty in Hv.
  - intros shorten.
    destruct (Maintenance.export_json shorten infois) as [x|rows] eqn:E;
      [by eexists|].
    exfalso. unfold Maintenance.export_json in E.
    destruct (Maintenance.export_entries shorten infois) as [|rows'] eqn:E';
      [done|].
    apply export_entries_ok in E'. apply list_elem_of_lookup in Hi as [k Hk].
    destruct (Forall2_lookup_l _ _ _ _ _ E' Hk) as (row & _ & Hrow).
    unfold i, Maintenance.export_entry, Maintenance.first_value in Hrow.
    cbn [Maintenance.values] in Hrow. by rewrite lookup_empty in Hrow.
Qed.

Lemma early_return_breaks_later_witness :
  let i := Maintenance.Info "Name" "Description" ∅ ∅ None "Games"
             (Py.drop_last (Py.drop_last (Py.drop_last "game.md")))
             ("games" +:+ "/" +:+ "game.md") in
  (∃ c, Maintenance.parse_entry entry_misordered
        = Maintenance.Stop
            (Maintenance.Returned c
               (Maintenance.Info "Name" "Description" ∅ ∅ None EmptyString
                  EmptyString EmptyString)))
  ∧ Maintenance.assemble_info "Games" "games" "game.md" entry_misordered
    = inr i
  ∧ ∀ infois, i ∈ infois →
      (∀ tag, Maintenance.number_state tag infois
              = inl (Maintenance.KeyError "state"))
      ∧ ∀ shorten, ∃ x, Maintenance.export_json shorten infois = inl x.
Proof.
  apply (early_return_breaks_later "Games" "games" "game.md" entry_misordered
           "Name" "Description").
  - by vm_compute.
  - intros [_ H]. by vm_compute in H.
Defined.

(** X22: the one KeyError of [Maintenance.parse_entry] is that of the key
    state, and it is raised exactly for a text with a title and a
    description of which the fields pass the two checks and have one value
    each, and of which the state decodes to nothing, as a state that is a
    comment in parentheses does. *)
Theorem state_key_error content k :
  Maintenance.parse_entry content
  = Maintenance.Stop (Maintenance.Exception (Maintenance.KeyError k))
  ↔ k = "state"
    ∧ (∃ n d, titled content n d)
    ∧ fields_pass content
    ∧ (∀ f, f ∈ Osg.find_fields content →
            length (Osg.find_field_values f content) = 1)
    ∧ ∃ v, Osg.find_field_values "State" content = [v]
           ∧ Osg.decode "," v = [].
Proof.
  assert (Hstate : ∀ i i0,
    fields_pass content →
    Maintenance.store_fields content (Osg.find_fields content) i
    = Maintenance.Ok i0 →
    Maintenance.values i = ∅ →
    ∃ v, Osg.find_field_values "State" content = [v]
         ∧ Maintenance.values i0 !! "state"
           = match Osg.decode "," v with [] => None | d => Some d end).
  { intros i i0 [Hess Hscan] Hst Hempty.
    pose proof (maintenance_store_fields_one_value _ _ _ _ Hst) as Hone.
    destruct (maintenance_fields_distinct _ Hscan Hone) as (_ & _ & Hnd).
    destruct (maintenance_store_fields_spec _ _ _ _ Hnd Hst) as (_ & _ & Hin).
    destruct (Hin "State") as (v & Hv & _ & Hval).
    { apply Hess. unfold Maintenance.essential_fields.
      rewrite !elem_of_cons. tauto. }
    exists v. split; [done|]. rewrite Hempty, lookup_empty in Hval.
    exact Hval. }
  split.
  - unfold Maintenance.parse_entry.
    destruct (Osg.find_name content) as [|n [|]] eqn:Hn; try done.
    destruct (Osg.nonempty n) eqn:Hne; try done.
    destruct (Osg.find_description content) as [|d [|]] eqn:Hd; try done.
    destruct (Osg.nonempty d) eqn:Hde; try done.
    apply nonempty_inv in Hne, Hde.
    cbn [mbind Maintenance.result_bind].
    destruct (List.find _ Maintenance.essential_fields) as [f|] eqn:Hess;
      [done|].
    pose proof (proj1 (find_essential_maintenance _) Hess) as Hall.
    destruct (Osg.order_scan Maintenance.valid_fields _) as [f|] eqn:Hscan;
      [done|].
    destruct (Maintenance.store_fields _ _ _) as [i0|s] eqn:Hst.
    2:{ apply maintenance_store_fields_stop in Hst as [-> _]. done. }
    cbn [mbind Maintenance.result_bind].
    destruct (Hstate _ i0 (conj Hall Hscan) Hst eq_refl) as (v & Hv & Hval).
    destruct (Maintenance.values i0 !! "state") as [w|] eqn:Hw.
    + destruct (Maintenance.check_state w); [done|].
      destruct (Osg.inactive_year w) as [|y [|]]; try done;
        cbn [mbind Maintenance.result_bind].
      * destruct (Maintenance.values i0 !! "platform") as [p|]; [|done].
        by destruct (List.find _ p).
      * change (Maintenance.values (Maintenance.set_inactive y i0))
          with (Maintenance.values i0).
        destruct (Maintenance.values i0 !! "platform") as [p|]; [|done].
        by destruct (List.find _ p).
    + intros [= <-]. split_and!; try done.
      * by exists n, d.
      * by eapply maintenance_store_fields_one_value.
      * exists v. split; [done|]. by destruct (Osg.decode "," v).
  - intros (-> & (n & d & Hn & Hne & Hd & Hde) & [Hess Hscan] & Hone
            & v & Hv & Hdec).
    unfold Maintenance.parse_entry. rewrite Hn, Hd, !nonempty_true by done.
    cbn [mbind Maintenance.result_bind].
    rewrite (proj2 (find_essential_maintenance _) Hess), Hscan.
    destruct (maintenance_store_fields_total content (Osg.find_fields content)
                (Maintenance.Info n d ∅ ∅ None EmptyString EmptyString
                   EmptyString) Hone) as [i0 Hst].
    rewrite Hst. cbn [mbind Maintenance.result_bind].
    destruct (Hstate _ i0 (conj Hess Hscan) Hst eq_refl) as (v' & Hv' & Hval).
    rewrite Hv in Hv'. injection Hv' as <-.
    by rewrite Hval, Hdec.
Qed.

(** The entries that are kept have a state wherever they have a home, and
    no empty list. *)
Lemma assembled_values category dir file content i :
  Maintenance.assemble_info category dir file content = inr i →
  (∀ k d, Maintenance.values i !! k = Some d → d ≠ [])
  ∧ (is_Some (Maintenance.values i !! "home") →
     is_Some (Maintenance.values i !! "state")).
Proof.
  intros (i0 & Hk & ->)%assemble_info_kept.
  change (Maintenance.values (Maintenance.set_provenance _ _ _ i0))
    with (Maintenance.values i0).
  destruct (maintenance_kept_dictionary _ _ Hk)
    as (_ & _ & [(_ & _ & Hv & _)|(_ & _ & _ & Hs)] & Hne).
  - split; [done|]. rewrite Hv, lookup_empty. by intros [? ?].
  - by split.
Qed.

Lemma assembled_export shorten category dir file content i :
  Maintenance.assemble_info category dir file content = inr i →
  (exportable i ↔ is_Some (Maintenance.values i !! "home"))
  ∧ (∀ x, Maintenance.export_entry shorten i = inl x →
          x = Maintenance.KeyError "home").
Proof.
  intros [Hne Hs]%assembled_values. split.
  - split; [intros [(h & hs & ->) _]; by eexists|].
    intros Hh. destruct (Hs Hh) as [s Hst]. destruct Hh as [h Hh].
    split.
    + destruct h as [|h hs]; [by destruct (Hne _ _ Hh)|]. by exists h, hs.
    + destruct s as [|s ss]; [by destruct (Hne _ _ Hst)|]. by exists s, ss.
  - unfold Maintenance.export_entry, Maintenance.state_column,
      Maintenance.first_value.
    destruct (Maintenance.values i !! "home") as [[|h hs]|] eqn:Hh.
    + by destruct (Hne _ _ Hh).
    + destruct Hs as [s Hst]; [by eexists|]. rewrite Hst.
      destruct s as [|s ss]; [by destruct (Hne _ _ Hst)|]. done.
    + by intros x [= <-].
Qed.

(** X23: on the dictionaries that [assemble_infos] keeps, [export_json]
    gives its rows exactly when every entry has a home, and what it raises
    otherwise is the KeyError of the key home: it never raises for a state
    that is missing or for a list that is empty. *)
Theorem assembled_entries_export shorten infois :
  (∀ i, i ∈ infois →
        ∃ category dir file content,
          Maintenance.assemble_info category dir file content = inr i) →
  ((∃ rows, Maintenance.export_json shorten infois = inr rows)
   ↔ ∀ i, i ∈ infois → is_Some (Maintenance.values i !! "home"))
  ∧ ∀ x, Maintenance.export_json shorten infois = inl x →
         x = Maintenance.KeyError "home".
Proof.
  intros Hall. unfold Maintenance.export_json. split; [split|].
  - intros [rows H] i Hi.
    destruct (Maintenance.export_entries shorten infois) as [|rows'] eqn:E;
      [done|].
    apply export_entries_ok in E.
    pose proof Hi as Hi'. apply list_elem_of_lookup in Hi' as [k Hk].
    destruct (Forall2_lookup_l _ _ _ _ _ E Hk) as (row & _ & Hrow).
    destruct (Hall i Hi) as (c & d & f & content & Ha).
    apply (assembled_export shorten) in Ha as [<- _].
    apply (export_entry_exportable shorten). by exists row.
  - intros Hhome.
    destruct (Maintenance.export_entries shorten infois) as [x|rows] eqn:E;
      [|by eexists].
    apply export_entries_raise in E as (i & Hi & _ & Hno).
    destruct (Hall i Hi) as (c & d & f & content & Ha).
    apply (assembled_export shorten) in Ha as [Hex _].
    destruct Hno. apply Hex. by apply Hhome.
  - intros x.
    destruct (Maintenance.export_entries shorten infois) as [y|rows] eqn:E;
      [|done].
    intros [= ->].
    apply export_entries_raise in E as (i & Hi & Hx & _).
    destruct (Hall i Hi) as (c & d & f & content & Ha).
    apply (assembled_export shorten) in Ha as [_ Hraise].
    by apply Hraise.
Qed.

Lemma assembled_entries_export_witness :
  ((∃ rows,
      Maintenance.export_json id
        [game "Name" "beta" "https://example.org/code.git"] = inr rows)
   ↔ ∀ i, i ∈ [game "Name" "beta" "https://example.org/code.git"] →
          is_Some (Maintenance.values i !! "home"))
  ∧ ∀ x, Maintenance.export_json id
           [game "Name" "beta" "https://example.org/code.git"] = inl x →
         x = Maintenance.KeyError "home".
Proof.
  apply (assembled_entries_export id
           [game "Name" "beta" "https://example.org/code.git"]).
  intros i ->%list_elem_of_singleton.
  exists "Games", "games", "game.md",
    (entry_named "Name"
       ["- Home: https://example.org"; "- State: beta";
        "- Keywords: action, puzzle";
        "- Code repository: https://example.org/code.git";
        "- Code language: C++"; "- Code license: MIT"]).
  vm_compute. reflexivity.
Defined.

(** The two entries with a comment for a value: the one without a state
    stops [parse_entry], the one without a home passes it and stops
    [export_json]. *)
Lemma state_comment_key_error :
  Maintenance.parse_entry entry_state_comment
  = Maintenance.Stop (Maintenance.Exception (Maintenance.KeyError "state")).
Proof. by vm_compute. Qed.

Lemma home_comment_not_exported :
  ∃ i, Maintenance.assemble_info "Games" "games" "game.md" entry_home_comment
       = inr i
       ∧ Maintenance.export_json id [i]
         = inl (Maintenance.KeyError "home").
Proof. eexists. split; [by vm_compute|by vm_compute]. Qed.

(** * The lists of the statistics *)

Lemma titles_where_ok test (p : Maintenance.info → bool) infois :
  (∀ x, x ∈ infois → test x = inr (p x)) →
  Maintenance.titles_where test infois
  = inr (map Maintenance.title (List.filter p infois)).
Proof.
  induction infois as [|x infois IH]; intros H; [done|].
  cbn [Maintenance.titles_where List.filter].
  rewrite (H x) by left. rewrite IH by (intros y Hy; apply H; by right).
  by destruct (p x).
Qed.

Lemma titles_where_raise test infois e :
  Maintenance.titles_where test infois = inl e →
  ∃ x, x ∈ infois ∧ test x = inl e.
Proof.
  induction infois as [|x infois IH]; [done|].
  cbn [Maintenance.titles_where].
  destruct (test x) as [e'|b] eqn:E.
  - intros [= ->]. exists x. split; [by left|done].
  - destruct (Maintenance.titles_where test infois) as [e'|l]; [|done].
    intros [= ->]. destruct (IH eq_refl) as (y & Hy & Ht).
    exists y. split; [by right|done].
Qed.

Lemma titles_where_inr test infois l :
  Maintenance.titles_where test infois = inr l →
  ∀ x, x ∈ infois → ∃ b, test x = inr b.
Proof.
  revert l. induction infois as [|y infois IH]; intros l;
    [by intros _ x ?%elem_of_nil|].
  cbn [Maintenance.titles_where].
  destruct (test y) as [e'|b] eqn:E; [done|].
  destruct (Maintenance.titles_where test infois) as [e'|l'] eqn:E'; [done|].
  intros _ x [->|Hx]%elem_of_cons; [by exists b|]. by apply (IH l').
Qed.

Lemma c_or_cpp_inr x b :
  Maintenance.c_or_cpp x = inr b → (b = true ↔ in_c_or_cpp x).
Proof.
  unfold Maintenance.c_or_cpp, in_c_or_cpp.
  destruct (Maintenance.values x !! "code language") as [l|]; [|done].
  intros [= <-]. rewrite orb_true_iff, !mem_true. split.
  - intros H. by exists l.
  - by intros (l' & [= <-] & H).
Qed.

(** X24: the list of the C and C++ projects without build system
    information in the statistics. It is made exactly when every entry
    without a build system has a code language; otherwise what is raised is
    the KeyError of the key code language, which an entry with a build
    system never causes. The list holds the titles of the entries without a
    build system that are written in C or C++, one for each such entry, in
    ascending order. *)
Theorem c_cpp_without_build_system infois :
  ((∃ l, Maintenance.c_cpp_project_without_build_system infois = inr l)
   ↔ ∀ x, x ∈ infois → Maintenance.values x !! "build system" = None →
          is_Some (Maintenance.values x !! "code language"))
  ∧ (∀ e, Maintenance.c_cpp_project_without_build_system infois = inl e →
          e = Maintenance.KeyError "code language")
  ∧ ∀ l, Maintenance.c_cpp_project_without_build_system infois = inr l →
      StronglySorted (fun a b => String.leb a b = true) l
      ∧ ∃ chosen, l ≡ₚ map Maintenance.title chosen
          ∧ sublist chosen infois
          ∧ ∀ x, x ∈ chosen
                 ↔ x ∈ infois
                   ∧ Maintenance.values x !! "build system" = None
                   ∧ in_c_or_cpp x.
Proof.
  unfold Maintenance.c_cpp_project_without_build_system.
  set (test := fun x => match Maintenance.values x !! "build system" with
                        | Some _ => inr false
                        | None => Maintenance.c_or_cpp x
                        end).
  set (p := fun x => match test x with inr b => b | inl _ => false end).
  assert (Htest : ∀ x e, test x = inl e →
            Maintenance.values x !! "build system" = None
            ∧ Maintenance.values x !! "code language" = None
            ∧ e = Maintenance.KeyError "code language").
  { intros x e. unfold test, Maintenance.c_or_cpp.
    destruct (Maintenance.values x !! "build system"); [done|].
    destruct (Maintenance.values x !! "code language"); [done|].
    by intros [= <-]. }
  assert (Hp : ∀ x, (∃ b, test x = inr b) →
            (p x = true ↔ Maintenance.values x !! "build system" = None
                          ∧ in_c_or_cpp x)).
  { intros x [b Hb]. unfold p. rewrite Hb. revert Hb. unfold test.
    destruct (Maintenance.values x !! "build system") as [bs|].
    - intros [= <-]. split; [done|by intros [? _]].
    - intros Hb%c_or_cpp_inr. rewrite Hb. tauto. }
  destruct (Maintenance.titles_where test infois) as [e|l0] eqn:E.
  - apply titles_where_raise in E as (x & Hx & Hte).
    destruct (Htest x e Hte) as (Hb & Hl & ->).
    split_and!; [|by intros e [= <-]|done].
    split; [by intros [? ?]|].
    intros H. destruct (H x Hx Hb) as [? ?]. congruence.
  - pose proof (titles_where_inr _ _ _ E) as Hall.
    assert (E' : l0 = map Maintenance.title (List.filter p infois)).
    { rewrite (titles_where_ok test p) in E; [by injection E as <-|].
      intros x Hx. destruct (Hall x Hx) as [b Hb]. unfold p. by rewrite Hb. }
    split_and!; [|done|].
    + split; [|by eexists]. intros _ x Hx Hb.
      destruct (Hall x Hx) as [b Ht]. revert Ht. unfold test. rewrite Hb.
      unfold Maintenance.c_or_cpp.
      destruct (Maintenance.values x !! "code language"); [by eexists|done].
    + intros l [= <-]. split.
      * eapply strongly_sorted_impl;
          [|apply sort_stable with (R := fun _ _ => True)].
        -- by intros a b [H _].
        -- apply String.leb_total.
        -- apply leb_trans_string.
        -- apply strongly_sorted_any.
      * exists (List.filter p infois). split_and!.
        -- by rewrite sort_perm, E'.
        -- apply filter_sublist.
        -- intros x. rewrite elem_of_bool_filter. split.
           ++ intros [Hx Hpx]. split; [done|]. by apply Hp; [apply Hall|].
           ++ intros (Hx & Hb & Hc). split; [done|]. by apply Hp; [apply Hall|].
Qed.

(** X25: the list that the statistics give under the heading of the C and
    C++ projects with a build system different from CMake. It is made
    exactly when every entry with CMake among its build systems has a code
    language, and what is raised otherwise is the KeyError of the key code
    language. Its members are the titles of the entries in C or C++ that do
    have CMake among their build systems, in ascending order: an entry
    without CMake is never listed. *)
Theorem c_cpp_not_cmake infois :
  ((∃ l, Maintenance.c_cpp_project_not_cmake infois = inr l)
   ↔ ∀ x, x ∈ infois → with_cmake x →
          is_Some (Maintenance.values x !! "code language"))
  ∧ (∀ e, Maintenance.c_cpp_project_not_cmake infois = inl e →
          e = Maintenance.KeyError "code language")
  ∧ ∀ l, Maintenance.c_cpp_project_not_cmake infois = inr l →
      StronglySorted (fun a b => String.leb a b = true) l
      ∧ ∃ chosen, l ≡ₚ map Maintenance.title chosen
          ∧ sublist chosen infois
          ∧ ∀ x, x ∈ chosen ↔ x ∈ infois ∧ with_cmake x ∧ in_c_or_cpp x.
Proof.
  unfold Maintenance.c_cpp_project_not_cmake.
  set (test := fun x => match Maintenance.values x !! "build system" with
                        | Some b => if Py.mem "CMake" b
                                    then Maintenance.c_or_cpp x
                                    else inr false
                        | None => inr false
                        end).
  set (p := fun x => match test x with inr b => b | inl _ => false end).
  assert (Hcmake : ∀ x, with_cmake x
            ↔ ∃ b, Maintenance.values x !! "build system" = Some b
                   ∧ Py.mem "CMake" b = true).
  { intros x. unfold with_cmake. by setoid_rewrite mem_true. }
  assert (Htest : ∀ x e, test x = inl e →
            with_cmake x
            ∧ Maintenance.values x !! "code language" = None
            ∧ e = Maintenance.KeyError "code language").
  { intros x e. rewrite Hcmake. unfold test, Maintenance.c_or_cpp.
    destruct (Maintenance.values x !! "build system") as [b|]; [|done].
    destruct (Py.mem "CMake" b) eqn:Hb; [|done].
    destruct (Maintenance.values x !! "code language"); [done|].
    intros [= <-]. split; [by exists b|done]. }
  assert (Hp : ∀ x, (∃ b, test x = inr b) →
            (p x = true ↔ with_cmake x ∧ in_c_or_cpp x)).
  { intros x [b Hb]. unfold p. rewrite Hb, Hcmake. revert Hb. unfold test.
    destruct (Maintenance.values x !! "build system") as [bs|].
    - destruct (Py.mem "CMake" bs) eqn:Hbs.
      + intros Hb%c_or_cpp_inr. rewrite Hb. split; [|tauto].
        intros Hc. split; [by exists bs|done].
      + intros [= <-]. split; [done|]. intros [(bs' & [= <-] & ?) _].
        congruence.
    - intros [= <-]. split; [done|]. by intros [(? & ? & _) _]. }
  destruct (Maintenance.titles_where test infois) as [e|l0] eqn:E.
  - apply titles_where_raise in E as (x & Hx & Hte).
    destruct (Htest x e Hte) as (Hb & Hl & ->).
    split_and!; [|by intros e [= <-]|done].
    split; [by intros [? ?]|].
    intros H. destruct (H x Hx Hb) as [? ?]. congruence.
  - pose proof (titles_where_inr _ _ _ E) as Hall.
    assert (E' : l0 = map Maintenance.title (List.filter p infois)).
    { rewrite (titles_where_ok test p) in E; [by injection E as <-|].
      intros x Hx. destruct (Hall x Hx) as [b Hb]. unfold p. by rewrite Hb. }
    split_and!; [|done|].
    + split; [|by eexists]. intros _ x Hx (bs & Hbs & Hm)%Hcmake.
      destruct (Hall x Hx) as [b Ht]. revert Ht. unfold test.
      rewrite Hbs, Hm. unfold Maintenance.c_or_cpp.
      destruct (Maintenance.values x !! "code language"); [by eexists|done].
    + intros l [= <-]. split.
      * eapply strongly_sorted_impl;
          [|apply sort_stable with (R := fun _ _ => True)].
        -- by intros a b [H _].
        -- apply String.leb_total.
        -- apply leb_trans_string.
        -- apply strongly_sorted_any.
      * exists (List.filter p infois). split_and!.
        -- by rewrite sort_perm, E'.
        -- apply filter_sublist.
        -- intros x. rewrite elem_of_bool_filter. split.
           ++ intros [Hx Hpx]. split; [done|]. by apply Hp; [apply Hall|].
           ++ intros (Hx & Hc). split; [done|]. by apply Hp; [apply Hall|].
Qed.

(** Of a project built with CMake and one built with Make, the list holds
    the first. *)
Lemma c_cpp_not_cmake_example :
  Maintenance.c_cpp_project_not_cmake
    [built_with "Make game" "Make"; built_with "CMake game" "CMake"]
  = inr ["CMake game"].
Proof. by vm_compute. Qed.
